(** * crypto_analyzer: the analytics core, embedded and verified

    A shallow embedding of the analytics pipeline of the repository
    (download_historical_data.py, analyze_correlations.py,
    analyze_price_distance.py, main.py) together with the pandas / numpy
    operations those scripts call.

    - Numbers are IEEE binary64 values, as in Python: Rocq's primitive
      [float]. NaN is the "undefined" marker of pandas.
    - A Python [dict] is an association list in insertion order with
      distinct keys; a DataFrame is a date axis plus named numeric columns.
    - Files written with [to_csv] / [json.dump] are fields of a [disk]
      record; log lines are collected in a list. *)

From Stdlib Require Import String ZArith Bool Arith Lia List.
From Stdlib Require Import Floats Permutation Sorted.
From Stdlib Require Import Reals Lra Psatz.
Import ListNotations.

Set Warnings "-inexact-float".
Set Implicit Arguments.
Local Open Scope string_scope.
Local Open Scope list_scope.

(* ===================================================================== *)
(** * 1. Data model                                                    *)
(* ===================================================================== *)

(** A pandas Timestamp, kept as the epoch milliseconds it was built from
    (download_historical_data.py line 185). *)
Definition timestamp := Z.

(** A numeric pandas Series with the default RangeIndex. *)
Definition series := list float.

(** The per-asset DataFrame built by [download_historical_data_coingecko]
    (lines 177-198) or read back from [<symbol>_historical.csv]: the [date]
    and [price] columns are always there, the other columns may be absent. *)
Record asset_frame := {
  af_date : list timestamp;
  af_price : series;
  af_volume : option series;
  af_market_cap : option series;
  af_daily_return : option series
}.

(** [len(df)]: the number of rows. *)
Definition af_len (df : asset_frame) : nat := length (af_date df).

(** Every column of a DataFrame has one value per row. *)
Definition opt_len_ok (n : nat) (c : option series) : Prop :=
  match c with Some l => length l = n | None => True end.

Definition wf_asset_frame (df : asset_frame) : Prop :=
  length (af_price df) = af_len df /\
  opt_len_ok (af_len df) (af_volume df) /\
  opt_len_ok (af_len df) (af_market_cap df) /\
  opt_len_ok (af_len df) (af_daily_return df).

(** The combined DataFrames ([combined_prices.csv], [combined_returns.csv]):
    a [date] column and one numeric column per asset symbol, in column
    order. Symbols are upper-cased tickers (line 138). *)
Record frame := {
  f_date : list timestamp;
  f_cols : list (string * series)
}.

Definition nrows (df : frame) : nat := length (f_date df).

Definition wf_frame (df : frame) : Prop :=
  NoDup (map fst (f_cols df)) /\
  Forall (fun c => length (snd c) = nrows df) (f_cols df).

(** [df[name] = values]: an existing column is replaced in place, a new one
    is appended on the right. *)
Fixpoint set_col (name : string) (c : series) (cols : list (string * series))
  : list (string * series) :=
  match cols with
  | [] => [(name, c)]
  | (n, c') :: t =>
      if String.eqb n name then (n, c) :: t else (n, c') :: set_col name c t
  end.

(** [df[name]] as an option: [None] where Python raises [KeyError]. *)
Fixpoint get_col (name : string) (cols : list (string * series))
  : option series :=
  match cols with
  | [] => None
  | (n, c) :: t => if String.eqb n name then Some c else get_col name t
  end.

(** The historical-data mapping: a dict from symbol to DataFrame. *)
Definition historical := list (string * asset_frame).

Definition is_dict {V : Type} (d : list (string * V)) : Prop :=
  NoDup (map fst d).

(* ===================================================================== *)
(** * 2. Effects: log records and persisted artifacts                  *)
(* ===================================================================== *)

Inductive level := INFO | WARNING | ERROR.

Definition log_record := (level * string)%type.

(** What a Python call gives back: a value, or an exception by name. *)
Inductive py_result (A : Type) :=
| Returned (a : A)
| Raised (exn : string).
Arguments Returned {A} a.
Arguments Raised {A} exn.

(* ===================================================================== *)
(** * 3. SeriesAligner: download_historical_data.save_combined_data    *)
(* ===================================================================== *)

(** Lines 285-287: one turn of the loop over [historical_data.items()]. *)
Definition add_price (ref_len : nat) (cols : list (string * series))
  (item : string * asset_frame) : list (string * series) :=
  let (symbol, df) := item in
  if Nat.eqb (af_len df) ref_len then set_col symbol (af_price df) cols
  else cols.

(** Lines 297-299: the same loop over the [daily_return] columns. *)
Definition add_return (ref_len : nat) (cols : list (string * series))
  (item : string * asset_frame) : list (string * series) :=
  let (symbol, df) := item in
  match af_daily_return df with
  | Some r =>
      if Nat.eqb (af_len df) ref_len then set_col symbol r cols else cols
  | None => cols
  end.

(** Lines 279-287: the combined price DataFrame for a mapping whose first
    item is [first]. The row count of [combined_df] is fixed by the [date]
    column assigned first. *)
Definition combined_prices (first : string * asset_frame) (hd : historical)
  : frame :=
  let dates := af_date (snd first) in
  {| f_date := dates;
     f_cols := fold_left (add_price (length dates)) hd [] |}.

(** Lines 294-299. *)
Definition combined_returns (first : string * asset_frame) (hd : historical)
  : frame :=
  let dates := af_date (snd first) in
  {| f_date := dates;
     f_cols := fold_left (add_return (length dates)) hd [] |}.

(* ===================================================================== *)
(** * 4. numpy / pandas numeric operations                             *)
(* ===================================================================== *)

Local Open Scope float_scope.

(** [pandas.isna] on a float64 value: true for NaN only. *)
Definition isna (x : float) : bool := PrimFloat.is_nan x.

Definition notna (x : float) : bool := negb (isna x).

(** [numpy.isfinite]: neither NaN nor an infinity. *)
Definition np_isfinite (x : float) : bool := PrimFloat.is_finite x.

(** A Python [int] count converted to [float]. *)
Definition float_of_nat (n : nat) : float :=
  PrimFloat.of_uint63 (Uint63.of_Z (Z.of_nat n)).

(** [Series.fillna(v)]. *)
Definition fillna (v : float) (s : series) : series :=
  map (fun x => if isna x then v else x) s.

(** [values.sum()] and [values.prod()]: the accumulation is written left to
    right; numpy's blocking of long sums only moves the last bits. *)
Definition np_sum (s : series) : float := fold_left PrimFloat.add s 0.

Definition np_prod (s : series) : float := fold_left PrimFloat.mul s 1.

(** [numpy.cumprod]: the running product, left to right. *)
Fixpoint cumprod_from (acc : float) (s : series) : series :=
  match s with
  | [] => []
  | x :: t => let acc' := acc * x in acc' :: cumprod_from acc' t
  end.

Definition np_cumprod (s : series) : series := cumprod_from 1 s.

(** [Series.cumprod()] with [skipna=True]: NaN entries count as 1 in the
    running product and stay NaN in the result. *)
Definition cumprod (s : series) : series :=
  map (fun xr => if isna (fst xr) then nan else snd xr)
      (combine s (np_cumprod (map (fun x => if isna x then 1 else x) s))).

(** The number of non-NaN entries ([nanops._get_counts]). *)
Definition count_valid (s : series) : nat := length (filter notna s).

(** [nanops.nansum] with [skipna=True]: NaN entries are overwritten with 0
    before the sum. *)
Definition nansum (s : series) : float := np_sum (fillna 0 s).

(** [nanops.nanmean] with [skipna=True]: the sum of the zero-filled values
    over the number of valid ones; NaN when nothing is valid. *)
Definition nanmean (s : series) : float :=
  let c := count_valid s in
  if Nat.eqb c 0 then nan else nansum s / float_of_nat c.

(** [nanops.nanvar] with [skipna=True], [ddof=1]: with at most one valid
    value both the count and the divisor are NaN. *)
Definition nanvar (s : series) : float :=
  let c := count_valid s in
  let count := if Nat.leb c 1 then nan else float_of_nat c in
  let d := if Nat.leb c 1 then nan else float_of_nat (c - 1) in
  let avg := nansum s / count in
  let sqr := map (fun x => if isna x then 0
                           else (avg - x) * (avg - x)) s in
  np_sum sqr / d.

(** [nanops.nanstd]. *)
Definition nanstd (s : series) : float := PrimFloat.sqrt (nanvar s).

(** [nanops.nanprod] with [skipna=True]: NaN entries are overwritten with 1
    before the product. *)
Definition nanprod (s : series) : float :=
  np_prod (map (fun x => if isna x then 1 else x) s).

(** [s.iloc[-1]]: IndexError on an empty series. *)
Definition iloc_last (s : series) : py_result float :=
  match s with
  | [] => Raised "IndexError"
  | x :: t => Returned (last t x)
  end.

(* ===================================================================== *)
(** * 5. numpy argsort (kind='quicksort') and pandas sort_values       *)
(* ===================================================================== *)

(** [DataFrame.sort_values] on one column calls
    [pandas.core.sorting.nargsort], which calls [ndarray.argsort] with the
    default [kind='quicksort']. The model is numpy's scalar introsort
    ([aquicksort] in [npysort/quicksort.cpp]): a median-of-three
    quicksort, an insertion sort on ranges of at most 17 entries, and a
    heapsort once the depth limit is used up. A numpy build that hands
    [argsort] to a vectorised sort for the CPU at hand puts equal keys in
    another order; the order by key is the same wherever the sort is
    correct. *)

(** numpy's order on float64 keys ([npy::double_tag::less]): NaN sorts
    last. *)
Definition np_less (a b : float) : bool :=
  (a <? b) || (isna b && notna a).

Section ArgSort.

(** [lt i j] is [less(v[i], v[j])] for the key array [v] being sorted;
    the array [a] below is numpy's [tosort] array of row numbers. *)
Variable lt : nat -> nat -> bool.

Definition aget (a : list nat) (i : nat) : nat := nth i a 0%nat.

(** [a[i] = x] for [i] inside the array. *)
Fixpoint aset (a : list nat) (i : nat) (x : nat) : list nat :=
  match a, i with
  | [], _ => []
  | _ :: t, O => x :: t
  | h :: t, S i' => h :: aset t i' x
  end.

(** [INTP_SWAP(a[i], a[j])]. *)
Definition swap (a : list nat) (i j : nat) : list nat :=
  aset (aset a i (aget a j)) j (aget a i).

(** [do { ++pi; } while (less(v[*pi], vp));] *)
Fixpoint scan_up (a : list nat) (p : nat) (pi : nat) (fuel : nat) : nat :=
  match fuel with
  | O => S pi
  | S f =>
      if lt (aget a (S pi)) p then scan_up a p (S pi) f else S pi
  end.

(** [do { --pj; } while (less(vp, v[*pj]));] *)
Fixpoint scan_down (a : list nat) (p : nat) (pj : nat) : nat :=
  match pj with
  | O => O
  | S pj' => if lt p (aget a pj') then scan_down a p pj' else pj'
  end.

(** The [for (;;)] loop of the partition. *)
Fixpoint part_loop (a : list nat) (p : nat) (pi pj : nat) (fuel : nat)
  : list nat * nat :=
  let pi' := scan_up a p pi (length a) in
  let pj' := scan_down a p pj in
  if Nat.leb pj' pi' then (a, pi')
  else
    match fuel with
    | O => (a, pi')
    | S f => part_loop (swap a pi' pj') p pi' pj' f
    end.

(** The quicksort partition of [a[pl..pr]]: median of three, the pivot
    parked at [pr - 1], the two scans, the pivot swapped into place. *)
Definition partition (a : list nat) (pl pr : nat) : list nat * nat :=
  let pm := (pl + Nat.div2 (pr - pl))%nat in
  let a := if lt (aget a pm) (aget a pl) then swap a pm pl else a in
  let a := if lt (aget a pr) (aget a pm) then swap a pr pm else a in
  let a := if lt (aget a pm) (aget a pl) then swap a pm pl else a in
  let p := aget a pm in
  let pj := (pr - 1)%nat in
  let a := swap a pm pj in
  let '(a, pi) := part_loop a p pl pj (length a) in
  (swap a pi (pr - 1)%nat, pi).

(** The inner [while] of the insertion sort: [vi] moves down from [pj]
    while the entry below it is larger. *)
Fixpoint shift_down (a : list nat) (vi : nat) (pl pj : nat) : list nat :=
  match pj with
  | O => aset a O vi
  | S pk =>
      if Nat.ltb pl pj && lt vi (aget a pk)
      then shift_down (aset a pj (aget a pk)) vi pl pk
      else aset a pj vi
  end.

(** [for (pi = pl + 1; pi <= pr; ++pi)], with [n] turns left. *)
Fixpoint insert_from (a : list nat) (pl pi : nat) (n : nat) : list nat :=
  match n with
  | O => a
  | S n' => insert_from (shift_down a (aget a pi) pl pi) pl (S pi) n'
  end.

Definition insertion_sort (a : list nat) (pl pr : nat) : list nat :=
  insert_from a pl (S pl) (pr - pl).

(** Heapsort on the [n] entries from [off], numpy's fallback when the
    recursion depth is used up. [hget] / [hset] are the one-based
    accesses [a[k]] of the C code ([a = tosort - 1]). *)
Definition hget (a : list nat) (off k : nat) : nat :=
  aget a (off + k - 1).

Definition hset (a : list nat) (off k : nat) (x : nat) : list nat :=
  aset a (off + k - 1) x.

Fixpoint sift (a : list nat) (off tmp i j n : nat) (fuel : nat)
  : list nat :=
  match fuel with
  | O => hset a off i tmp
  | S f =>
      if Nat.leb j n then
        let j :=
          if Nat.ltb j n && lt (hget a off j) (hget a off (S j))
          then S j else j in
        if lt tmp (hget a off j)
        then sift (hset a off i (hget a off j)) off tmp j (j + j) n f
        else hset a off i tmp
      else hset a off i tmp
  end.

(** [for (l = n >> 1; l > 0; --l)]. *)
Fixpoint heapify (a : list nat) (off n l : nat) : list nat :=
  match l with
  | O => a
  | S l' => heapify (sift a off (hget a off l) l (l + l) n n) off n l'
  end.

(** [for (; n > 1;)]. *)
Fixpoint heap_pop (a : list nat) (off n : nat) : list nat :=
  match n with
  | O => a
  | S n' =>
      match n' with
      | O => a
      | S _ =>
          let tmp := hget a off n in
          let a := hset a off n (hget a off 1) in
          heap_pop (sift a off tmp 1 2 n' n') off n'
      end
  end.

Definition heapsort (a : list nat) (off n : nat) : list nat :=
  heap_pop (heapify a off n (Nat.div2 n)) off n.

(** The main loop of [aquicksort]. A range taken from the stack is first
    checked against the depth limit ([check = true]); the smaller half of
    a partition goes on without that check. Both halves run at depth
    [cdepth - 1]. *)
Fixpoint qs (fuel : nat) (check : bool) (a : list nat) (pl pr : nat)
  (cdepth : Z) : list nat :=
  match fuel with
  | O => a
  | S f =>
      if check && (cdepth <? 0)%Z then heapsort a pl (pr - pl + 1)
      else if Nat.ltb 16 (pr - pl) then
        let '(a, pi) := partition a pl pr in
        if Nat.ltb (pi - pl) (pr - pi) then
          let a := qs f false a pl (pi - 1) (cdepth - 1)%Z in
          qs f true a (pi + 1) pr (cdepth - 1)%Z
        else
          let a := qs f false a (pi + 1) pr (cdepth - 1)%Z in
          qs f true a pl (pi - 1) (cdepth - 1)%Z
      else insertion_sort a pl pr
  end.

(** [npy_get_msb]: the position of the highest set bit. *)
Definition npy_get_msb (num : nat) : Z := Z.log2 (Z.of_nat num).

(** [aquicksort(v, tosort, num)] on [tosort = arange(num)]. *)
Definition aquicksort (num : nat) : list nat :=
  match num with
  | O => []
  | S n => qs (S num) true (seq 0 num) 0 n (npy_get_msb num * 2)%Z
  end.

End ArgSort.

(** [keys.argsort(kind='quicksort')]. *)
Definition np_argsort (keys : series) : list nat :=
  aquicksort (fun i j => np_less (nth i keys nan) (nth j keys nan))
             (length keys).

(** [pandas.core.sorting.nargsort] with [na_position='last']: the NaN keys
    are set aside and appended; for a descending sort the keys are reversed
    before and the result after the ascending argsort. *)
Definition nargsort (items : series) (ascending : bool) : list nat :=
  let idx := seq 0 (length items) in
  let non_nan_idx := filter (fun i => notna (nth i items nan)) idx in
  let nan_idx := filter (fun i => isna (nth i items nan)) idx in
  let non_nan_idx := if ascending then non_nan_idx else rev non_nan_idx in
  let non_nans := map (fun i => nth i items nan) non_nan_idx in
  let order := np_argsort non_nans in
  let indexer := map (fun k => nth k non_nan_idx 0%nat) order in
  let indexer := if ascending then indexer else rev indexer in
  indexer ++ nan_idx.

(** [df.take(indexer)]: the rows in the order of [indexer]. *)
Definition take {A : Type} (rows : list A) (indexer : list nat) : list A :=
  flat_map (fun i => match nth_error rows i with
                     | Some r => [r]
                     | None => []
                     end) indexer.

(** [df.sort_values(key, ascending=...)], with the default
    [kind='quicksort'] and [na_position='last']. *)
Definition sort_values {A : Type} (key : A -> float) (ascending : bool)
  (rows : list A) : list A :=
  take rows (nargsort (map key rows) ascending).

(* ===================================================================== *)
(** * 6. pandas DataFrame.corr: pairwise Pearson correlation           *)
(* ===================================================================== *)

(** [DataFrame.corr()] with its defaults ([method='pearson'],
    [min_periods=1]) is [libalgos.nancorr]. It is written here once over
    the arithmetic of its element type, so that the same code can be run
    on binary64 values and read in exact arithmetic. A pandas release
    that also clips the quotient to [[-1, 1]] differs only where rounding
    takes it outside that interval. *)
Record arith (T : Type) := {
  a_of_nat : nat -> T;
  a_add : T -> T -> T;
  a_sub : T -> T -> T;
  a_mul : T -> T -> T;
  a_div : T -> T -> T;
  a_sqrt : T -> T;
  a_isfinite : T -> bool;
  a_nonzero : T -> bool;
  a_nan : T
}.

(** The binary64 instance: what pandas runs. *)
Definition float_arith : arith float := {|
  a_of_nat := float_of_nat;
  a_add := PrimFloat.add;
  a_sub := PrimFloat.sub;
  a_mul := PrimFloat.mul;
  a_div := PrimFloat.div;
  a_sqrt := PrimFloat.sqrt;
  a_isfinite := np_isfinite;
  a_nonzero := fun x => negb (x =? 0);
  a_nan := nan
|}.

(** The accumulators of Welford's method for one pair of columns. *)
Record welford (T : Type) := {
  w_nobs : nat;
  w_ssqdm_x : T;
  w_ssqdm_y : T;
  w_covxy : T;
  w_meanx : T;
  w_meany : T
}.

Section Nancorr.

Variable T : Type.
Variable A : arith T.

Definition welford_init : welford T :=
  {| w_nobs := 0; w_ssqdm_x := a_of_nat A 0; w_ssqdm_y := a_of_nat A 0;
     w_covxy := a_of_nat A 0; w_meanx := a_of_nat A 0;
     w_meany := a_of_nat A 0 |}.

(** One row [i] of the inner loop: skipped unless both values are
    finite. *)
Definition welford_step (st : welford T) (v : T * T) : welford T :=
  let (vx, vy) := v in
  if a_isfinite A vx && a_isfinite A vy then
    let nobs := S (w_nobs st) in
    let dx := a_sub A vx (w_meanx st) in
    let dy := a_sub A vy (w_meany st) in
    let inv := a_div A (a_of_nat A 1) (a_of_nat A nobs) in
    let meanx := a_add A (w_meanx st) (a_mul A inv dx) in
    let meany := a_add A (w_meany st) (a_mul A inv dy) in
    {| w_nobs := nobs;
       w_ssqdm_x := a_add A (w_ssqdm_x st) (a_mul A (a_sub A vx meanx) dx);
       w_ssqdm_y := a_add A (w_ssqdm_y st) (a_mul A (a_sub A vy meany) dy);
       w_covxy := a_add A (w_covxy st) (a_mul A (a_sub A vx meanx) dy);
       w_meanx := meanx;
       w_meany := meany |}
  else st.

(** The value stored in [result[xi, yi]] and [result[yi, xi]], with
    [minp = 1] and [cov = False]. *)
Definition welford_result (st : welford T) : T :=
  if Nat.ltb (w_nobs st) 1 then a_nan A
  else
    let divisor := a_sqrt A (a_mul A (w_ssqdm_x st) (w_ssqdm_y st)) in
    if a_nonzero A divisor then a_div A (w_covxy st) divisor
    else a_nan A.

Definition nancorr_pair (x y : list T) : T :=
  welford_result (fold_left welford_step (combine x y) welford_init).

(** [for xi in range(K): for yi in range(xi + 1)]: the pair is computed
    once, for the larger column number first, and stored in both
    cells. *)
Definition nancorr_cell (cols : list (list T)) (i j : nat) : T :=
  nancorr_pair (nth (Nat.max i j) cols []) (nth (Nat.min i j) cols []).

Definition nancorr (cols : list (list T)) : list (list T) :=
  let ks := seq 0 (length cols) in
  map (fun i => map (fun j => nancorr_cell cols i j) ks) ks.

End Nancorr.

(** A square labelled table: the result of [DataFrame.corr()]. *)
Record corr_matrix (T : Type) := {
  cm_labels : list string;
  cm_values : list (list T)
}.

(** The cell in row [i], column [j]. *)
Definition cm_cell {T : Type} (A : arith T) (m : corr_matrix T) (i j : nat)
  : T :=
  nth j (nth i (cm_values m) []) (a_nan A).

(** [returns_only.corr()] on named columns. *)
Definition corr {T : Type} (A : arith T) (cols : list (string * list T))
  : corr_matrix T :=
  {| cm_labels := map fst cols;
     cm_values := nancorr A (map snd cols) |}.

(* ===================================================================== *)
(** * 7. analyze_correlations.py                                       *)
(* ===================================================================== *)

(** A row of [average_returns.csv]. *)
Record summary_row := {
  sr_symbol : string;
  sr_avg_daily_return : float;
  sr_std_daily_return : float;
  sr_cumulative_return : float;
  sr_annualized_return : float;
  sr_sharpe_ratio : float
}.

(** A row of [average_correlations.csv]. *)
Record avg_corr_row := {
  ac_symbol : string;
  ac_avg_correlation : float
}.

(** The default of both [threshold] arguments. *)
Definition default_threshold : float := 0x1.3333333333333p-2.

(** Line 78: [(1 + returns_only).prod() - 1] for one column. *)
Definition cumulative_return (col : series) : float :=
  nanprod (map (fun r => 1 + r) col) - 1.

(** Line 85: [avg / std * np.sqrt(365)] for one column. *)
Definition sharpe_ratio (avg std : float) : float :=
  avg / std * PrimFloat.sqrt 365.

Section ReturnStatistics.

(** [numpy.power] on float64: the C library's [pow], which Rocq's floats
    do not provide. *)
Variable np_power : float -> float -> float.

(** Lines 71-95: the row of one column, for the exponent
    [365 / days_count]. *)
Definition summary_of (exponent : float) (c : string * series)
  : summary_row :=
  let (symbol, col) := c in
  let avg := nanmean col in
  let std := nanstd col in
  let cum := cumulative_return col in
  {| sr_symbol := symbol;
     sr_avg_daily_return := avg;
     sr_std_daily_return := std;
     sr_cumulative_return := cum;
     sr_annualized_return := np_power (1 + cum) exponent - 1;
     sr_sharpe_ratio := sharpe_ratio avg std |}.

(** Lines 88-95: [summary_df] before it is sorted. *)
Definition summary_table (returns_df : frame) : list summary_row :=
  map (summary_of (365 / float_of_nat (nrows returns_df)))
      (f_cols returns_df).

(** [calculate_average_changes(returns_df)]: [365 / days_count] is a
    division of Python integers and raises on an empty frame. *)
Definition calculate_average_changes (returns_df : frame)
  : py_result (list summary_row) :=
  if Nat.eqb (nrows returns_df) 0 then Raised "ZeroDivisionError"
  else Returned (sort_values sr_annualized_return false
                   (summary_table returns_df)).

End ReturnStatistics.

(** [create_correlation_matrix(returns_df)]. *)
Definition create_correlation_matrix (returns_df : frame)
  : corr_matrix float :=
  corr float_arith (f_cols returns_df).

(** [corr_matrix[coin].drop(coin)]: the column numbered [j], without the
    rows labelled [coin]. *)
Definition column_without (m : corr_matrix float) (j : nat) (coin : string)
  : series :=
  map snd
    (filter (fun lv => negb (String.eqb (fst lv) coin))
       (combine (cm_labels m) (map (fun row => nth j row nan) (cm_values m)))).

(** Lines 152-163: the average correlation of every coin, in column
    order. *)
Definition average_correlations (m : corr_matrix float)
  : list avg_corr_row :=
  map (fun jc => {| ac_symbol := snd jc;
                    ac_avg_correlation :=
                      nanmean (column_without m (fst jc) (snd jc)) |})
      (combine (seq 0 (length (cm_labels m))) (cm_labels m)).

(** Line 166: [avg_corr_df.sort_values('avg_correlation')]. *)
Definition avg_corr_df (m : corr_matrix float) : list avg_corr_row :=
  sort_values ac_avg_correlation true (average_correlations m).

(** [identify_uncorrelated_coins(corr_matrix, threshold)], line 169. *)
Definition identify_uncorrelated_coins (m : corr_matrix float)
  (threshold : float) : list avg_corr_row :=
  filter (fun r => ac_avg_correlation r <? threshold) (avg_corr_df m).

(* ===================================================================== *)
(** * 8. analyze_price_distance.py                                     *)
(* ===================================================================== *)

(** [market_average_returns.csv]. *)
Record market_frame := {
  mf_date : list timestamp;
  mf_market_avg_return : series
}.

(** A row of [price_distance.csv]. *)
Record distance_row := {
  dr_symbol : string;
  dr_cumulative_return : float;
  dr_price_distance : float;
  dr_market_return : float;
  dr_relative_distance : float
}.

(** The values of row [i] across the asset columns. *)
Definition row_values (cols : list (string * series)) (i : nat) : series :=
  map (fun c => nth i (snd c) nan) cols.

(** [calculate_market_average(returns_df)]: [mean(axis=1)]. *)
Definition calculate_market_average (returns_df : frame) : market_frame :=
  {| mf_date := f_date returns_df;
     mf_market_avg_return :=
       map (fun i => nanmean (row_values (f_cols returns_df) i))
           (seq 0 (nrows returns_df)) |}.

(** Lines 107 and 114: [(1 + s.fillna(0)).cumprod() - 1]. *)
Definition cumulative_series (s : series) : series :=
  map (fun c => c - 1) (cumprod (map (fun r => 1 + r) (fillna 0 s))).

(** What [calculate_price_distance] returns. *)
Record distance_result := {
  res_distance_df : list distance_row;
  res_out_of_threshold : list distance_row;
  res_cum_returns_df : frame;
  res_market_cum_return : series
}.

(** Lines 121-135: the row of one coin. *)
Definition distance_of (final_market_return : float)
  (c : string * float) : distance_row :=
  let (symbol, final_cum) := c in
  let distance := PrimFloat.abs (final_cum - final_market_return) in
  {| dr_symbol := symbol;
     dr_cumulative_return := final_cum;
     dr_price_distance := distance;
     dr_market_return := final_market_return;
     dr_relative_distance := distance / PrimFloat.abs final_market_return |}.

(** Line 117: [cum_returns_df.iloc[-1]], one value per coin. *)
Fixpoint final_values (cols : list (string * series))
  : py_result (list (string * float)) :=
  match cols with
  | [] => Returned []
  | (symbol, s) :: t =>
      match iloc_last s, final_values t with
      | Returned x, Returned r => Returned ((symbol, x) :: r)
      | Raised e, _ => Raised e
      | _, Raised e => Raised e
      end
  end.

(** [calculate_price_distance(returns_df, market_avg_df, threshold)]. *)
Definition calculate_price_distance (returns_df : frame)
  (market_avg_df : market_frame) (threshold : float)
  : py_result distance_result :=
  let cum_cols :=
    map (fun c => (fst c, cumulative_series (snd c))) (f_cols returns_df) in
  let cum_returns_df :=
    {| f_date := f_date returns_df; f_cols := cum_cols |} in
  let market_cum_return :=
    cumulative_series (mf_market_avg_return market_avg_df) in
  if Nat.eqb (nrows returns_df) 0 then Raised "IndexError"
  else
    match final_values cum_cols, iloc_last market_cum_return with
    | Returned finals, Returned final_market_return =>
        let distance_df :=
          sort_values dr_price_distance false
            (map (distance_of final_market_return) finals) in
        Returned
          {| res_distance_df := distance_df;
             res_out_of_threshold :=
               filter (fun r => threshold <? dr_price_distance r)
                      distance_df;
             res_cum_returns_df := cum_returns_df;
             res_market_cum_return := market_cum_return |}
    | Raised e, _ => Raised e
    | _, Raised e => Raised e
    end.

(** An entry of [comparison_data['coins']]. *)
Record coin_entry := {
  ce_name : string;
  ce_data : series;
  ce_cumulative_return : float;
  ce_price_distance : float;
  ce_relative_distance : float
}.

(** [comparison_data.json]. *)
Record comparison := {
  cd_dates : list string;
  cd_market_avg : series;
  cd_coins : list (string * coin_entry)
}.

(** [d[key] = value] on a dict kept in insertion order. *)
Fixpoint dict_set {V : Type} (key : string) (v : V)
  (d : list (string * V)) : list (string * V) :=
  match d with
  | [] => [(key, v)]
  | (k, v') :: t =>
      if String.eqb k key then (k, v) :: t else (k, v') :: dict_set key v t
  end.

Section Presentation.

(** [Timestamp.strftime('%Y-%m-%d')]. *)
Variable strftime : timestamp -> string.

(** Lines 186-194: the loop over [out_of_threshold.iterrows()]. *)
Fixpoint add_coins (cum_returns_df : frame)
  (rows : list distance_row) (coins : list (string * coin_entry))
  : py_result (list (string * coin_entry)) :=
  match rows with
  | [] => Returned coins
  | row :: rest =>
      let symbol := dr_symbol row in
      match get_col symbol (f_cols cum_returns_df) with
      | None => Raised "KeyError"
      | Some data =>
          add_coins cum_returns_df rest
            (dict_set symbol
               {| ce_name := symbol;
                  ce_data := data;
                  ce_cumulative_return := dr_cumulative_return row;
                  ce_price_distance := dr_price_distance row;
                  ce_relative_distance := dr_relative_distance row |}
               coins)
      end
  end.

(** [generate_comparison_data(cum_returns_df, market_cum_return,
    out_of_threshold)]. *)
Definition generate_comparison_data (cum_returns_df : frame)
  (market_cum_return : series) (out_of_threshold : list distance_row)
  : py_result comparison :=
  match add_coins cum_returns_df out_of_threshold [] with
  | Raised e => Raised e
  | Returned coins =>
      Returned {| cd_dates := map strftime (f_date cum_returns_df);
                  cd_market_avg := market_cum_return;
                  cd_coins := coins |}
  end.

End Presentation.

(* ===================================================================== *)
(** * 9. The scripts and the pipeline driver (main.py)                 *)
(* ===================================================================== *)

(** The artifacts the core persists: [historical_data/] and
    [analysis_results/]. [None] is a file that does not exist. *)
Record disk := {
  combined_prices_csv : option frame;
  combined_returns_csv : option frame;
  average_returns_csv : option (list summary_row);
  correlation_matrix_csv : option (corr_matrix float);
  average_correlations_csv : option (list avg_corr_row);
  uncorrelated_coins_csv : option (list avg_corr_row);
  market_average_returns_csv : option market_frame;
  price_distance_csv : option (list distance_row);
  out_of_threshold_coins_csv : option (list distance_row);
  comparison_data_json : option comparison
}.

Definition empty_disk : disk := {|
  combined_prices_csv := None;
  combined_returns_csv := None;
  average_returns_csv := None;
  correlation_matrix_csv := None;
  average_correlations_csv := None;
  uncorrelated_coins_csv := None;
  market_average_returns_csv := None;
  price_distance_csv := None;
  out_of_threshold_coins_csv := None;
  comparison_data_json := None
|}.

(** The exit status of a script: 0, or non-zero after an uncaught
    exception. *)
Inductive exit_status := ExitOk | ExitError.

(** What running a function or a script leaves behind. *)
Record outcome (A : Type) := {
  o_value : A;
  o_disk : disk;
  o_log : list log_record
}.

(** [save_combined_data(historical_data)], lines 266-303. On an empty
    mapping it logs an error and returns; the function has no other exit
    and returns [None] either way. *)
Definition save_combined_data (historical_data : historical) (d : disk)
  : outcome (py_result unit) :=
  match historical_data with
  | [] =>
      {| o_value := Returned tt;
         o_disk := d;
         o_log := [(INFO, "Creating combined price dataset for correlation analysis...");
                   (ERROR, "No historical data available to combine")] |}
  | first :: _ =>
      {| o_value := Returned tt;
         o_disk :=
           {| combined_prices_csv :=
                Some (combined_prices first historical_data);
              combined_returns_csv :=
                Some (combined_returns first historical_data);
              average_returns_csv := average_returns_csv d;
              correlation_matrix_csv := correlation_matrix_csv d;
              average_correlations_csv := average_correlations_csv d;
              uncorrelated_coins_csv := uncorrelated_coins_csv d;
              market_average_returns_csv := market_average_returns_csv d;
              price_distance_csv := price_distance_csv d;
              out_of_threshold_coins_csv := out_of_threshold_coins_csv d;
              comparison_data_json := comparison_data_json d |};
         o_log := [(INFO, "Creating combined price dataset for correlation analysis...");
                   (INFO, "Successfully saved combined price data");
                   (INFO, "Successfully saved combined daily returns")] |}
  end.

(** [download_historical_data.py] run as a script, lines 305-328.
    [coins] is what [load_top_coins()] found and [historical_data] what
    the download returned. No branch ends the process with an error
    status. *)
Definition download_historical_data_script (coins : bool)
  (historical_data : historical) (d : disk) : outcome exit_status :=
  if coins then
    match historical_data with
    | _ :: _ =>
        let r := save_combined_data historical_data d in
        {| o_value := ExitOk;
           o_disk := o_disk r;
           o_log := o_log r ++ [(INFO, "Historical data download completed")] |}
    | [] =>
        {| o_value := ExitOk;
           o_disk := d;
           o_log := [(ERROR, "Failed to download historical data. Exiting.")] |}
    end
  else
    {| o_value := ExitOk;
       o_disk := d;
       o_log := [(ERROR, "Failed to load top coins data. Exiting.")] |}.

(** [load_combined_data()]: both files, or [(None, None)] when one is
    missing. *)
Definition load_combined_data (d : disk) : option (frame * frame) :=
  match combined_prices_csv d, combined_returns_csv d with
  | Some price_df, Some returns_df => Some (price_df, returns_df)
  | _, _ => None
  end.

Section Pipeline.

Variable np_power : float -> float -> float.
Variable strftime : timestamp -> string.

(** [analyze_correlations.py] run as a script, lines 192-210: the
    ReturnStatistics, CorrelationEngine and low-correlation
    OutlierSelector stages. *)
Definition analyze_correlations_script (d : disk) : outcome exit_status :=
  match load_combined_data d with
  | None =>
      {| o_value := ExitOk;
         o_disk := d;
         o_log := [(ERROR, "Failed to load combined data. Make sure to run download_historical_data.py first.")] |}
  | Some (_, returns_df) =>
      match calculate_average_changes np_power returns_df with
      | Raised _ =>
          {| o_value := ExitError; o_disk := d; o_log := [] |}
      | Returned summary_df =>
          let m := create_correlation_matrix returns_df in
          {| o_value := ExitOk;
             o_disk :=
               {| combined_prices_csv := combined_prices_csv d;
                  combined_returns_csv := combined_returns_csv d;
                  average_returns_csv := Some summary_df;
                  correlation_matrix_csv := Some m;
                  average_correlations_csv := Some (avg_corr_df m);
                  uncorrelated_coins_csv :=
                    Some (identify_uncorrelated_coins m default_threshold);
                  market_average_returns_csv :=
                    market_average_returns_csv d;
                  price_distance_csv := price_distance_csv d;
                  out_of_threshold_coins_csv :=
                    out_of_threshold_coins_csv d;
                  comparison_data_json := comparison_data_json d |};
             o_log := [(INFO, "Analysis completed successfully")] |}
      end
  end.

(** [analyze_price_distance.py] run as a script, lines 204-226: the
    MarketDivergenceEngine and high-divergence OutlierSelector stages. *)
Definition analyze_price_distance_script (d : disk) : outcome exit_status :=
  match load_combined_data d with
  | None =>
      {| o_value := ExitOk;
         o_disk := d;
         o_log := [(ERROR, "Failed to load combined data. Make sure to run download_historical_data.py first.")] |}
  | Some (_, returns_df) =>
      let market_avg_df := calculate_market_average returns_df in
      let d1 :=
        {| combined_prices_csv := combined_prices_csv d;
           combined_returns_csv := combined_returns_csv d;
           average_returns_csv := average_returns_csv d;
           correlation_matrix_csv := correlation_matrix_csv d;
           average_correlations_csv := average_correlations_csv d;
           uncorrelated_coins_csv := uncorrelated_coins_csv d;
           market_average_returns_csv := Some market_avg_df;
           price_distance_csv := price_distance_csv d;
           out_of_threshold_coins_csv := out_of_threshold_coins_csv d;
           comparison_data_json := comparison_data_json d |} in
      match calculate_price_distance returns_df market_avg_df
              default_threshold with
      | Raised _ => {| o_value := ExitError; o_disk := d1; o_log := [] |}
      | Returned r =>
          let d2 :=
            {| combined_prices_csv := combined_prices_csv d1;
               combined_returns_csv := combined_returns_csv d1;
               average_returns_csv := average_returns_csv d1;
               correlation_matrix_csv := correlation_matrix_csv d1;
               average_correlations_csv := average_correlations_csv d1;
               uncorrelated_coins_csv := uncorrelated_coins_csv d1;
               market_average_returns_csv := market_average_returns_csv d1;
               price_distance_csv := Some (res_distance_df r);
               out_of_threshold_coins_csv := Some (res_out_of_threshold r);
               comparison_data_json := comparison_data_json d1 |} in
          match generate_comparison_data strftime (res_cum_returns_df r)
                  (res_market_cum_return r) (res_out_of_threshold r) with
          | Raised _ =>
              {| o_value := ExitError; o_disk := d2; o_log := [] |}
          | Returned payload =>
              {| o_value := ExitOk;
                 o_disk :=
                   {| combined_prices_csv := combined_prices_csv d2;
                      combined_returns_csv := combined_returns_csv d2;
                      average_returns_csv := average_returns_csv d2;
                      correlation_matrix_csv := correlation_matrix_csv d2;
                      average_correlations_csv :=
                        average_correlations_csv d2;
                      uncorrelated_coins_csv := uncorrelated_coins_csv d2;
                      market_average_returns_csv :=
                        market_average_returns_csv d2;
                      price_distance_csv := price_distance_csv d2;
                      out_of_threshold_coins_csv :=
                        out_of_threshold_coins_csv d2;
                      comparison_data_json := Some payload |};
                 o_log := [(INFO, "Price distance analysis completed successfully")] |}
          end
      end
  end.

(** [run_script(script_name)] of main.py: [subprocess.run(..., check=True)]
    fails on a non-zero exit status only. *)
Definition run_script (r : outcome exit_status) : bool :=
  match o_value r with ExitOk => true | ExitError => false end.

(** The scripts [main()] went through, in order. *)
Inductive script :=
| FetchTopCoins
| DownloadHistoricalData
| AnalyzeCorrelations
| AnalyzePriceDistance
| CreateWebVisualization.

(** What a pipeline run leaves behind. *)
Record pipeline_run := {
  p_started : list script;
  p_disk : disk;
  p_completed : bool
}.

(** [main()] of main.py, lines 50-81. [fetch] is whether
    [fetch_top_coins.py] exits with status 0 (it then leaves
    [top_coins.json] behind), [historical_data] what the download
    returns, [web] whether [create_web_visualization.py] exits with
    status 0. *)
Definition main (fetch : bool) (historical_data : historical)
  (web : bool) (d : disk) : pipeline_run :=
  if negb fetch then
    {| p_started := [FetchTopCoins]; p_disk := d; p_completed := false |}
  else
    let r2 := download_historical_data_script true historical_data d in
    if negb (run_script r2) then
      {| p_started := [FetchTopCoins; DownloadHistoricalData];
         p_disk := o_disk r2; p_completed := false |}
    else
      let r3 := analyze_correlations_script (o_disk r2) in
      if negb (run_script r3) then
        {| p_started := [FetchTopCoins; DownloadHistoricalData;
                         AnalyzeCorrelations];
           p_disk := o_disk r3; p_completed := false |}
      else
        let r4 := analyze_price_distance_script (o_disk r3) in
        if negb (run_script r4) then
          {| p_started := [FetchTopCoins; DownloadHistoricalData;
                           AnalyzeCorrelations; AnalyzePriceDistance];
             p_disk := o_disk r4; p_completed := false |}
        else
          {| p_started := [FetchTopCoins; DownloadHistoricalData;
                           AnalyzeCorrelations; AnalyzePriceDistance;
                           CreateWebVisualization];
             p_disk := o_disk r4; p_completed := web |}.

End Pipeline.

(* ===================================================================== *)
(** * 10. Exact arithmetic, for the algebra of the correlation         *)
(* ===================================================================== *)







(* ===================================================================== *)
(** * 11. Scenario data                                                *)
(* ===================================================================== *)

(** [Series.pct_change()] on prices without gaps: NaN for the first row,
    [price[i] / price[i-1] - 1] after it. *)
Fixpoint pct_change_from (prev : float) (s : series) : series :=
  match s with
  | [] => []
  | x :: t => (x / prev - 1) :: pct_change_from x t
  end.

Definition pct_change (s : series) : series :=
  match s with
  | [] => []
  | x :: t => nan :: pct_change_from x t
  end.

(** Lines 177-198: the DataFrame the download builds from a price list. *)
Definition downloaded_frame (dates : list timestamp) (prices : series)
  : asset_frame :=
  {| af_date := dates;
     af_price := prices;
     af_volume := None;
     af_market_cap := None;
     af_daily_return := Some (pct_change prices) |}.

(** A frame read back from a CSV file that has no [daily_return]
    column. *)
Definition frame_without_returns (dates : list timestamp) (prices : series)
  : asset_frame :=
  {| af_date := dates;
     af_price := prices;
     af_volume := None;
     af_market_cap := None;
     af_daily_return := None |}.

Definition five_days : list timestamp :=
  [1700000000000; 1700086400000; 1700172800000; 1700259200000;
   1700345600000]%Z.

Definition four_days : list timestamp :=
  [1700000000000; 1700086400000; 1700172800000; 1700259200000]%Z.

Definition asset_A := downloaded_frame five_days [100; 101; 102; 103; 104].
Definition asset_B := downloaded_frame five_days [50; 49; 48; 47; 46].
Definition asset_C := downloaded_frame five_days [10; 10; 10; 10; 10].
Definition asset_D := downloaded_frame four_days [7; 8; 9; 10].

(** Three full-length assets and one that is a day short. *)
Definition basket : historical :=
  [("A", asset_A); ("B", asset_B); ("C", asset_C); ("D", asset_D)].

(** The aligned matrices of [basket]. *)
Definition basket_prices : frame := combined_prices ("A", asset_A) basket.
Definition basket_returns : frame := combined_returns ("A", asset_A) basket.

(** An earlier run left the aligned matrices of [basket] behind. *)
Definition stale_disk : disk := {|
  combined_prices_csv := Some basket_prices;
  combined_returns_csv := Some basket_returns;
  average_returns_csv := None;
  correlation_matrix_csv := None;
  average_correlations_csv := None;
  uncorrelated_coins_csv := None;
  market_average_returns_csv := None;
  price_distance_csv := None;
  out_of_threshold_coins_csv := None;
  comparison_data_json := None
|}.

(** A basket with an asset that doubles while the others hardly move. *)
Definition asset_E := downloaded_frame five_days [10; 12; 15; 18; 20].

Definition divergent_basket : historical :=
  [("A", asset_A); ("B", asset_B); ("E", asset_E)].

Definition divergent_returns : frame :=
  combined_returns ("A", asset_A) divergent_basket.

(** An asset that doubles every day: its returns are all 1. *)
Definition asset_F := downloaded_frame four_days [1; 2; 4; 8].

Definition doubling_returns : frame :=
  combined_returns ("F", asset_F) [("F", asset_F)].

(** Two assets whose returns cancel every day. *)
Definition asset_G := downloaded_frame four_days [2; 3; 3; 3].
Definition asset_H := downloaded_frame four_days [2; 1; 1; 1].

Definition cancelling_returns : frame :=
  combined_returns ("G", asset_G) [("G", asset_G); ("H", asset_H)].

(** Eighteen assets with the same flat prices, so the same annualized
    return. *)
Definition eighteen_symbols : list string :=
  ["C01"; "C02"; "C03"; "C04"; "C05"; "C06"; "C07"; "C08"; "C09";
   "C10"; "C11"; "C12"; "C13"; "C14"; "C15"; "C16"; "C17"; "C18"].

Definition eighteen_flat : historical :=
  map (fun s => (s, asset_C)) eighteen_symbols.

Definition eighteen_flat_returns : frame :=
  combined_returns ("C01", asset_C) eighteen_flat.


(** [pow(1, y)] is 1 for every [y]: on a base of 1 the power function
    agrees with the first projection. *)
Definition power_of_one (x _ : float) : float := x.

(** Two assets over two days, the second without a return on day 2. *)
Definition two_asset_returns : frame :=
  {| f_date := [1700000000000; 1700086400000]%Z;
     f_cols := [("X", [0.1; 0.2]%float); ("Y", [0; nan]%float)] |}.

(* ===================================================================== *)
(** * 12. The claims of the specification, as they are worded          *)
(* ===================================================================== *)

(** C9 as worded: the reference asset is in both aligned matrices, so
    neither is without an asset column. *)
Definition reference_asset_in_both (hd : historical) : Prop :=
  match hd with
  | [] => True
  | first :: _ =>
      get_col (fst first) (f_cols (combined_prices first hd)) <> None /\
      get_col (fst first) (f_cols (combined_returns first hd)) <> None /\
      f_cols (combined_prices first hd) <> [] /\
      f_cols (combined_returns first hd) <> []
  end.

(** C7 as worded: on an empty mapping the aligner fails with an error its
    caller sees, and the pipeline starts no analysis script. *)
Definition empty_mapping_is_fatal : Prop :=
  (forall d, exists e, o_value (save_combined_data [] d) = Raised e) /\
  (forall np_power strftime web d,
     let run := main np_power strftime true [] web d in
     ~ In AnalyzeCorrelations (p_started run) /\
     ~ In AnalyzePriceDistance (p_started run)).

(** C3 as worded: the product of [(1 + r_i)], a missing [r_i] taken as 0,
    minus one. *)
Definition compounded_return (rs : series) : float :=
  (np_prod (map (fun r => 1 + r) (fillna 0 rs)) - 1)%float.

(** Equality of binary64 values as Python's [==] sees it, NaN taken as
    equal to itself: the two values are the same, or they are zeros that
    differ in sign only. *)
Definition feq (a b : float) : Prop :=
  a = b \/ (a =? b)%float = true.

(** C4 as worded: the arithmetic mean over the present values only. *)
Definition mean_of_present (xs : series) : float :=
  let present := filter notna xs in
  (np_sum present / float_of_nat (length present))%float.







Local Close Scope float_scope.

(* ===================================================================== *)
(** * 13. Notions the statements and proofs are written with           *)
(* ===================================================================== *)

(** Two zeros, of any signs. *)
Definition both_zero (a b : float) : Prop :=
  exists s s', Prim2SF a = S754_zero s /\ Prim2SF b = S754_zero s'.

(** ** Arrays of row numbers *)

(** [arr_step pl pr a a']: [a'] rearranges the entries of [a] and leaves
    every cell outside [pl..pr] as it was. *)
Definition arr_step (pl pr : nat) (a a' : list nat) : Prop :=
  Permutation a' a /\
  forall k, k < pl \/ pr < k -> aget a' k = aget a k.

(** The part of an array between two cells. *)
Definition slice (a : list nat) (pl pr : nat) : list nat :=
  firstn (S pr - pl) (skipn pl a).

(** The order of the keys, seen on row numbers: [lt] is a strict weak
    order. *)
Definition strict_weak_order (lt : nat -> nat -> bool) : Prop :=
  (forall x, lt x x = false) /\
  (forall x y z, lt x y = true -> lt y z = true -> lt x z = true) /\
  (forall x y z, lt x y = false -> lt y z = false -> lt x z = false).

(** [le lt x y]: the key of [x] is not above the key of [y]. *)
Definition le (lt : nat -> nat -> bool) (x y : nat) : Prop := lt y x = false.

(** The cells [l .. h - 1] are in order. *)
Definition sorted_range (lt : nat -> nat -> bool) (a : list nat)
  (l h : nat) : Prop :=
  forall i j, l <= i -> i <= j -> j < h -> le lt (aget a i) (aget a j).

(** What holds each time the partition loop is entered. *)
Definition part_inv (lt : nat -> nat -> bool) (a : list nat)
  (p pl pr pi pj : nat) : Prop :=
  pl <= pi /\ pi < pj /\ S pj <= pr /\ pr < length a /\
  aget a (pr - 1) = p /\
  (forall k, pl <= k <= pi -> le lt (aget a k) p) /\
  (forall k, pj <= k <= pr -> le lt p (aget a k)).

(** The heap order on the one-based cells [lo .. n] of the range that
    starts at [off]: no child is above its parent. *)
Definition heap_at (lt : nat -> nat -> bool) (a : list nat)
  (off n k : nat) : Prop :=
  (2 * k <= n -> le lt (hget a off (2 * k)) (hget a off k)) /\
  (2 * k + 1 <= n -> le lt (hget a off (2 * k + 1)) (hget a off k)).

Definition heap_from (lt : nat -> nat -> bool) (a : list nat)
  (off lo n : nat) : Prop :=
  forall k, lo <= k -> heap_at lt a off n k.

(** The heap order everywhere but at cell [i], whose children are still
    under the parent of [i]. *)
Definition heap_but (lt : nat -> nat -> bool) (a : list nat)
  (off lo n i : nat) : Prop :=
  (forall k, lo <= k -> k <> i -> heap_at lt a off n k) /\
  (forall q, lo <= q -> i = 2 * q \/ i = 2 * q + 1 ->
     (2 * i <= n -> le lt (hget a off (2 * i)) (hget a off q)) /\
     (2 * i + 1 <= n -> le lt (hget a off (2 * i + 1)) (hget a off q))).


(** ** The order of the keys *)

(** The place of a value in numpy's order, NaN last: three integers
    compared from the left. *)
Definition sf_rank (x : spec_float) : Z * Z * Z :=
  match x with
  | S754_nan => (3, 0, 0)
  | S754_infinity false => (2, 0, 0)
  | S754_infinity true => (-2, 0, 0)
  | S754_zero _ => (0, 0, 0)
  | S754_finite false m e => (1, e, Zpos m)
  | S754_finite true m e => (-1, - e, Zneg m)
  end%Z.

Definition rank_lt (r s : Z * Z * Z) : Prop :=
  let '(a, b, c) := r in
  let '(a', b', c') := s in
  (a < a' \/ (a = a' /\ (b < b' \/ (b = b' /\ c < c'))))%Z.

(** The non-NaN row numbers as [nargsort] hands them to [argsort]. *)
Definition presented (items : series) (ascending : bool) : list nat :=
  if ascending
  then filter (fun i => notna (nth i items nan)) (seq 0 (length items))
  else rev (filter (fun i => notna (nth i items nan))
              (seq 0 (length items))).

(** The non-NaN part of the result of [nargsort], before the last
    reversal. *)
Definition sorted_part (items : series) (ascending : bool) : list nat :=
  map (fun k => nth k (presented items ascending) 0)
      (np_argsort (map (fun i => nth i items nan)
                       (presented items ascending))).


(** ** Sums in exact arithmetic *)







(* ===================================================================== *)
(** * 14. More of the scripts: what the loops store                    *)
(* ===================================================================== *)

(** Lines 188-194 of analyze_price_distance.py: the entry the loop of
    [generate_comparison_data] stores for a row, [None] where
    [cum_returns_df[symbol]] raises KeyError. *)
Definition entry_of (cum_returns_df : frame) (row : distance_row)
  : option (string * coin_entry) :=
  match get_col (dr_symbol row) (f_cols cum_returns_df) with
  | None => None
  | Some data =>
      Some (dr_symbol row,
            {| ce_name := dr_symbol row;
               ce_data := data;
               ce_cumulative_return := dr_cumulative_return row;
               ce_price_distance := dr_price_distance row;
               ce_relative_distance := dr_relative_distance row |})
  end.

(** Lines 285-287 of download_historical_data.py: the column one turn of
    the price loop of [save_combined_data] adds for an asset not met
    before. *)
Definition price_column (ref_len : nat) (item : string * asset_frame)
  : list (string * series) :=
  if Nat.eqb (af_len (snd item)) ref_len
  then [(fst item, af_price (snd item))] else [].

(** Lines 297-299: the same for the return loop. *)
Definition return_column (ref_len : nat) (item : string * asset_frame)
  : list (string * series) :=
  match af_daily_return (snd item) with
  | Some r =>
      if Nat.eqb (af_len (snd item)) ref_len then [(fst item, r)] else []
  | None => []
  end.

(** A frame read from a CSV file that has its header and no row. *)
Definition header_only_frame : asset_frame :=
  {| af_date := [];
     af_price := [];
     af_volume := Some [];
     af_market_cap := Some [];
     af_daily_return := Some [] |}.

(* ===================================================================== *)
(** * 15. get_with_retry: requests with exponential back-off           *)
(* ===================================================================== *)

(** Lines 32-36 of download_historical_data.py. *)
Definition MAX_RETRIES : Z := 5.
Definition INITIAL_RETRY_DELAY : Z := 10.
Definition MAX_RETRY_DELAY : float := 120%float.

(** What [requests.get] gives: a response, with its status code and the
    value its body parses to as JSON ([None] where [response.json()]
    raises), or a raised [RequestException] (no connection, timeout,
    ...). *)
Inductive http_result (J : Type) :=
| Response (status_code : Z) (json : option J)
| RequestException.
Arguments Response {J} status_code json.
Arguments RequestException {J}.

(** A Python [int] as a [float], as [delay * jitter] converts it: rounded
    to nearest even, OverflowError where no finite float is near. *)
Definition py_float_of_int (z : Z) : py_result float :=
  if ((0 <=? z) && (z <? 2 ^ 63))%Z
  then Returned (PrimFloat.of_uint63 (Uint63.of_Z z))
  else
    let f := SF2Prim (binary_normalize prec emax z 0 false) in
    if PrimFloat.is_infinity f then Raised "OverflowError" else Returned f.

(** [min(x, MAX_RETRY_DELAY)]: the builtin keeps its first argument
    unless the second is less. *)
Definition py_min_cap (x : float) : float :=
  if (MAX_RETRY_DELAY <? x)%float then MAX_RETRY_DELAY else x.

(** [time.sleep(secs)]: ValueError for NaN and for a negative length. *)
Definition time_sleep (secs : float) : py_result float :=
  if isna secs || (secs <? 0)%float then Raised "ValueError"
  else Returned secs.

(** Lines 81-85 and 101-105: the wait before the next try. *)
Definition back_off (delay : Z) (jitter : float) : py_result float :=
  match py_float_of_int delay with
  | Raised e => Raised e
  | Returned d => time_sleep (py_min_cap (d * jitter)%float)
  end.

(** [response.raise_for_status()] raises for the codes 400 to 599. *)
Definition raises_for_status (status_code : Z) : bool :=
  ((400 <=? status_code) && (status_code <? 600))%Z.

(** A run of [get_with_retry]: what it returns or raises, the number of
    requests it made and the waits it slept, in order. *)
Record retry_run (J : Type) := {
  rr_value : py_result J;
  rr_requests : nat;
  rr_sleeps : list float
}.

Section GetWithRetry.

(** The parsed JSON values, with Python's [None] among them. *)
Variable J : Type.
Variable py_none : J.

(** Whether the error of [response.json()] is a [RequestException], as
    it is from requests 2.27 on; the project asks for requests >= 2.25. *)
Variable json_error_is_request_exception : bool.

(** The values [random.uniform(0.8, 1.2)] gives, in the order drawn. *)
Variable jitter : nat -> float.

Variable max_retries : Z.

(** Lines 68-110: the [while] loop, over the results the requests get in
    the order they are made; [None] when the loop would go on to a
    request the list has no result for. *)
Fixpoint retry_loop (responses : list (http_result J))
  (retry_count delay : Z) (requests : nat) (sleeps : list float)
  : option (retry_run J) :=
  if (retry_count <=? max_retries)%Z then
    match responses with
    | [] => None
    | r :: rest =>
        let rate_limited :=
          match back_off delay (jitter (length sleeps)) with
          | Raised e =>
              Some {| rr_value := Raised e;
                      rr_requests := S requests;
                      rr_sleeps := sleeps |}
          | Returned t =>
              retry_loop rest (retry_count + 1) (delay * 2) (S requests)
                         (sleeps ++ [t])
          end in
        let request_exception :=
          if (max_retries <? retry_count + 1)%Z
          then Some {| rr_value := Returned py_none;
                       rr_requests := S requests;
                       rr_sleeps := sleeps |}
          else rate_limited in
        match r with
        | RequestException => request_exception
        | Response status_code json =>
            if (status_code =? 200)%Z then
              match json with
              | Some data =>
                  Some {| rr_value := Returned data;
                          rr_requests := S requests;
                          rr_sleeps := sleeps |}
              | None =>
                  if json_error_is_request_exception
                  then request_exception
                  else Some {| rr_value := Raised "JSONDecodeError";
                               rr_requests := S requests;
                               rr_sleeps := sleeps |}
              end
            else if (status_code =? 429)%Z then rate_limited
            else if raises_for_status status_code then request_exception
            else retry_loop rest retry_count delay (S requests) sleeps
        end
    end
  else Some {| rr_value := Returned py_none;
               rr_requests := requests;
               rr_sleeps := sleeps |}.

(** [get_with_retry(url, params, max_retries, initial_delay)]. *)
Definition get_with_retry (responses : list (http_result J))
  (initial_delay : Z) : option (retry_run J) :=
  retry_loop responses 0 initial_delay 0 [].

(** The results that cost a retry: status 429. *)
Definition is_rate_limited (r : http_result J) : bool :=
  match r with
  | Response status_code _ => (status_code =? 429)%Z
  | RequestException => false
  end.

(** The results handled by the [except] branch whatever the version of
    requests: a raised request, or an error status other than 429. *)
Definition is_request_error (r : http_result J) : bool :=
  match r with
  | Response status_code _ =>
      negb (status_code =? 200)%Z && negb (status_code =? 429)%Z
      && raises_for_status status_code
  | RequestException => true
  end.

(** The results the loop passes over: a status that is neither 200 nor
    429 nor an error, such as 204 or 304. *)
Definition is_passed_over (r : http_result J) : bool :=
  match r with
  | Response status_code _ =>
      negb (status_code =? 200)%Z && negb (status_code =? 429)%Z
      && negb (raises_for_status status_code)
  | RequestException => false
  end.

End GetWithRetry.

(** A run with [k] more requests made before it. *)
Definition after_requests {J : Type} (k : nat) (run : retry_run J)
  : retry_run J :=
  {| rr_value := rr_value run;
     rr_requests := k + rr_requests run;
     rr_sleeps := rr_sleeps run |}.

(** A wait the back-off may sleep: from 0 to [MAX_RETRY_DELAY] seconds. *)
Definition is_bounded_wait (t : float) : bool :=
  ((0 <=? t) && (t <=? MAX_RETRY_DELAY))%float.

(** A jitter as [random.uniform] gives between positive bounds: positive
    and finite. *)
Definition is_positive_finite (x : float) : bool :=
  ((0 <? x) && (x <? infinity))%float.

(** The delay after [k] doublings. *)
Definition delay_after (initial_delay : Z) (k : nat) : Z :=
  initial_delay * 2 ^ Z.of_nat k.

(** The wait before retry [k + 1], while the delay is below [2 ^ 63]:
    the initial delay doubled [k] times, times the jitter drawn for it,
    capped. *)
Definition nth_wait (initial_delay : Z) (jitter : nat -> float) (k : nat)
  : float :=
  py_min_cap (PrimFloat.of_uint63
                (Uint63.of_Z (delay_after initial_delay k))
              * jitter k)%float.

(** The first [k] waits. *)
Definition waits (initial_delay : Z) (jitter : nat -> float) (k : nat)
  : list float :=
  map (nth_wait initial_delay jitter) (seq 0 k).

(** A binary64 value of positive sign: a zero, a finite number or an
    infinity. *)
Definition sf_plus (x : spec_float) : Prop :=
  match x with
  | S754_zero false | S754_infinity false | S754_finite false _ _ => True
  | _ => False
  end.

(* ===================================================================== *)
(** * 16. Daily returns: Series.pct_change                             *)
(* ===================================================================== *)

Local Open Scope float_scope.

(** [Series.ffill()]: a missing value takes the last valid value before
    it, and stays missing when there is none. *)
Fixpoint ffill_from (last : float) (s : series) : series :=
  match s with
  | [] => []
  | x :: t => let v := if isna x then last else x in v :: ffill_from v t
  end.

Definition ffill (s : series) : series := ffill_from nan s.

(** [Series.shift(1)]: every value one row down, NaN in the first row. *)
Definition shift (s : series) : series :=
  match s with
  | [] => []
  | _ :: _ => nan :: removelast s
  end.

(** [Series.pct_change()], lines 198 and 254 of
    download_historical_data.py: [data / data.shift(1) - 1], where [data]
    is the series forward-filled ([pad], the default up to pandas 2) or
    the series itself (pandas 3). *)
Definition series_pct_change (pad : bool) (s : series) : series :=
  let data := if pad then ffill s else s in
  map (fun p => fst p / snd p - 1) (combine data (shift data)).

(** An asset frame as line 198 leaves it: its [daily_return] column is
    the percentage change of its [price] column. *)
Definition has_daily_returns (pad : bool) (df : asset_frame) : Prop :=
  af_daily_return df = Some (series_pct_change pad (af_price df)).

Local Close Scope float_scope.

(* ===================================================================== *)
(** * 17. Columns of a DataFrame                                       *)
(* ===================================================================== *)

Lemma get_set_col_same (name : string) (c : series) cols :
  get_col name (set_col name c cols) = Some c.
Proof.
  induction cols as [|[n c'] t IH]; simpl.
  - now rewrite String.eqb_refl.
  - destruct (String.eqb n name) eqn:E; simpl; rewrite E; auto.
Qed.

Lemma get_set_col_other (name other : string) (c : series) cols :
  name <> other ->
  get_col other (set_col name c cols) = get_col other cols.
Proof.
  intros Hne. induction cols as [|[n c'] t IH]; simpl.
  - destruct (String.eqb name other) eqn:E; auto.
    apply String.eqb_eq in E. contradiction.
  - destruct (String.eqb n name) eqn:E; simpl.
    + apply String.eqb_eq in E. subst n.
      destruct (String.eqb name other) eqn:E'; auto.
      apply String.eqb_eq in E'. contradiction.
    + now rewrite IH.
Qed.

Lemma names_set_col (name : string) (c : series) cols x :
  In x (map fst (set_col name c cols)) <-> x = name \/ In x (map fst cols).
Proof.
  induction cols as [|[n c'] t IH]; simpl.
  - intuition.
  - destruct (String.eqb n name) eqn:E; simpl.
    + apply String.eqb_eq in E. subst. intuition.
    + rewrite IH. intuition.
Qed.

Lemma NoDup_set_col (name : string) (c : series) cols :
  NoDup (map fst cols) -> NoDup (map fst (set_col name c cols)).
Proof.
  induction cols as [|[n c'] t IH]; simpl; intros H.
  - constructor; [simpl; tauto | constructor].
  - inversion H; subst.
    destruct (String.eqb n name) eqn:E; simpl.
    + constructor; auto.
    + constructor; auto. rewrite names_set_col. intros [->|Hin]; auto.
      now rewrite String.eqb_refl in E.
Qed.

Lemma Forall_set_col (P : string * series -> Prop) name c cols :
  (forall n, P (n, c)) -> Forall P cols -> Forall P (set_col name c cols).
Proof.
  intros Hc. induction 1 as [|[n c'] t Hx Ht IH]; simpl.
  - constructor; auto.
  - destruct (String.eqb n name); constructor; auto.
Qed.

Lemma get_col_In name (c : series) cols :
  get_col name cols = Some c -> In (name, c) cols.
Proof.
  induction cols as [|[n c'] t IH]; simpl; [discriminate|].
  destruct (String.eqb n name) eqn:E.
  - apply String.eqb_eq in E. intros [= ->]. subst. now left.
  - auto.
Qed.

Lemma In_get_col name (c : series) cols :
  NoDup (map fst cols) -> In (name, c) cols -> get_col name cols = Some c.
Proof.
  induction cols as [|[n c'] t IH]; simpl; [tauto|].
  intros Hnd [Heq|Hin]; inversion Hnd; subst.
  - inversion Heq; subst. now rewrite String.eqb_refl.
  - destruct (String.eqb n name) eqn:E; auto.
    apply String.eqb_eq in E. subst. exfalso. apply H1.
    apply in_map_iff. now exists (name, c).
Qed.

Lemma get_col_None name (cols : list (string * series)) :
  get_col name cols = None <-> ~ In name (map fst cols).
Proof.
  induction cols as [|[n c'] t IH]; simpl; [tauto|].
  destruct (String.eqb n name) eqn:E.
  - apply String.eqb_eq in E. subst. split; [discriminate|tauto].
  - apply String.eqb_neq in E. rewrite IH. tauto.
Qed.

(* ===================================================================== *)
(** * 18. SeriesAligner                                                *)
(* ===================================================================== *)

Section Aligner.

Variable ref_len : nat.

Lemma add_price_skip hd cols sym :
  ~ In sym (map fst hd) ->
  get_col sym (fold_left (add_price ref_len) hd cols) = get_col sym cols.
Proof.
  revert cols. induction hd as [|[s df] t IH]; simpl; intros cols Hn; auto.
  rewrite IH by tauto. unfold add_price.
  destruct (Nat.eqb (af_len df) ref_len); auto.
  apply get_set_col_other. tauto.
Qed.

Lemma add_price_get hd cols sym df :
  NoDup (map fst hd) -> In (sym, df) hd ->
  get_col sym (fold_left (add_price ref_len) hd cols) =
  if Nat.eqb (af_len df) ref_len then Some (af_price df)
  else get_col sym cols.
Proof.
  revert cols. induction hd as [|[s d] t IH]; simpl; intros cols Hnd Hin;
    [tauto|].
  inversion Hnd; subst. destruct Hin as [Heq|Hin].
  - inversion Heq; subst. rewrite add_price_skip by assumption.
    unfold add_price. destruct (Nat.eqb (af_len df) ref_len); auto.
    apply get_set_col_same.
  - rewrite IH by assumption.
    destruct (Nat.eqb (af_len df) ref_len); auto.
    unfold add_price. destruct (Nat.eqb (af_len d) ref_len); auto.
    apply get_set_col_other. intros ->. apply H1.
    apply in_map_iff. now exists (sym, df).
Qed.

Lemma add_return_skip hd cols sym :
  ~ In sym (map fst hd) ->
  get_col sym (fold_left (add_return ref_len) hd cols) = get_col sym cols.
Proof.
  revert cols. induction hd as [|[s df] t IH]; simpl; intros cols Hn; auto.
  rewrite IH by tauto. unfold add_return.
  destruct (af_daily_return df); auto.
  destruct (Nat.eqb (af_len df) ref_len); auto.
  apply get_set_col_other. tauto.
Qed.

Lemma add_return_get hd cols sym df :
  NoDup (map fst hd) -> In (sym, df) hd ->
  get_col sym (fold_left (add_return ref_len) hd cols) =
  match af_daily_return df with
  | Some r => if Nat.eqb (af_len df) ref_len then Some r
              else get_col sym cols
  | None => get_col sym cols
  end.
Proof.
  revert cols. induction hd as [|[s d] t IH]; intros cols Hnd Hin;
    simpl in Hnd, Hin; [tauto|]. cbn [fold_left].
  inversion Hnd; subst. destruct Hin as [Heq|Hin].
  - inversion Heq; subst. rewrite add_return_skip by assumption.
    unfold add_return. destruct (af_daily_return df); auto.
    destruct (Nat.eqb (af_len df) ref_len); auto.
    apply get_set_col_same.
  - rewrite IH by assumption.
    assert (Hne : s <> sym).
    { intros ->. apply H1. apply in_map_iff. now exists (sym, df). }
    assert (Hs : get_col sym (add_return ref_len cols (s, d)) =
                 get_col sym cols).
    { unfold add_return. destruct (af_daily_return d); auto.
      destruct (Nat.eqb (af_len d) ref_len); auto.
      now apply get_set_col_other. }
    now rewrite Hs.
Qed.

End Aligner.

(** C2. An asset of the input mapping has its column in the aligned price
    matrix exactly when its frame has as many rows as the reference date
    axis, and the column is then the asset's price column as it is. An
    asset of another length is in neither aligned matrix, and
    [save_combined_data] returns normally and persists both matrices. *)
Theorem aligned_column_iff_reference_length
  (first : string * asset_frame) (rest : historical)
  (sym : string) (df : asset_frame) (d : disk) :
  is_dict (first :: rest) ->
  In (sym, df) (first :: rest) ->
  let hd := first :: rest in
  let prices := combined_prices first hd in
  let returns := combined_returns first hd in
  ((exists c, get_col sym (f_cols prices) = Some c) <->
   af_len df = nrows prices) /\
  (af_len df = nrows prices ->
   get_col sym (f_cols prices) = Some (af_price df)) /\
  (af_len df <> nrows prices ->
   get_col sym (f_cols prices) = None /\
   get_col sym (f_cols returns) = None) /\
  nrows prices = af_len (snd first) /\
  o_value (save_combined_data hd d) = Returned tt /\
  combined_prices_csv (o_disk (save_combined_data hd d)) = Some prices /\
  combined_returns_csv (o_disk (save_combined_data hd d)) = Some returns.
Proof.
  intros Hd Hin hd prices returns.
  assert (Hp : get_col sym (f_cols prices) =
               if Nat.eqb (af_len df) (nrows prices)
               then Some (af_price df) else None).
  { unfold prices, combined_prices, nrows. cbn [f_cols f_date].
    now rewrite add_price_get with (df := df) by assumption. }
  assert (Hr : af_len df <> nrows prices ->
               get_col sym (f_cols returns) = None).
  { intros Hne. unfold returns, combined_returns. cbn [f_cols].
    rewrite add_return_get with (df := df) by assumption.
    apply Nat.eqb_neq in Hne. unfold prices, combined_prices, nrows in Hne.
    cbn [f_date] in Hne. rewrite Hne. now destruct (af_daily_return df). }
  repeat split; auto.
  - intros [c Hc]. rewrite Hp in Hc.
    destruct (Nat.eqb (af_len df) (nrows prices)) eqn:E; [|discriminate].
    now apply Nat.eqb_eq.
  - intros Hl. exists (af_price df). rewrite Hp.
    apply Nat.eqb_eq in Hl. now rewrite Hl.
  - intros Hl. rewrite Hp. apply Nat.eqb_eq in Hl. now rewrite Hl.
  - rewrite Hp. apply Nat.eqb_neq in H. now rewrite H.
Qed.

(** C2 on the basket: D, a day short of the reference axis of A, is in
    neither matrix, and A has its prices as they are. *)
Lemma aligned_column_iff_reference_length_witness :
  get_col "D" (f_cols basket_prices) = None /\
  get_col "D" (f_cols basket_returns) = None /\
  get_col "A" (f_cols basket_prices) = Some [100; 101; 102; 103; 104]%float.
Proof.
  assert (Hd : is_dict basket).
  { unfold is_dict, basket. simpl.
    repeat constructor; simpl; intuition discriminate. }
  pose proof (@aligned_column_iff_reference_length
                ("A", asset_A) (tl basket) "D" asset_D empty_disk Hd
                ltac:(simpl; auto 10)) as HD.
  pose proof (@aligned_column_iff_reference_length
                ("A", asset_A) (tl basket) "A" asset_A empty_disk Hd
                ltac:(simpl; auto 10)) as HA.
  cbv zeta in HD, HA.
  destruct HD as (_ & _ & HD & _). destruct HA as (_ & HA & _).
  assert (Hne : af_len asset_D <> nrows (combined_prices ("A", asset_A) (("A", asset_A) :: tl basket)))
    by (vm_compute; discriminate).
  destruct (HD Hne) as [H1 H2].
  split; [exact H1 | split; [exact H2 | apply HA; reflexivity]].
Defined.

(** C9, corrected. For a non-empty mapping the reference asset, the first
    in iteration order, always has its price column in the aligned price
    matrix, which therefore has an asset column. It has a column in the
    aligned return matrix exactly when its frame carries a [daily_return]
    column; line 298 leaves it out otherwise. *)
Theorem reference_asset_included
  (first : string * asset_frame) (rest : historical) :
  is_dict (first :: rest) ->
  let hd := first :: rest in
  let prices := combined_prices first hd in
  let returns := combined_returns first hd in
  get_col (fst first) (f_cols prices) = Some (af_price (snd first)) /\
  f_cols prices <> [] /\
  (forall r, af_daily_return (snd first) = Some r ->
             get_col (fst first) (f_cols returns) = Some r /\
             f_cols returns <> []) /\
  (af_daily_return (snd first) = None ->
   get_col (fst first) (f_cols returns) = None).
Proof.
  intros Hd hd prices returns. destruct first as [s df]. cbn [fst snd].
  assert (Hin : In (s, df) hd) by (left; reflexivity).
  assert (Hp : get_col s (f_cols prices) = Some (af_price df)).
  { unfold prices, combined_prices. cbn [f_cols snd].
    rewrite add_price_get with (df := df) by assumption.
    unfold af_len. now rewrite Nat.eqb_refl. }
  assert (Hr : get_col s (f_cols returns) = af_daily_return df).
  { unfold returns, combined_returns. cbn [f_cols snd].
    rewrite add_return_get with (df := df) by assumption.
    unfold af_len. rewrite Nat.eqb_refl.
    now destruct (af_daily_return df). }
  repeat split.
  - exact Hp.
  - intros E. rewrite E in Hp. discriminate.
  - now rewrite Hr.
  - intros E. rewrite E in Hr. simpl in Hr. congruence.
  - intros E. now rewrite Hr.
Qed.

(** C9 on the basket: the reference asset A, downloaded with its
    returns, is in both matrices. *)
Lemma reference_asset_included_witness :
  get_col "A" (f_cols basket_prices) = Some (af_price asset_A) /\
  get_col "A" (f_cols basket_returns) = af_daily_return asset_A.
Proof.
  assert (Hd : is_dict basket).
  { unfold is_dict, basket. simpl.
    repeat constructor; simpl; intuition discriminate. }
  pose proof (@reference_asset_included ("A", asset_A) (tl basket) Hd) as H.
  cbv zeta in H. destruct H as (Hp & _ & Hr & _).
  split; [exact Hp|].
  destruct (Hr _ eq_refl) as [Hr' _]. exact Hr'.
Defined.

(** C9 as worded fails: a reference frame read from a CSV file without a
    [daily_return] column is not in the aligned return matrix, which then
    has no asset column at all. *)
Lemma reference_asset_missing_from_returns :
  ~ reference_asset_in_both
      [("A", frame_without_returns five_days [100; 101; 102; 103; 104]%float)].
Proof.
  unfold reference_asset_in_both. intros (_ & H & _). apply H. reflexivity.
Qed.

(** C7, corrected. On an empty mapping [save_combined_data] logs the error
    and returns normally, writing nothing; the download script ends with
    status 0, so [main] goes on to start the correlation analysis. With no
    aligned matrices persisted every script is started, and the analysis
    scripts compute nothing and leave the disk as it was. *)
Theorem empty_mapping_logs_and_returns (d : disk) :
  o_value (save_combined_data [] d) = Returned tt /\
  o_disk (save_combined_data [] d) = d /\
  In (ERROR, "No historical data available to combine")
     (o_log (save_combined_data [] d)) /\
  o_value (download_historical_data_script true [] d) = ExitOk /\
  o_disk (download_historical_data_script true [] d) = d /\
  forall np_power strftime web,
    let run := main np_power strftime true [] web d in
    In AnalyzeCorrelations (p_started run) /\
    (load_combined_data d = None ->
     p_disk run = d /\
     p_started run = [FetchTopCoins; DownloadHistoricalData;
                      AnalyzeCorrelations; AnalyzePriceDistance;
                      CreateWebVisualization]).
Proof.
  repeat split; simpl; auto.
  - unfold main. simpl.
    destruct (run_script (analyze_correlations_script np_power d)); simpl;
      auto.
    destruct (run_script (analyze_price_distance_script strftime _)); simpl;
      auto.
  - unfold main, analyze_correlations_script. simpl. rewrite H. simpl.
    unfold analyze_price_distance_script. rewrite H. reflexivity.
  - unfold main, analyze_correlations_script. simpl. rewrite H. simpl.
    unfold analyze_price_distance_script. rewrite H. reflexivity.
Qed.

(** C7 as worded fails: [save_combined_data] raises nothing on an empty
    mapping, and the pipeline starts the analysis scripts after it. *)
Lemma empty_mapping_is_not_fatal : ~ empty_mapping_is_fatal.
Proof.
  intros [H _]. destruct (H empty_disk) as [e He]. discriminate He.
Qed.

(* ===================================================================== *)
(** * 19. Facts about binary64 arithmetic                              *)
(* ===================================================================== *)

(** Read through [Prim2SF], the specification of the primitive floats. *)

Lemma SFcompare_refl (x : spec_float) :
  x <> S754_nan -> SFcompare x x = Some Eq.
Proof.
  destruct x as [s|s| |s m e]; simpl; intros H; try congruence.
  - now destruct s.
  - rewrite Z.compare_refl, Pos.compare_cont_refl. now destruct s.
Qed.

Lemma ltb_irrefl (x : float) : (x <? x)%float = false.
Proof.
  rewrite ltb_spec. unfold SFltb.
  destruct (Prim2SF x) as [s|s| |s m e] eqn:E; simpl; auto.
  - now destruct s.
  - rewrite Z.compare_refl, Pos.compare_cont_refl. now destruct s.
Qed.

Lemma isna_spec (x : float) : isna x = true <-> Prim2SF x = S754_nan.
Proof.
  unfold isna, is_nan. rewrite eqb_spec. unfold SFeqb.
  destruct (Prim2SF x) as [s|s| |s m e] eqn:E.
  - simpl. split; discriminate.
  - rewrite SFcompare_refl by discriminate. split; discriminate.
  - simpl. tauto.
  - rewrite SFcompare_refl by discriminate. split; discriminate.
Qed.

Lemma isna_false_spec (x : float) :
  isna x = false <-> Prim2SF x <> S754_nan.
Proof.
  rewrite <- isna_spec. destruct (isna x); split; congruence.
Qed.

Lemma nan_unique (x : float) : isna x = true -> x = nan.
Proof.
  intros H. apply isna_spec in H. apply Prim2SF_inj. now rewrite H.
Qed.

Lemma isna_nan : isna nan = true.
Proof. reflexivity. Qed.

(** Rounding a non-negative mantissa never yields NaN. *)

Lemma shr_1_nonneg mrs : (0 <= shr_m mrs -> 0 <= shr_m (shr_1 mrs))%Z.
Proof.
  destruct mrs as [m r s]. simpl.
  destruct m as [|p|p]; simpl; try lia; destruct p; simpl; lia.
Qed.

Lemma iter_shr_1_nonneg p mrs :
  (0 <= shr_m mrs -> 0 <= shr_m (SpecFloat.iter_pos shr_1 p mrs))%Z.
Proof.
  revert mrs. induction p; intros mrs H; simpl; auto using shr_1_nonneg.
Qed.

Lemma shr_nonneg mrs e n :
  (0 <= shr_m mrs -> 0 <= shr_m (fst (shr mrs e n)))%Z.
Proof.
  intros H. unfold shr. destruct n; simpl; auto using iter_shr_1_nonneg.
Qed.

Lemma shr_fexp_nonneg m e l :
  (0 <= m -> 0 <= shr_m (fst (shr_fexp prec emax m e l)))%Z.
Proof.
  intros H. unfold shr_fexp. apply shr_nonneg.
  destruct l as [|[]]; simpl; auto.
Qed.

Lemma round_nearest_even_nonneg m l :
  (0 <= m -> 0 <= round_nearest_even m l)%Z.
Proof.
  intros H. unfold round_nearest_even.
  destruct l as [|[]]; try lia. destruct (Z.even m); lia.
Qed.

Lemma binary_round_aux_not_nan s m e l :
  (0 <= m)%Z -> binary_round_aux prec emax s m e l <> S754_nan.
Proof.
  intros H. unfold binary_round_aux.
  pose proof (shr_fexp_nonneg e l H) as H1.
  destruct (shr_fexp prec emax m e l) as [mrs' e'] eqn:E1. simpl in H1.
  pose proof (round_nearest_even_nonneg (loc_of_shr_record mrs') H1) as H2.
  pose proof (shr_fexp_nonneg e' loc_Exact H2) as H3.
  destruct (shr_fexp prec emax _ e' loc_Exact) as [mrs'' e''] eqn:E2.
  simpl in H3.
  destruct (shr_m mrs'') as [|p|p]; try discriminate; try lia.
  destruct (Z.leb e'' (emax - prec)); discriminate.
Qed.

Lemma binary_normalize_not_nan m e s :
  binary_normalize prec emax m e s <> S754_nan.
Proof.
  unfold binary_normalize, binary_round.
  destruct m as [|p|p]; try discriminate.
  - destruct (shl_align _ _ _) as [mz ez].
    apply binary_round_aux_not_nan. lia.
  - destruct (shl_align _ _ _) as [mz ez].
    apply binary_round_aux_not_nan. lia.
Qed.

Lemma Prim2SF_one : Prim2SF 1 = S754_finite false 4503599627370496 (-52).
Proof. reflexivity. Qed.

Lemma Prim2SF_zero : Prim2SF 0 = S754_zero false.
Proof. reflexivity. Qed.

(** [1 + r] is NaN exactly when [r] is. *)
Lemma isna_one_plus (r : float) : isna (1 + r)%float = isna r.
Proof.
  destruct (isna r) eqn:E.
  - apply nan_unique in E. subst. reflexivity.
  - apply isna_false_spec. apply isna_false_spec in E.
    rewrite add_spec, Prim2SF_one. unfold SF64add, SFadd.
    destruct (Prim2SF r) as [s|s| |s m e]; try discriminate; try congruence.
    apply binary_normalize_not_nan.
Qed.

(* ===================================================================== *)
(** * 20. Compounding                                                  *)
(* ===================================================================== *)

Lemma one_plus_fill (r : float) :
  (if isna (1 + r)%float then 1%float else (1 + r)%float) =
  (1 + (if isna r then 0 else r))%float.
Proof.
  rewrite isna_one_plus. destruct (isna r); reflexivity.
Qed.

Lemma nanprod_fill (s : series) :
  map (fun x => if isna x then 1%float else x) (map (fun r => 1 + r)%float s) =
  map (fun r => 1 + r)%float (fillna 0 s).
Proof.
  unfold fillna. rewrite !map_map. apply map_ext. intros r.
  apply one_plus_fill.
Qed.

Lemma filled_notna (s : series) :
  forallb notna (map (fun r => 1 + r)%float (fillna 0 s)) = true.
Proof.
  unfold fillna. rewrite map_map. induction s as [|x t IH]; simpl; auto.
  rewrite IH, andb_true_r. unfold notna. rewrite isna_one_plus.
  destruct (isna x) eqn:E; [reflexivity | now rewrite E].
Qed.

Lemma cumprod_from_notna (s : series) (acc : float) :
  forallb notna s = true ->
  map (fun xr => if isna (fst xr) then nan else snd xr)
      (combine s (cumprod_from acc
                    (map (fun x => if isna x then 1%float else x) s))) =
  cumprod_from acc s.
Proof.
  revert acc. induction s as [|x t IH]; intros acc H; simpl; auto.
  simpl in H. apply andb_true_iff in H as [Hx Ht].
  unfold notna in Hx. apply negb_true_iff in Hx. rewrite Hx. simpl.
  f_equal. now apply IH.
Qed.

Lemma cumprod_notna (s : series) :
  forallb notna s = true -> cumprod s = np_cumprod s.
Proof. apply cumprod_from_notna. Qed.

Lemma last_cons {A : Type} (h : A) (t : list A) (d : A) :
  last (h :: t) d = last t h.
Proof.
  revert h d. induction t as [|x t IH]; intros h d; [reflexivity|].
  change (last (h :: x :: t) d) with (last (x :: t) d).
  now rewrite (IH x d), (IH x h).
Qed.

Lemma last_map_default {A B : Type} (f : A -> B) (l : list A) (d : A) :
  last (map f l) (f d) = f (last l d).
Proof.
  revert d. induction l as [|x t IH]; intros d; [reflexivity|].
  cbn [map]. now rewrite !last_cons.
Qed.

Lemma last_cumprod_from (l : series) (acc : float) :
  last (cumprod_from acc l) acc = fold_left PrimFloat.mul l acc.
Proof.
  revert acc. induction l as [|x t IH]; intros acc; [reflexivity|].
  cbn [cumprod_from fold_left]. now rewrite last_cons.
Qed.

Lemma iloc_last_cumulative (r : float) (rs : series) :
  iloc_last (cumulative_series (r :: rs)) =
  Returned (compounded_return (r :: rs)).
Proof.
  unfold cumulative_series, compounded_return.
  rewrite cumprod_notna by apply filled_notna.
  unfold np_cumprod, np_prod. cbn [fillna map cumprod_from fold_left].
  unfold iloc_last. f_equal.
  rewrite (last_map_default (fun c => (c - 1)%float)).
  f_equal. apply last_cumprod_from.
Qed.

(** C3. The cumulative return of ReturnStatistics (line 78) and the final
    cumulative value of MarketDivergenceEngine (lines 107 and 117) are both
    the product of [(1 + r_i)] over the asset's returns, a missing return
    counted as 0, minus one; without missing values that is
    [product(1 + r_i) - 1] itself. With every product taken from left to
    right the values are the same binary64 number, so they agree within
    any tolerance. *)
Theorem cumulative_return_is_compounded (s : series) :
  cumulative_return s = compounded_return s /\
  match s with
  | [] => iloc_last (cumulative_series s) = Raised "IndexError"
  | _ :: _ => iloc_last (cumulative_series s) =
              Returned (compounded_return s)
  end /\
  (forallb notna s = true ->
   compounded_return s = (np_prod (map (fun r => 1 + r) s) - 1)%float).
Proof.
  split; [|split].
  - unfold cumulative_return, compounded_return, nanprod.
    now rewrite nanprod_fill.
  - destruct s as [|r rs]; [reflexivity|]. apply iloc_last_cumulative.
  - intros H. unfold compounded_return. do 3 f_equal.
    unfold fillna. rewrite <- (map_id s) at 2. apply map_ext_in.
    intros x Hx. rewrite forallb_forall in H. specialize (H x Hx).
    unfold notna in H. apply negb_true_iff in H. now rewrite H.
Qed.

(** A missing return is a day without change: 1.5 * 2 - 1 with or without
    the two gaps. *)
Example compounded_example :
  cumulative_return [nan; 0.5; nan; 1]%float = 2%float /\
  iloc_last (cumulative_series [nan; 0.5; nan; 1]%float) = Returned 2%float /\
  cumulative_return [0.5; 1]%float = 2%float /\
  (np_prod (map (fun r => 1 + r) [0.5; 1]) - 1 = 2)%float.
Proof. repeat split; reflexivity. Qed.

(* ===================================================================== *)
(** * 21. Equality up to the sign of zero                              *)
(* ===================================================================== *)

Lemma eqb_cases (a b : float) :
  (a =? b)%float = true -> a = b \/ both_zero a b.
Proof.
  rewrite eqb_spec. unfold SFeqb, both_zero.
  destruct (Prim2SF a) as [s|s| |s m e] eqn:Ea;
    destruct (Prim2SF b) as [s'|s'| |s' m' e'] eqn:Eb; simpl;
    try discriminate; try (destruct s; discriminate);
    try (destruct s'; discriminate).
  - intros _. right. eauto.
  - intros H. left. apply Prim2SF_inj. rewrite Ea, Eb.
    destruct s, s'; try discriminate; reflexivity.
  - intros H. left. apply Prim2SF_inj. rewrite Ea, Eb.
    destruct s, s'; try discriminate;
      destruct (Z.compare e e') eqn:Ee; try discriminate;
      apply Z.compare_eq in Ee; subst e';
      destruct (Pos.compare_cont Eq m m') eqn:Em; try discriminate;
      apply Pos.compare_eq in Em; subst m'; reflexivity.
Qed.

Lemma both_zero_eqb (a b : float) : both_zero a b -> (a =? b)%float = true.
Proof.
  intros (s & s' & Ha & Hb). now rewrite eqb_spec, Ha, Hb.
Qed.

Lemma feq_cases (a b : float) : feq a b <-> a = b \/ both_zero a b.
Proof.
  unfold feq. split; intros [H|H]; auto using both_zero_eqb.
  now apply eqb_cases.
Qed.

Lemma feq_refl (a : float) : feq a a.
Proof. now left. Qed.

Lemma feq_sym (a b : float) : feq a b -> feq b a.
Proof.
  rewrite !feq_cases. intros [->|(s & s' & Ha & Hb)]; auto.
  right. exists s', s. auto.
Qed.

Lemma feq_trans (a b c : float) : feq a b -> feq b c -> feq a c.
Proof.
  rewrite !feq_cases. intros [->|(s & s' & Ha & Hb)]; auto.
  intros [<-|(t & t' & Hb' & Hc)]; [right; exists s, s'; auto|].
  right. exists s, t'. auto.
Qed.

Lemma SF_eq_feq (a b : float) : Prim2SF a = Prim2SF b -> feq a b.
Proof. intros H. left. now apply Prim2SF_inj. Qed.

Lemma SF_zero_feq (a b : float) s s' :
  Prim2SF a = S754_zero s -> Prim2SF b = S754_zero s' -> feq a b.
Proof. intros Ha Hb. apply feq_cases. right. exists s, s'. auto. Qed.

Lemma feq_add_zero (a : float) : feq (a + 0)%float a.
Proof.
  destruct (Prim2SF a) as [s|s| |s m e] eqn:Ea.
  - apply SF_zero_feq with (s := if s then false else false) (s' := s); auto.
    rewrite add_spec, Ea, Prim2SF_zero. now destruct s.
  - apply SF_eq_feq. now rewrite add_spec, Ea, Prim2SF_zero.
  - apply SF_eq_feq. now rewrite add_spec, Ea, Prim2SF_zero.
  - apply SF_eq_feq. now rewrite add_spec, Ea, Prim2SF_zero.
Qed.

Lemma feq_add_compat (a a' v : float) :
  feq a a' -> feq (a + v)%float (a' + v)%float.
Proof.
  rewrite feq_cases. intros [->|(s & s' & Ha & Hb)]; [apply feq_refl|].
  destruct (Prim2SF v) as [t|t| |t m e] eqn:Ev.
  - apply SF_zero_feq with (s := if Bool.eqb s t then s else false)
                           (s' := if Bool.eqb s' t then s' else false);
      rewrite add_spec, ?Ha, ?Hb, Ev; [destruct s, t | destruct s', t];
      reflexivity.
  - apply SF_eq_feq. now rewrite !add_spec, Ha, Hb, Ev.
  - apply SF_eq_feq. now rewrite !add_spec, Ha, Hb, Ev.
  - apply SF_eq_feq. now rewrite !add_spec, Ha, Hb, Ev.
Qed.

Lemma feq_div_compat (a a' c : float) :
  feq a a' -> feq (a / c)%float (a' / c)%float.
Proof.
  rewrite feq_cases. intros [->|(s & s' & Ha & Hb)]; [apply feq_refl|].
  destruct (Prim2SF c) as [t|t| |t m e] eqn:Ec.
  - apply SF_eq_feq. now rewrite !div_spec, Ha, Hb, Ec.
  - apply SF_zero_feq with (s := xorb s t) (s' := xorb s' t);
      now rewrite div_spec, ?Ha, ?Hb, Ec.
  - apply SF_eq_feq. now rewrite !div_spec, Ha, Hb, Ec.
  - apply SF_zero_feq with (s := xorb s t) (s' := xorb s' t);
      now rewrite div_spec, ?Ha, ?Hb, Ec.
Qed.

(* ===================================================================== *)
(** * 22. The market average                                           *)
(* ===================================================================== *)

Lemma sum_fill_filter (row : series) (a a' : float) :
  feq a a' ->
  feq (fold_left PrimFloat.add (fillna 0 row) a)
      (fold_left PrimFloat.add (filter notna row) a').
Proof.
  revert a a'. induction row as [|x t IH]; intros a a' H; simpl; auto.
  unfold notna. destruct (isna x); simpl.
  - apply IH. eapply feq_trans; [apply feq_add_zero | exact H].
  - apply IH. now apply feq_add_compat.
Qed.

Lemma nanmean_is_mean_of_present (row : series) :
  feq (nanmean row) (mean_of_present row).
Proof.
  unfold nanmean, mean_of_present, count_valid, nansum, np_sum.
  destruct (filter notna row) as [|y p] eqn:E.
  - simpl. apply feq_refl.
  - cbn [length Nat.eqb]. rewrite <- E. apply feq_div_compat.
    apply sum_fill_filter, feq_refl.
Qed.

Lemma nth_map_seq {A : Type} (f : nat -> A) (n i : nat) (d : A) :
  (i < n)%nat -> nth i (map f (seq 0 n)) d = f i.
Proof.
  intros H. rewrite nth_indep with (d' := f 0%nat)
    by now rewrite length_map, length_seq.
  rewrite map_nth. now rewrite seq_nth.
Qed.

(** C4. On every date the market return of [calculate_market_average] is
    the arithmetic mean over the assets that have a return on that date:
    the sum of the present values over their number. A missing entry is in
    neither. (Equality is that of binary64 values; the sign of a zero sum
    aside, the two are the same value.) With returns [0.1, 0.2] and
    [0.0, missing], day 1 is 0.05 and day 2 is 0.2 alone. *)
Theorem market_return_is_mean_of_present (returns_df : frame) (i : nat) :
  (i < nrows returns_df)%nat ->
  let market := calculate_market_average returns_df in
  mf_date market = f_date returns_df /\
  length (mf_market_avg_return market) = nrows returns_df /\
  feq (nth i (mf_market_avg_return market) nan)
      (mean_of_present (row_values (f_cols returns_df) i)).
Proof.
  intros H market. unfold market, calculate_market_average.
  cbn [mf_date mf_market_avg_return]. repeat split.
  - now rewrite length_map, length_seq.
  - rewrite nth_map_seq by assumption. apply nanmean_is_mean_of_present.
Qed.

(** C4 on the two assets of the scenario: day 2 is the return of X
    alone. *)
Lemma market_return_is_mean_of_present_witness :
  feq (nth 1 (mf_market_avg_return
                (calculate_market_average two_asset_returns)) nan)
      (mean_of_present [0.2; nan]%float) /\
  mf_market_avg_return (calculate_market_average two_asset_returns) =
  [0.05; 0.2]%float.
Proof.
  split.
  - apply (@market_return_is_mean_of_present two_asset_returns 1).
    unfold nrows, two_asset_returns. simpl. lia.
  - reflexivity.
Defined.

(* ===================================================================== *)
(** * 23. Division by zero                                             *)
(* ===================================================================== *)

Lemma Prim2SF_infinity : Prim2SF infinity = S754_infinity false.
Proof. reflexivity. Qed.

Lemma is_infinity_spec (x : float) :
  is_infinity x = true <-> exists s, Prim2SF x = S754_infinity s.
Proof.
  unfold is_infinity. rewrite eqb_spec, abs_spec, Prim2SF_infinity.
  destruct (Prim2SF x) as [s|s| |s m e]; simpl; split;
    try discriminate; try (intros [s' H]; discriminate); eauto.
Qed.






Lemma abs_not_neg_infinity (x : float) :
  is_infinity (abs x) = true -> abs x = infinity.
Proof.
  rewrite is_infinity_spec. intros [s H]. apply Prim2SF_inj.
  rewrite abs_spec in *. rewrite Prim2SF_infinity.
  destruct (Prim2SF x); simpl in *; congruence.
Qed.


(* ===================================================================== *)
(** * 24. The correlation matrix: shape and symmetry                   *)
(* ===================================================================== *)

Section NancorrShape.

Variable T : Type.
Variable A : arith T.









End NancorrShape.

(* ===================================================================== *)
(** * 25. The correlation in exact arithmetic                          *)
(* ===================================================================== *)

Local Open Scope R_scope.
















Local Close Scope R_scope.

Unset Implicit Arguments.

(* ===================================================================== *)
(** * 26. Arrays of row numbers                                        *)
(* ===================================================================== *)

Lemma length_aset (a : list nat) (i x : nat) :
  length (aset a i x) = length a.
Proof.
  revert i. induction a as [|h t IH]; intros [|i]; simpl; auto.
Qed.

Lemma aget_aset_same (a : list nat) (i x : nat) :
  i < length a -> aget (aset a i x) i = x.
Proof.
  unfold aget. revert i. induction a as [|h t IH]; intros [|i] H;
    simpl in *; try lia; auto. apply IH. lia.
Qed.

Lemma aget_aset_other (a : list nat) (i j x : nat) :
  i <> j -> aget (aset a i x) j = aget a j.
Proof.
  unfold aget. revert i j. induction a as [|h t IH]; intros [|i] [|j] H;
    simpl; auto; try lia.
Qed.

Lemma aset_outside (a : list nat) (i x : nat) :
  length a <= i -> aset a i x = a.
Proof.
  revert i. induction a as [|h t IH]; intros [|i] H; simpl in *; auto;
    try lia. f_equal. apply IH. lia.
Qed.

Lemma aset_app (l r : list nat) (k x : nat) :
  aset (l ++ r) (length l + k) x = l ++ aset r k x.
Proof. induction l as [|h t IH]; simpl; auto. now rewrite IH. Qed.

Lemma aget_app (l r : list nat) (k : nat) :
  aget (l ++ r) (length l + k) = aget r k.
Proof. unfold aget. induction l as [|h t IH]; simpl; auto. Qed.

Lemma array_split (a : list nat) (i : nat) :
  i < length a ->
  exists l r, a = l ++ aget a i :: r /\ length l = i.
Proof.
  unfold aget. revert i. induction a as [|h t IH]; intros [|i] H;
    simpl in *; try lia.
  - exists [], t. auto.
  - destruct (IH i) as (l & r & E & L); [lia|].
    exists (h :: l), r. simpl. split; [now rewrite <- E | now rewrite L].
Qed.

(** Two arrays with the same entries are the same array. *)
Lemma array_ext (a b : list nat) :
  length a = length b -> (forall k, aget a k = aget b k) -> a = b.
Proof.
  intros L H. apply nth_ext with (d := 0) (d' := 0); auto.
  intros n _. apply H.
Qed.

Lemma aset_aset_same (a : list nat) (i x y : nat) :
  aset (aset a i x) i y = aset a i y.
Proof.
  revert i. induction a as [|h t IH]; intros [|i]; simpl; auto.
  now rewrite IH.
Qed.

Lemma aget_app0 (l r : list nat) (y : nat) :
  aget (l ++ y :: r) (length l) = y.
Proof.
  rewrite <- (Nat.add_0_r (length l)). now rewrite aget_app.
Qed.

Lemma aset_app0 (l r : list nat) (y x : nat) :
  aset (l ++ y :: r) (length l) x = l ++ x :: r.
Proof.
  rewrite <- (Nat.add_0_r (length l)). now rewrite aset_app.
Qed.

Lemma swap_explicit (l1 l2 l3 : list nat) (x y : nat) :
  let a := l1 ++ x :: l2 ++ y :: l3 in
  let i := length l1 in
  let j := length l1 + S (length l2) in
  aget a i = x /\ aget a j = y /\
  aset (aset a i y) j x = l1 ++ y :: l2 ++ x :: l3 /\
  aset (aset a j x) i y = l1 ++ y :: l2 ++ x :: l3.
Proof.
  intros a i j. unfold a, i, j. repeat split.
  - apply aget_app0.
  - rewrite aget_app.
    change (aget (x :: l2 ++ y :: l3) (S (length l2)))
      with (aget (l2 ++ y :: l3) (length l2)).
    apply aget_app0.
  - rewrite aset_app0, aset_app. f_equal.
    change (aset (y :: l2 ++ y :: l3) (S (length l2)) x)
      with (y :: aset (l2 ++ y :: l3) (length l2) x).
    now rewrite aset_app0.
  - rewrite aset_app.
    change (aset (x :: l2 ++ y :: l3) (S (length l2)) x)
      with (x :: aset (l2 ++ y :: l3) (length l2) x).
    rewrite aset_app0. now rewrite aset_app0.
Qed.

(** Overwriting two cells with each other's values permutes the array. *)
Lemma swap_values_perm (a : list nat) (i j : nat) :
  i < length a -> j < length a ->
  Permutation (aset (aset a i (aget a j)) j (aget a i)) a.
Proof.
  assert (Hlt : forall a i j, i < j -> j < length a ->
            Permutation (aset (aset a i (aget a j)) j (aget a i)) a /\
            Permutation (aset (aset a j (aget a i)) i (aget a j)) a).
  { clear. intros a i j Hij Hj.
    destruct (@array_split a i) as (l1 & r & Ea & Li); [lia|].
    assert (Hr : j - S i < length r).
    { assert (length a = length l1 + S (length r))
        by (rewrite Ea at 1; rewrite length_app; reflexivity). lia. }
    destruct (@array_split r (j - S i) Hr) as (l2 & l3 & Er & Lj).
    set (x := aget a i) in *. set (y := aget r (j - S i)) in *.
    assert (El : a = l1 ++ x :: l2 ++ y :: l3).
    { rewrite Ea at 1. now rewrite Er at 1. }
    destruct (swap_explicit l1 l2 l3 x y) as (Gx & Gy & S1 & S2).
    cbv zeta in *. rewrite <- El in *.
    replace (length l1) with i in * by lia.
    replace (i + S (length l2)) with j in * by lia.
    rewrite Gy. fold x. rewrite S1, S2.
    assert (Hp : Permutation (l1 ++ y :: l2 ++ x :: l3) a).
    { rewrite El. apply Permutation_app_head.
      rewrite <- !Permutation_middle. apply perm_swap. }
    auto. }
  intros Hi Hj. destruct (Nat.lt_trichotomy i j) as [H|[H|H]].
  - exact (proj1 (Hlt a i j H Hj)).
  - subst j. rewrite aset_aset_same.
    replace (aset a i (aget a i)) with a; [reflexivity|].
    apply array_ext; [now rewrite length_aset|]. intros k.
    destruct (Nat.eq_dec i k) as [->|Hk];
      [now rewrite aget_aset_same | now rewrite aget_aset_other].
  - exact (proj2 (Hlt a j i H Hi)).
Qed.

Lemma arr_step_refl pl pr a : arr_step pl pr a a.
Proof. split; auto. Qed.

Lemma arr_step_trans pl pr a b c :
  arr_step pl pr a b -> arr_step pl pr b c -> arr_step pl pr a c.
Proof.
  intros [P1 O1] [P2 O2]. split.
  - now rewrite P2.
  - intros k Hk. now rewrite O2, O1.
Qed.

Lemma arr_step_widen pl pr pl' pr' a b :
  pl' <= pl -> pr <= pr' -> arr_step pl pr a b -> arr_step pl' pr' a b.
Proof.
  intros H1 H2 [P O]. split; auto. intros k Hk. apply O. lia.
Qed.

Lemma arr_step_length pl pr a b : arr_step pl pr a b -> length b = length a.
Proof. intros [P _]. now apply Permutation_length. Qed.

Lemma swap_arr_step pl pr a i j :
  pl <= i <= pr -> pl <= j <= pr -> pr < length a ->
  arr_step pl pr a (swap a i j).
Proof.
  intros Hi Hj Hr. split.
  - apply swap_values_perm; lia.
  - intros k Hk. unfold swap. rewrite !aget_aset_other by lia. reflexivity.
Qed.

Lemma aget_swap a i j k :
  i < length a -> j < length a ->
  aget (swap a i j) k =
  if Nat.eqb k j then aget a i else if Nat.eqb k i then aget a j
  else aget a k.
Proof.
  intros Hi Hj. unfold swap.
  destruct (Nat.eqb_spec k j) as [->|Hkj].
  - now rewrite aget_aset_same by now rewrite length_aset.
  - rewrite aget_aset_other by auto.
    destruct (Nat.eqb_spec k i) as [->|Hki].
    + now rewrite aget_aset_same.
    + now rewrite aget_aset_other by auto.
Qed.

Lemma slice_split (a : list nat) (pl pr : nat) :
  pl <= S pr ->
  a = firstn pl a ++ slice a pl pr ++ skipn (S pr) a.
Proof.
  intros H. unfold slice.
  rewrite <- (firstn_skipn pl a) at 1. f_equal.
  rewrite <- (firstn_skipn (S pr - pl) (skipn pl a)) at 1. f_equal.
  rewrite skipn_skipn. f_equal. lia.
Qed.

Lemma nth_slice (a : list nat) (pl pr i : nat) :
  i < S pr - pl -> nth i (slice a pl pr) 0 = aget a (pl + i).
Proof.
  intros H. unfold slice, aget. rewrite nth_firstn.
  destruct (Nat.ltb_spec i (S pr - pl)); [|lia]. now rewrite nth_skipn.
Qed.

Lemma length_slice (a : list nat) (pl pr : nat) :
  pr < length a -> length (slice a pl pr) = S pr - pl.
Proof.
  intros H. unfold slice. rewrite length_firstn, length_skipn. lia.
Qed.

Lemma arr_step_slice pl pr a b :
  pl <= S pr -> pr < length a -> arr_step pl pr a b ->
  Permutation (slice b pl pr) (slice a pl pr).
Proof.
  intros Hl Hr [P O].
  assert (L : length b = length a) by now apply Permutation_length.
  assert (E1 : firstn pl b = firstn pl a).
  { apply nth_ext with (d := 0) (d' := 0).
    - rewrite !length_firstn. lia.
    - intros n Hn. rewrite length_firstn in Hn. rewrite !nth_firstn.
      destruct (Nat.ltb_spec n pl); [|lia]. apply O. lia. }
  assert (E3 : skipn (S pr) b = skipn (S pr) a).
  { apply nth_ext with (d := 0) (d' := 0).
    - rewrite !length_skipn. lia.
    - intros n Hn. rewrite !nth_skipn. apply O. lia. }
  assert (P' : Permutation
                 (firstn pl b ++ slice b pl pr ++ skipn (S pr) b)
                 (firstn pl a ++ slice a pl pr ++ skipn (S pr) a))
    by (now rewrite <- (slice_split a pl pr Hl), <- (slice_split b pl pr Hl)).
  rewrite E1, E3 in P'.
  apply Permutation_app_inv_l in P'.
  now apply Permutation_app_inv_r in P'.
Qed.

(** What holds of every entry of a range still holds after the range is
    rearranged. *)
Lemma arr_step_forall (P : nat -> Prop) pl pr a b :
  pl <= S pr -> pr < length a -> arr_step pl pr a b ->
  (forall k, pl <= k <= pr -> P (aget a k)) ->
  forall k, pl <= k <= pr -> P (aget b k).
Proof.
  intros Hl Hr Hs Ha k Hk.
  pose proof (arr_step_slice pl pr a b Hl Hr Hs) as Hp.
  assert (Hr' : pr < length b) by (rewrite (arr_step_length pl pr a b Hs); lia).
  assert (Hin : In (aget b k) (slice b pl pr)).
  { replace k with (pl + (k - pl)) by lia.
    rewrite <- (nth_slice b pl pr) by lia.
    apply nth_In. rewrite length_slice by lia. lia. }
  apply (Permutation_in _ Hp) in Hin.
  apply (In_nth _ _ 0) in Hin as (i & Hi & E).
  rewrite length_slice in Hi by lia. rewrite nth_slice in E by lia.
  rewrite <- E. apply Ha. lia.
Qed.

(* ===================================================================== *)
(** * 27. Insertion sort                                               *)
(* ===================================================================== *)

Section InsertionSort.

Variable lt : nat -> nat -> bool.
Hypothesis lt_order : strict_weak_order lt.

Lemma le_refl x : le lt x x.
Proof. apply lt_order. Qed.

Lemma le_trans x y z : le lt x y -> le lt y z -> le lt x z.
Proof.
  unfold le. intros H1 H2. destruct lt_order as (_ & _ & H). eauto.
Qed.

Lemma lt_asym x y : lt x y = true -> lt y x = false.
Proof.
  intros H. destruct lt_order as (Hi & Ht & _).
  destruct (lt y x) eqn:E; auto.
  rewrite <- (Hi x). symmetry. eauto.
Qed.

Lemma lt_le x y : lt x y = true -> le lt x y.
Proof. apply lt_asym. Qed.

Lemma le_total x y : le lt x y \/ le lt y x.
Proof.
  unfold le. destruct (lt y x) eqn:E; auto. right. now apply lt_asym.
Qed.

Lemma sorted_range_ext a b l h :
  (forall k, l <= k < h -> aget b k = aget a k) ->
  sorted_range lt a l h -> sorted_range lt b l h.
Proof.
  intros E H i j Hi Hij Hj. rewrite !E by lia. now apply H.
Qed.

Lemma shift_down_spec pj : forall a vi pl,
  pl <= pj -> pj < length a -> sorted_range lt a pl pj ->
  arr_step pl pj (aset a pj vi) (shift_down lt a vi pl pj) /\
  sorted_range lt (shift_down lt a vi pl pj) pl (S pj).
Proof.
  induction pj as [|pk IH]; intros a vi pl Hl Hlen Hs.
  - simpl. split; [apply arr_step_refl|].
    intros i j Hi Hij Hj. replace j with 0 by lia. replace i with 0 by lia.
    apply le_refl.
  - cbn [shift_down].
    destruct (Nat.ltb pl (S pk) && lt vi (aget a pk)) eqn:C.
    + apply andb_true_iff in C as [C1 C2]. apply Nat.ltb_lt in C1.
      set (a1 := aset a (S pk) (aget a pk)).
      assert (L1 : length a1 = length a) by apply length_aset.
      assert (S1 : sorted_range lt a1 pl pk).
      { apply sorted_range_ext with (a := a).
        - intros k Hk. unfold a1. apply aget_aset_other. lia.
        - intros i j Hi Hij Hj. apply Hs; lia. }
      destruct (IH a1 vi pl) as [A1 S2]; [lia | lia | exact S1 |].
      set (r := shift_down lt a1 vi pl pk) in *.
      set (b := aset a (S pk) vi).
      assert (Lb : length b = length a) by apply length_aset.
      assert (Eb : aset a1 pk vi = swap b (S pk) pk).
      { unfold swap, b, a1.
        rewrite (aget_aset_other a (S pk) pk) by lia.
        rewrite aget_aset_same by lia.
        now rewrite !aset_aset_same. }
      assert (A2 : arr_step pl (S pk) b r).
      { apply arr_step_trans with (b := aset a1 pk vi).
        - rewrite Eb. apply swap_arr_step; lia.
        - apply arr_step_widen with (pl := pl) (pr := pk); auto. }
      split; [exact A2|].
      intros i j Hi Hij Hj.
      destruct (Nat.eq_dec j (S pk)) as [->|Hne]; [|apply S2; lia].
      assert (Er : aget r (S pk) = aget a pk).
      { destruct A1 as [_ O]. rewrite O by lia.
        rewrite aget_aset_other by lia. unfold a1.
        apply aget_aset_same. lia. }
      rewrite Er.
      destruct (Nat.eq_dec i (S pk)) as [->|Hi'];
        [rewrite Er; apply le_refl|].
      apply (arr_step_forall (fun v => le lt v (aget a pk)) pl pk
               (aset a1 pk vi) r); try lia; auto.
      * rewrite length_aset. lia.
      * intros k Hk. destruct (Nat.eq_dec k pk) as [->|Hk'].
        -- rewrite aget_aset_same by lia. now apply lt_le.
        -- rewrite aget_aset_other by lia. unfold a1.
           rewrite aget_aset_other by lia. apply Hs; lia.
    + split; [apply arr_step_refl|].
      intros i j Hi Hij Hj.
      destruct (Nat.eq_dec j (S pk)) as [->|Hne].
      * rewrite aget_aset_same by lia.
        destruct (Nat.eq_dec i (S pk)) as [->|Hi'].
        -- rewrite aget_aset_same by lia. apply le_refl.
        -- rewrite aget_aset_other by lia.
           apply andb_false_iff in C as [C|C];
             [apply Nat.ltb_ge in C; lia|].
           apply le_trans with (y := aget a pk); [apply Hs; lia | exact C].
      * rewrite !aget_aset_other by lia. apply Hs; lia.
Qed.

Lemma aset_aget_id a i : aset a i (aget a i) = a.
Proof.
  apply array_ext; [apply length_aset|]. intros k.
  destruct (Nat.eq_dec i k) as [->|Hk].
  - destruct (Nat.lt_ge_cases k (length a)) as [H|H].
    + now apply aget_aset_same.
    + now rewrite aset_outside.
  - now apply aget_aset_other.
Qed.

Lemma insert_from_spec n : forall a pl pi,
  pl < pi -> pi + n <= length a -> sorted_range lt a pl pi ->
  arr_step pl (pi + n - 1) a (insert_from lt a pl pi n) /\
  sorted_range lt (insert_from lt a pl pi n) pl (pi + n).
Proof.
  induction n as [|n IH]; intros a pl pi Hl Hlen Hs; cbn [insert_from].
  - rewrite Nat.add_0_r. split; [apply arr_step_refl | exact Hs].
  - destruct (shift_down_spec pi a (aget a pi) pl) as [A1 S1];
      [lia | lia | exact Hs |].
    rewrite aset_aget_id in A1.
    set (a1 := shift_down lt a (aget a pi) pl pi) in *.
    assert (L1 : length a1 = length a)
      by exact (arr_step_length _ _ _ _ A1).
    destruct (IH a1 pl (S pi)) as [A2 S2]; [lia | lia | exact S1 |].
    replace (pi + S n) with (S pi + n) by lia. split; [|exact S2].
    apply arr_step_trans with (b := a1); auto.
    apply arr_step_widen with (pl := pl) (pr := pi); auto. lia.
Qed.

Lemma insertion_sort_spec a pl pr :
  pl <= pr -> pr < length a ->
  arr_step pl pr a (insertion_sort lt a pl pr) /\
  sorted_range lt (insertion_sort lt a pl pr) pl (S pr).
Proof.
  intros Hl Hr. unfold insertion_sort.
  destruct (insert_from_spec (pr - pl) a pl (S pl)) as [HA HS]; try lia.
  - intros i j Hi Hij Hj. replace j with pl by lia. replace i with pl by lia.
    apply le_refl.
  - replace (S pl + (pr - pl) - 1) with pr in HA by lia.
    replace (S pl + (pr - pl)) with (S pr) in HS by lia. auto.
Qed.

End InsertionSort.

(* ===================================================================== *)
(** * 28. The quicksort partition                                      *)
(* ===================================================================== *)

Section Partition.

Variable lt : nat -> nat -> bool.
Hypothesis lt_order : strict_weak_order lt.

Let le_refl := le_refl lt lt_order.
Let le_trans := le_trans lt lt_order.
Let lt_le := lt_le lt lt_order.

(** The upward scan stops at the first cell that is not below the pivot;
    a cell [s] that is not below it bounds the scan. *)
Lemma scan_up_spec (a : list nat) (p : nat) (fuel : nat) :
  forall pi s,
    pi < s -> s <= pi + fuel -> lt (aget a s) p = false ->
    let r := scan_up lt a p pi fuel in
    pi < r /\ r <= s /\ lt (aget a r) p = false /\
    forall k, pi < k < r -> lt (aget a k) p = true.
Proof.
  induction fuel as [|f IH]; intros pi s H1 H2 H3; [lia|].
  cbn [scan_up]. destruct (lt (aget a (S pi)) p) eqn:E.
  - assert (Hs : S pi < s).
    { destruct (Nat.eq_dec (S pi) s) as [<-|]; [congruence | lia]. }
    destruct (IH (S pi) s Hs ltac:(lia) H3) as (R1 & R2 & R3 & R4).
    cbv zeta. refine (conj _ (conj R2 (conj R3 _))); [lia|].
    intros k Hk. destruct (Nat.eq_dec k (S pi)) as [->|]; [exact E|].
    apply R4. lia.
  - cbv zeta. refine (conj _ (conj _ (conj E _))); lia.
Qed.

(** The downward scan stops at the first cell that is not above the
    pivot. *)
Lemma scan_down_spec (a : list nat) (p : nat) :
  forall pj s,
    s < pj -> lt p (aget a s) = false ->
    let r := scan_down lt a p pj in
    s <= r /\ r < pj /\ lt p (aget a r) = false /\
    forall k, r < k < pj -> lt p (aget a k) = true.
Proof.
  induction pj as [|pj IH]; intros s H1 H2; [lia|].
  cbn [scan_down]. destruct (lt p (aget a pj)) eqn:E.
  - assert (Hs : s < pj).
    { destruct (Nat.eq_dec s pj) as [->|]; [congruence | lia]. }
    destruct (IH s Hs H2) as (R1 & R2 & R3 & R4).
    cbv zeta. refine (conj R1 (conj _ (conj R3 _))); [lia|].
    intros k Hk. destruct (Nat.eq_dec k pj) as [->|]; [exact E|].
    apply R4. lia.
  - cbv zeta. refine (conj _ (conj _ (conj E _))); lia.
Qed.

Lemma part_loop_spec (p pl pr : nat) (fuel : nat) :
  forall a pi pj,
    part_inv lt a p pl pr pi pj -> pj - pi <= fuel ->
    let a' := fst (part_loop lt a p pi pj fuel) in
    let r := snd (part_loop lt a p pi pj fuel) in
    arr_step pl pr a a' /\ pl < r /\ S r <= pr /\
    aget a' (pr - 1) = p /\
    (forall k, pl <= k < r -> le lt (aget a' k) p) /\
    (forall k, r <= k <= pr -> le lt p (aget a' k)).
Proof.
  induction fuel as [|f IH]; intros a pi pj
    (I1 & I2 & I3 & I4 & I5 & I6 & I7) Hf; [lia|].
  cbn [part_loop].
  destruct (scan_up_spec a p (length a) pi pj I2 ltac:(lia)
              (I7 pj ltac:(lia))) as (U1 & U2 & U3 & U4).
  destruct (scan_down_spec a p pj pi I2 (I6 pi ltac:(lia)))
    as (D1 & D2 & D3 & D4).
  set (pi' := scan_up lt a p pi (length a)) in *.
  set (pj' := scan_down lt a p pj) in *.
  destruct (Nat.leb pj' pi') eqn:C.
  - apply Nat.leb_le in C. cbn [fst snd].
    refine (conj (arr_step_refl _ _ _) (conj _ (conj _ (conj I5 (conj _ _)))));
      try lia.
    + intros k Hk. destruct (Nat.le_gt_cases k pi) as [Hki|Hki].
      * apply I6. lia.
      * apply lt_le. apply U4. lia.
    + intros k Hk. destruct (Nat.le_gt_cases pj k) as [Hkj|Hkj].
      * apply I7. lia.
      * destruct (Nat.eq_dec k pj') as [->|Hne].
        -- assert (pi' = pj') by lia. unfold le. congruence.
        -- apply lt_le. apply D4. lia.
  - apply Nat.leb_gt in C.
    assert (Hinv : part_inv lt (swap a pi' pj') p pl pr pi' pj').
    { assert (L : length (swap a pi' pj') = length a)
        by (unfold swap; now rewrite !length_aset).
      unfold part_inv. rewrite L.
      refine (conj _ (conj C (conj _ (conj I4 (conj _ (conj _ _))))));
        try lia.
      - rewrite aget_swap by lia.
        destruct (Nat.eqb_spec (pr - 1) pj'); [lia|].
        destruct (Nat.eqb_spec (pr - 1) pi'); [lia|]. exact I5.
      - intros k Hk. rewrite aget_swap by lia.
        destruct (Nat.eqb_spec k pj'); [lia|].
        destruct (Nat.eqb_spec k pi') as [->|Hne]; [exact D3|].
        destruct (Nat.le_gt_cases k pi) as [Hki|Hki].
        + apply I6. lia.
        + apply lt_le. apply U4. lia.
      - intros k Hk. rewrite aget_swap by lia.
        destruct (Nat.eqb_spec k pj') as [->|Hne]; [exact U3|].
        destruct (Nat.eqb_spec k pi'); [lia|].
        destruct (Nat.le_gt_cases pj k) as [Hkj|Hkj].
        + apply I7. lia.
        + apply lt_le. apply D4. lia. }
    destruct (IH (swap a pi' pj') pi' pj' Hinv ltac:(lia))
      as (R1 & R2 & R3 & R4 & R5 & R6).
    cbv zeta. refine (conj _ (conj R2 (conj R3 (conj R4 (conj R5 R6))))).
    apply arr_step_trans with (b := swap a pi' pj'); [|exact R1].
    apply swap_arr_step; lia.
Qed.

(** A swap made when the first cell is below the second. *)
Lemma cond_swap_spec (a : list nat) (pl pr i j : nat) :
  i <> j -> pl <= i <= pr -> pl <= j <= pr -> pr < length a ->
  let b := if lt (aget a i) (aget a j) then swap a i j else a in
  arr_step pl pr a b /\ le lt (aget b j) (aget b i) /\
  (forall k, k <> i -> k <> j -> aget b k = aget a k) /\
  ((aget b i = aget a i /\ aget b j = aget a j) \/
   (aget b i = aget a j /\ aget b j = aget a i)).
Proof.
  intros Hij Hi Hj Hr. destruct (lt (aget a i) (aget a j)) eqn:E; cbv zeta.
  - refine (conj (swap_arr_step pl pr a i j Hi Hj Hr) (conj _ (conj _ _))).
    + rewrite !aget_swap by lia. rewrite Nat.eqb_refl.
      destruct (Nat.eqb_spec i j); [lia|]. rewrite Nat.eqb_refl.
      now apply lt_le.
    + intros k Hki Hkj. rewrite aget_swap by lia.
      destruct (Nat.eqb_spec k j); [lia|].
      destruct (Nat.eqb_spec k i); [lia|]. reflexivity.
    + right. rewrite !aget_swap by lia. rewrite !Nat.eqb_refl.
      destruct (Nat.eqb_spec i j); [lia|]. auto.
  - refine (conj (arr_step_refl _ _ _) (conj E (conj _ _))); auto.
Qed.

Lemma partition_spec (a : list nat) (pl pr : nat) :
  16 < pr - pl -> pr < length a ->
  let a' := fst (partition lt a pl pr) in
  let pi := snd (partition lt a pl pr) in
  arr_step pl pr a a' /\ pl < pi /\ pi < pr /\
  (forall k, pl <= k < pi -> le lt (aget a' k) (aget a' pi)) /\
  (forall k, pi < k <= pr -> le lt (aget a' pi) (aget a' k)).
Proof.
  intros Hsz Hr. unfold partition.
  set (pm := pl + Nat.div2 (pr - pl)).
  assert (Hpm : pl < pm /\ pm < pr - 1).
  { unfold pm. pose proof (Nat.div2_odd (pr - pl)) as H.
    destruct (Nat.odd (pr - pl)); simpl in H; lia. }
  destruct (cond_swap_spec a pl pr pm pl) as (A1 & O1 & K1 & C1); try lia.
  set (a1 := if lt (aget a pm) (aget a pl) then swap a pm pl else a) in *.
  assert (L1 : length a1 = length a) by exact (arr_step_length _ _ _ _ A1).
  destruct (cond_swap_spec a1 pl pr pr pm) as (A2 & O2 & K2 & C2); try lia.
  set (a2 := if lt (aget a1 pr) (aget a1 pm) then swap a1 pr pm else a1) in *.
  assert (L2 : length a2 = length a1) by exact (arr_step_length _ _ _ _ A2).
  destruct (cond_swap_spec a2 pl pr pm pl) as (A3 & O3 & K3 & C3); try lia.
  set (a3 := if lt (aget a2 pm) (aget a2 pl) then swap a2 pm pl else a2) in *.
  assert (L3 : length a3 = length a2) by exact (arr_step_length _ _ _ _ A3).
  assert (Hlow : le lt (aget a1 pl) (aget a2 pr)).
  { destruct C2 as [[E1 E2]|[E1 E2]].
    - rewrite E1. apply le_trans with (y := aget a1 pm); auto.
      rewrite <- E2, <- E1. exact O2.
    - rewrite E1. exact O1. }
  assert (Hhigh : le lt (aget a3 pm) (aget a3 pr)).
  { rewrite (K3 pr) by lia. destruct C3 as [[E1 E2]|[E1 E2]].
    - rewrite E1. exact O2.
    - rewrite E1. rewrite (K2 pl) by lia. exact Hlow. }
  set (p := aget a3 pm).
  set (a4 := swap a3 pm (pr - 1)).
  assert (L4 : length a4 = length a3)
    by (unfold a4, swap; now rewrite !length_aset).
  assert (A4 : arr_step pl pr a3 a4) by (apply swap_arr_step; lia).
  assert (Hinv : part_inv lt a4 p pl pr pl (pr - 1)).
  { unfold part_inv. refine (conj _ (conj _ (conj _ (conj _ (conj _ (conj _ _))))));
      try lia.
    - unfold a4. rewrite aget_swap by lia. now rewrite Nat.eqb_refl.
    - intros k Hk. replace k with pl by lia. unfold a4.
      rewrite aget_swap by lia.
      destruct (Nat.eqb_spec pl (pr - 1)); [lia|].
      destruct (Nat.eqb_spec pl pm); [lia|]. exact O3.
    - intros k Hk. unfold a4. rewrite aget_swap by lia.
      destruct (Nat.eqb_spec k (pr - 1)); [apply le_refl|].
      destruct (Nat.eqb_spec k pm); [lia|].
      replace k with pr by lia. exact Hhigh. }
  destruct (part_loop_spec p pl pr (length a4) a4 pl (pr - 1) Hinv
              ltac:(lia)) as (R1 & R2 & R3 & R4 & R5 & R6).
  destruct (part_loop lt a4 p pl (pr - 1) (length a4)) as [a5 pi].
  cbn [fst snd] in *.
  assert (L5 : length a5 = length a4) by exact (arr_step_length _ _ _ _ R1).
  assert (Epi : aget (swap a5 pi (pr - 1)) pi = p).
  { rewrite aget_swap by lia.
    destruct (Nat.eqb_spec pi (pr - 1)) as [->|]; [exact R4|].
    rewrite Nat.eqb_refl. exact R4. }
  refine (conj _ (conj R2 (conj _ (conj _ _)))); try lia.
  - apply arr_step_trans with (b := a5).
    + apply arr_step_trans with (b := a4); auto.
      apply arr_step_trans with (b := a3); auto.
      apply arr_step_trans with (b := a2); auto.
      apply arr_step_trans with (b := a1); auto.
    + apply swap_arr_step; lia.
  - intros k Hk. rewrite Epi. rewrite aget_swap by lia.
    destruct (Nat.eqb_spec k (pr - 1)); [lia|].
    destruct (Nat.eqb_spec k pi); [lia|]. apply R5. lia.
  - intros k Hk. rewrite Epi. rewrite aget_swap by lia.
    destruct (Nat.eqb_spec k (pr - 1)); [apply R6; lia|].
    destruct (Nat.eqb_spec k pi); [lia|]. apply R6. lia.
Qed.

End Partition.

(* ===================================================================== *)
(** * 29. Heapsort                                                     *)
(* ===================================================================== *)

Section Heapsort.

Variable lt : nat -> nat -> bool.
Hypothesis lt_order : strict_weak_order lt.

Let le_refl := le_refl lt lt_order.
Let le_trans := le_trans lt lt_order.
Let lt_le := lt_le lt lt_order.

Lemma hget_hset_same a off k x :
  1 <= k -> off + k <= length a -> hget (hset a off k x) off k = x.
Proof. intros. unfold hget, hset. apply aget_aset_same. lia. Qed.

Lemma hget_hset_other a off k k' x :
  1 <= k -> 1 <= k' -> k <> k' ->
  hget (hset a off k x) off k' = hget a off k'.
Proof. intros. unfold hget, hset. apply aget_aset_other. lia. Qed.

Lemma length_hset a off k x : length (hset a off k x) = length a.
Proof. apply length_aset. Qed.

(** Moving the hole from [i] to [j] is a swap of the array the hole is
    filled in. *)
Lemma hole_move a off i j tmp :
  1 <= i -> 1 <= j -> i <> j -> off + i <= length a -> off + j <= length a ->
  hset (hset a off i (hget a off j)) off j tmp =
  swap (hset a off i tmp) (off + i - 1) (off + j - 1).
Proof.
  intros. unfold hset, hget, swap.
  rewrite (aget_aset_other a (off + i - 1) (off + j - 1)) by lia.
  rewrite aget_aset_same by lia. now rewrite aset_aset_same.
Qed.

Lemma sift_spec (off lo n tmp : nat) (fuel : nat) :
  forall a i,
    1 <= lo -> lo <= i -> i <= n -> off + n <= length a -> n < i + fuel ->
    heap_but lt (hset a off i tmp) off lo n i ->
    let r := sift lt a off tmp i (i + i) n fuel in
    arr_step (off + i - 1) (off + n - 1) (hset a off i tmp) r /\
    heap_from lt r off lo n.
Proof.
  induction fuel as [|f IH]; intros a i Hlo Hi Hn Hlen Hf Hb; [lia|].
  cbn [sift]. set (b := hset a off i tmp) in *.
  assert (Lb : length b = length a) by apply length_hset.
  assert (Bi : hget b off i = tmp) by (apply hget_hset_same; lia).
  assert (Bo : forall k, 1 <= k -> k <> i -> hget b off k = hget a off k)
    by (intros; apply hget_hset_other; lia).
  destruct (Nat.leb (i + i) n) eqn:C.
  2:{ apply Nat.leb_gt in C. cbv zeta.
      split; [apply arr_step_refl|].
      intros k Hk. destruct (Nat.eq_dec k i) as [->|Hne].
      - split; intros; lia.
      - now apply (proj1 Hb). }
  apply Nat.leb_le in C.
  set (j := if Nat.ltb (i + i) n
                 && lt (hget a off (i + i)) (hget a off (S (i + i)))
            then S (i + i) else i + i).
  assert (Hj : (j = i + i \/ j = S (i + i)) /\ j <= n /\
               le lt (hget b off (2 * i)) (hget b off j) /\
               (2 * i + 1 <= n ->
                le lt (hget b off (2 * i + 1)) (hget b off j))).
  { unfold j.
    destruct (Nat.ltb (i + i) n
              && lt (hget a off (i + i)) (hget a off (S (i + i)))) eqn:E.
    - apply andb_true_iff in E as [E1 E2]. apply Nat.ltb_lt in E1.
      refine (conj (or_intror eq_refl) (conj E1 (conj _ _))).
      + rewrite !Bo by lia. replace (2 * i) with (i + i) by lia.
        now apply lt_le.
      + intros _. replace (2 * i + 1) with (S (i + i)) by lia.
        apply le_refl.
    - refine (conj (or_introl eq_refl) (conj C (conj _ _))).
      + replace (2 * i) with (i + i) by lia. apply le_refl.
      + intros H. apply andb_false_iff in E as [E|E];
          [apply Nat.ltb_ge in E; lia|].
        rewrite !Bo by lia.
        replace (2 * i + 1) with (S (i + i)) by lia.
        replace (2 * i) with (i + i) by lia.
        exact E. }
  destruct Hj as (Hj1 & Hj2 & Hj3 & Hj4).
  assert (Hji : j <> i) by lia. assert (Hj0 : 1 <= j) by lia.
  fold j. destruct (lt tmp (hget a off j)) eqn:T.
  - (* the larger child moves up *)
    set (a1 := hset a off i (hget a off j)).
    assert (E1 : hset a1 off j tmp =
                 swap b (off + i - 1) (off + j - 1))
      by (apply hole_move; lia).
    assert (S1 : arr_step (off + i - 1) (off + n - 1) b
                   (hset a1 off j tmp))
      by (rewrite E1; apply swap_arr_step; lia).
    set (b' := hset a1 off j tmp) in *.
    assert (B'j : hget b' off j = tmp)
      by (apply hget_hset_same; [lia | unfold a1; rewrite length_hset; lia]).
    assert (B'i : hget b' off i = hget a off j).
    { unfold b'. rewrite hget_hset_other by lia. unfold a1.
      apply hget_hset_same; lia. }
    assert (B'o : forall k, 1 <= k -> k <> i -> k <> j ->
                            hget b' off k = hget b off k).
    { intros k K1 K2 K3. unfold b'. rewrite hget_hset_other by lia.
      unfold a1. rewrite hget_hset_other by lia. symmetry. now apply Bo. }
    assert (Hb' : heap_but lt b' off lo n j).
    { destruct Hb as [Hb1 Hb2]. split.
      - intros k Hk Hkj. destruct (Nat.eq_dec k i) as [->|Hki].
        + (* the parent of the two children *)
          rewrite <- (Bo j) in B'i by lia.
          split; intros Hc.
          * rewrite B'i.
            destruct Hj1 as [Hj1|Hj1].
            -- replace (2 * i) with j by lia. rewrite B'j, Bo by lia.
               now apply lt_le.
            -- rewrite B'o by lia. exact Hj3.
          * rewrite B'i.
            destruct Hj1 as [Hj1|Hj1].
            -- rewrite B'o by lia. apply Hj4. lia.
            -- replace (2 * i + 1) with j by lia. rewrite B'j, Bo by lia.
               now apply lt_le.
        + destruct (Hb1 k Hk Hki) as [H1 H2].
          assert (Ek : hget b' off k = hget b off k) by (apply B'o; lia).
          split; intros Hc.
          * destruct (Nat.eq_dec (2 * k) i) as [Ei|Ei].
            -- rewrite Ei, B'i, Ek, <- (Bo j) by lia.
               destruct (Hb2 k Hk (or_introl (eq_sym Ei))) as [G1 G2].
               destruct Hj1 as [Hj1|Hj1].
               ++ replace j with (2 * i) by lia. apply G1. lia.
               ++ replace j with (2 * i + 1) by lia. apply G2. lia.
            -- rewrite B'o, Ek by lia. now apply H1.
          * destruct (Nat.eq_dec (2 * k + 1) i) as [Ei|Ei].
            -- rewrite Ei, B'i, Ek, <- (Bo j) by lia.
               destruct (Hb2 k Hk (or_intror (eq_sym Ei))) as [G1 G2].
               destruct Hj1 as [Hj1|Hj1].
               ++ replace j with (2 * i) by lia. apply G1. lia.
               ++ replace j with (2 * i + 1) by lia. apply G2. lia.
            -- rewrite B'o, Ek by lia. now apply H2.
      - intros q Hq Hqj. assert (q = i) by lia. subst q.
        rewrite B'i, <- (Bo j) by lia.
        destruct (Hb1 j ltac:(lia) Hji) as [H1 H2].
        split; intros Hc; rewrite B'o by lia; auto. }
    destruct (IH a1 j Hlo ltac:(lia) Hj2
                ltac:(unfold a1; rewrite length_hset; lia) ltac:(lia) Hb')
      as [R1 R2].
    replace (j + j) with (j + j) in * by lia.
    cbv zeta in R1, R2 |- *. split; [|exact R2].
    apply arr_step_trans with (b := b'); [exact S1|].
    apply arr_step_widen with (pl := off + j - 1) (pr := off + n - 1);
      auto; lia.
  - (* the value rests at [i] *)
    split; [apply arr_step_refl|].
    intros k Hk. destruct (Nat.eq_dec k i) as [->|Hne];
      [|now apply (proj1 Hb)].
    assert (Tj : le lt (hget b off j) (hget b off i))
      by (rewrite Bi, Bo by lia; exact T).
    split; intros Hc.
    + apply le_trans with (y := hget b off j); auto.
    + apply le_trans with (y := hget b off j); auto.
Qed.

Lemma hset_hget_id a off k : hset a off k (hget a off k) = a.
Proof. unfold hset, hget. apply aset_aget_id. Qed.

Lemma heapify_spec (off n : nat) (l : nat) :
  forall a,
    l <= n -> off + n <= length a -> heap_from lt a off (S l) n ->
    arr_step off (off + n - 1) a (heapify lt a off n l) /\
    heap_from lt (heapify lt a off n l) off 1 n.
Proof.
  induction l as [|l IH]; intros a Hl Hlen Hh; cbn [heapify].
  - split; [apply arr_step_refl | exact Hh].
  - assert (Hb : heap_but lt (hset a off (S l) (hget a off (S l)))
                   off (S l) n (S l)).
    { rewrite hset_hget_id. split.
      - intros k Hk Hne. apply Hh. lia.
      - intros q Hq Hc. lia. }
    destruct (sift_spec off (S l) n (hget a off (S l)) n a (S l)
                ltac:(lia) ltac:(lia) Hl Hlen ltac:(lia) Hb) as [R1 R2].
    cbv zeta in R1, R2. rewrite hset_hget_id in R1.
    set (a1 := sift lt a off (hget a off (S l)) (S l) (S l + S l) n n) in *.
    assert (L1 : length a1 = length a)
      by exact (arr_step_length _ _ _ _ R1).
    destruct (IH a1 ltac:(lia) ltac:(lia) R2) as [R3 R4].
    split; [|exact R4].
    apply arr_step_trans with (b := a1); [|exact R3].
    apply arr_step_widen with (pl := off + S l - 1) (pr := off + n - 1);
      auto; lia.
Qed.

(** The root of a heap is above every cell. *)
Lemma heap_root_max a off n :
  heap_from lt a off 1 n ->
  forall k, 1 <= k <= n -> le lt (hget a off k) (hget a off 1).
Proof.
  intros Hh k. induction k as [k IH] using lt_wf_ind. intros Hk.
  destruct (Nat.eq_dec k 1) as [->|Hne]; [apply le_refl|].
  set (q := Nat.div2 k).
  assert (Hq : k = 2 * q \/ k = 2 * q + 1).
  { unfold q. pose proof (Nat.div2_odd k) as H.
    destruct (Nat.odd k); simpl in H; lia. }
  assert (Hq1 : 1 <= q < k) by lia.
  apply le_trans with (y := hget a off q); [|apply IH; lia].
  destruct (Hh q ltac:(lia)) as [H1 H2].
  destruct Hq as [Hq|Hq]; rewrite Hq at 1; [apply H1 | apply H2]; lia.
Qed.

Lemma heap_pop_spec (off total : nat) (n : nat) :
  forall a,
    n <= total -> off + total <= length a ->
    heap_from lt a off 1 n ->
    (forall k1 k2, 1 <= k1 -> k1 <= k2 -> n < k2 -> k2 <= total ->
                   le lt (hget a off k1) (hget a off k2)) ->
    arr_step off (off + total - 1) a (heap_pop lt a off n) /\
    (forall k1 k2, 1 <= k1 -> k1 <= k2 -> k2 <= total ->
                   le lt (hget (heap_pop lt a off n) off k1)
                         (hget (heap_pop lt a off n) off k2)).
Proof.
  induction n as [|n' IH]; intros a Hn Hlen Hh Ht.
  - cbn [heap_pop]. split; [apply arr_step_refl|].
    intros k1 k2 H1 H2 H3. apply Ht; lia.
  - cbn [heap_pop]. destruct n' as [|m].
    + split; [apply arr_step_refl|].
      intros k1 k2 H1 H2 H3.
      destruct (Nat.eq_dec k2 1) as [->|Hne];
        [replace k1 with 1 by lia; apply le_refl | apply Ht; lia].
    + set (n := S (S m)) in *. set (n' := S m) in *.
      set (tmp := hget a off n).
      set (a1 := hset a off n (hget a off 1)).
      assert (L1 : length a1 = length a) by apply length_hset.
      set (b := hset a1 off 1 tmp).
      assert (Lb : length b = length a)
        by (unfold b; now rewrite length_hset).
      assert (Eb : b = swap a (off + n - 1) (off + 1 - 1)).
      { unfold b, a1, tmp, hset, hget, swap. reflexivity. }
      assert (Sb : arr_step off (off + total - 1) a b)
        by (rewrite Eb; apply swap_arr_step; lia).
      assert (B1 : hget b off 1 = hget a off n)
        by (unfold b; apply hget_hset_same; lia).
      assert (Bn : hget b off n = hget a off 1).
      { unfold b. rewrite hget_hset_other by lia. unfold a1.
        apply hget_hset_same; lia. }
      assert (Bo : forall k, 1 <= k -> k <> 1 -> k <> n ->
                             hget b off k = hget a off k).
      { intros k K1 K2 K3. unfold b. rewrite hget_hset_other by lia.
        unfold a1. now rewrite hget_hset_other by lia. }
      assert (Hb : heap_but lt b off 1 n' 1).
      { split.
        - intros k Hk Hne. destruct (Hh k Hk) as [H1 H2].
          split; intros Hc; rewrite !Bo by lia; [apply H1 | apply H2]; lia.
        - intros q Hq Hc. lia. }
      destruct (sift_spec off 1 n' tmp n' a1 1 ltac:(lia) ltac:(lia)
                  ltac:(lia) ltac:(lia) ltac:(lia) Hb) as [R1 R2].
      cbv zeta in R1, R2. change (1 + 1) with 2 in *. fold b in R1.
      set (r1 := sift lt a1 off tmp 1 2 n' n') in *.
      assert (Lr : length r1 = length a)
        by (rewrite (arr_step_length _ _ _ _ R1); exact Lb).
      assert (Ro : forall k, n' < k -> hget r1 off k = hget b off k).
      { intros k Hk. unfold hget. apply (proj2 R1). lia. }
      assert (Rin : forall (P : nat -> Prop),
                 (forall k, 1 <= k <= n' -> P (hget b off k)) ->
                 forall k, 1 <= k <= n' -> P (hget r1 off k)).
      { intros P HP k Hk. unfold hget.
        apply (arr_step_forall P (off + 1 - 1) (off + n' - 1) b r1);
          try lia; auto.
        intros i Hi. replace i with (off + (i + 1 - off) - 1) by lia.
        apply (HP (i + 1 - off)). lia. }
      assert (Hroot := heap_root_max a off n Hh).
      destruct (IH r1 ltac:(lia) ltac:(lia) R2) as [R3 R4].
      { intros k1 k2 H1 H2 H3 H4.
        destruct (Nat.eq_dec k2 n) as [->|Hk2].
        - rewrite (Ro n) by lia. rewrite Bn.
          destruct (Nat.eq_dec k1 n) as [->|Hk1];
            [rewrite (Ro n) by lia; rewrite Bn; apply le_refl|].
          apply (Rin (fun v => le lt v (hget a off 1))); [|lia].
          intros k Hk. destruct (Nat.eq_dec k 1) as [->|Hne].
          + rewrite B1. apply Hroot. lia.
          + rewrite Bo by lia. apply Hroot. lia.
        - rewrite (Ro k2) by lia. rewrite (Bo k2) by lia.
          destruct (Nat.le_gt_cases k1 n') as [Hk1|Hk1].
          + apply (Rin (fun v => le lt v (hget a off k2))); [|lia].
            intros k Hk. destruct (Nat.eq_dec k 1) as [->|Hne].
            * rewrite B1. apply Ht; lia.
            * rewrite Bo by lia. apply Ht; lia.
          + rewrite (Ro k1) by lia.
            destruct (Nat.eq_dec k1 n) as [->|Hk1'].
            * rewrite Bn. apply Ht; lia.
            * rewrite Bo by lia. apply Ht; lia. }
      split; [|exact R4].
      apply arr_step_trans with (b := r1); [|exact R3].
      apply arr_step_trans with (b := b); [exact Sb|].
      apply arr_step_widen with (pl := off + 1 - 1) (pr := off + n' - 1);
        auto; lia.
Qed.

Lemma heapsort_spec (a : list nat) (off n : nat) :
  off + n <= length a ->
  arr_step off (off + n - 1) a (heapsort lt a off n) /\
  sorted_range lt (heapsort lt a off n) off (off + n).
Proof.
  intros Hlen. unfold heapsort.
  assert (Hd : Nat.div2 n <= n /\ n < 2 * S (Nat.div2 n)).
  { pose proof (Nat.div2_odd n) as H.
    destruct (Nat.odd n); simpl in H; lia. }
  destruct (heapify_spec off n (Nat.div2 n) a ltac:(lia) Hlen) as [R1 R2].
  { intros k Hk. split; intros; lia. }
  set (a1 := heapify lt a off n (Nat.div2 n)) in *.
  assert (L1 : length a1 = length a) by exact (arr_step_length _ _ _ _ R1).
  destruct (heap_pop_spec off n n a1 ltac:(lia) ltac:(lia) R2) as [R3 R4].
  { intros; lia. }
  split.
  - apply arr_step_trans with (b := a1); auto.
  - intros i j Hi Hij Hj.
    replace i with (off + (i + 1 - off) - 1) by lia.
    replace j with (off + (j + 1 - off) - 1) by lia.
    apply R4; lia.
Qed.

End Heapsort.

(* ===================================================================== *)
(** * 30. numpy's quicksort sorts                                      *)
(* ===================================================================== *)

Section Quicksort.

Variable lt : nat -> nat -> bool.
Hypothesis lt_order : strict_weak_order lt.

Let le_refl := le_refl lt lt_order.
Let le_trans := le_trans lt lt_order.

(** Two ranges that do not meet, sorted one after the other. *)
Lemma two_ranges (a1 a2 a3 : list nat) (l1 r1 l2 r2 : nat) :
  l1 <= S r1 -> l2 <= S r2 -> r1 < l2 \/ r2 < l1 ->
  r1 < length a1 -> r2 < length a1 ->
  arr_step l1 r1 a1 a2 -> sorted_range lt a2 l1 (S r1) ->
  arr_step l2 r2 a2 a3 -> sorted_range lt a3 l2 (S r2) ->
  sorted_range lt a3 l1 (S r1) /\
  (forall P : nat -> Prop,
     (forall k, l1 <= k <= r1 -> P (aget a1 k)) ->
     forall k, l1 <= k <= r1 -> P (aget a3 k)) /\
  (forall P : nat -> Prop,
     (forall k, l2 <= k <= r2 -> P (aget a1 k)) ->
     forall k, l2 <= k <= r2 -> P (aget a3 k)) /\
  (forall k, (k < l1 \/ r1 < k) -> (k < l2 \/ r2 < k) ->
             aget a3 k = aget a1 k).
Proof.
  intros H1 H2 Hd Hr1 Hr2 S1 O1 S2 O2.
  assert (L2 : length a2 = length a1)
    by exact (arr_step_length _ _ _ _ S1).
  assert (E32 : forall k, l1 <= k <= r1 -> aget a3 k = aget a2 k)
    by (intros k Hk; apply (proj2 S2); lia).
  assert (E21 : forall k, l2 <= k <= r2 -> aget a2 k = aget a1 k)
    by (intros k Hk; apply (proj2 S1); lia).
  refine (conj _ (conj _ (conj _ _))).
  - apply sorted_range_ext with (a := a2); auto.
    intros k Hk. apply E32. lia.
  - intros P HP k Hk. rewrite E32 by lia.
    apply (arr_step_forall P l1 r1 a1 a2); auto.
  - intros P HP k Hk.
    apply (arr_step_forall P l2 r2 a2 a3); auto; try lia.
    intros i Hi. rewrite E21 by lia. now apply HP.
  - intros k K1 K2. rewrite (proj2 S2) by lia. now apply (proj2 S1).
Qed.

(** A sorted range below the pivot, the pivot, a sorted range above. *)
Lemma around_pivot (a : list nat) (pl pi pr : nat) :
  pl < pi -> pi < pr ->
  sorted_range lt a pl pi -> sorted_range lt a (S pi) (S pr) ->
  (forall k, pl <= k <= pi - 1 -> le lt (aget a k) (aget a pi)) ->
  (forall k, S pi <= k <= pr -> le lt (aget a pi) (aget a k)) ->
  sorted_range lt a pl (S pr).
Proof.
  intros H1 H2 SL SR HL HR i j Hi Hij Hj.
  destruct (Nat.lt_trichotomy i pi) as [Ci|[Ci|Ci]];
    destruct (Nat.lt_trichotomy j pi) as [Cj|[Cj|Cj]]; try lia.
  - apply SL; lia.
  - subst j. apply HL. lia.
  - apply le_trans with (y := aget a pi); [apply HL | apply HR]; lia.
  - subst. apply le_refl.
  - subst i. apply HR. lia.
  - apply SR; lia.
Qed.

Lemma qs_spec (fuel : nat) :
  forall check a pl pr cdepth,
    pl <= pr -> pr < length a -> pr - pl < fuel ->
    arr_step pl pr a (qs lt fuel check a pl pr cdepth) /\
    sorted_range lt (qs lt fuel check a pl pr cdepth) pl (S pr).
Proof.
  induction fuel as [|f IH]; intros check a pl pr cdepth Hl Hr Hf; [lia|].
  cbn [qs]. destruct (check && (cdepth <? 0)%Z).
  { destruct (heapsort_spec lt lt_order a pl (pr - pl + 1) ltac:(lia))
      as [R1 R2].
    replace (pl + (pr - pl + 1) - 1) with pr in R1 by lia.
    replace (pl + (pr - pl + 1)) with (S pr) in R2 by lia. auto. }
  destruct (Nat.ltb 16 (pr - pl)) eqn:C.
  2:{ now apply insertion_sort_spec. }
  apply Nat.ltb_lt in C.
  destruct (partition_spec lt lt_order a pl pr C Hr)
    as (P1 & P2 & P3 & P4 & P5).
  destruct (partition lt a pl pr) as [a1 pi]. cbn [fst snd] in *.
  assert (L1 : length a1 = length a) by exact (arr_step_length _ _ _ _ P1).
  destruct (Nat.ltb (pi - pl) (pr - pi)).
  - destruct (IH false a1 pl (pi - 1) (cdepth - 1)%Z
                ltac:(lia) ltac:(lia) ltac:(lia)) as [A2 S2].
    set (a2 := qs lt f false a1 pl (pi - 1) (cdepth - 1)) in *.
    assert (L2 : length a2 = length a1)
      by exact (arr_step_length _ _ _ _ A2).
    destruct (IH true a2 (pi + 1) pr (cdepth - 1)%Z
                ltac:(lia) ltac:(lia) ltac:(lia)) as [A3 S3].
    set (a3 := qs lt f true a2 (pi + 1) pr (cdepth - 1)) in *.
    replace (S (pi - 1)) with pi in S2 by lia.
    destruct (two_ranges a1 a2 a3 pl (pi - 1) (pi + 1) pr)
      as (T1 & T2 & T3 & T4); try lia; auto.
    { now replace (S (pi - 1)) with pi by lia. }
    replace (S (pi - 1)) with pi in T1 by lia.
    assert (Ep : aget a3 pi = aget a1 pi) by (apply T4; lia).
    split.
    + apply arr_step_trans with (b := a1); auto.
      apply arr_step_trans with (b := a2).
      * apply arr_step_widen with (pl := pl) (pr := pi - 1); auto; lia.
      * apply arr_step_widen with (pl := pi + 1) (pr := pr); auto; lia.
    + apply around_pivot with (pi := pi); auto.
      * replace (S pi) with (pi + 1) by lia. exact S3.
      * rewrite Ep. apply (T2 (fun v => le lt v (aget a1 pi))).
        intros k Hk. apply P4. lia.
      * rewrite Ep. intros k Hk.
        apply (T3 (fun v => le lt (aget a1 pi) v)); [|lia].
        intros i Hi. apply P5. lia.
  - destruct (IH false a1 (pi + 1) pr (cdepth - 1)%Z
                ltac:(lia) ltac:(lia) ltac:(lia)) as [A2 S2].
    set (a2 := qs lt f false a1 (pi + 1) pr (cdepth - 1)) in *.
    assert (L2 : length a2 = length a1)
      by exact (arr_step_length _ _ _ _ A2).
    destruct (IH true a2 pl (pi - 1) (cdepth - 1)%Z
                ltac:(lia) ltac:(lia) ltac:(lia)) as [A3 S3].
    set (a3 := qs lt f true a2 pl (pi - 1) (cdepth - 1)) in *.
    replace (S (pi - 1)) with pi in S3 by lia.
    destruct (two_ranges a1 a2 a3 (pi + 1) pr pl (pi - 1))
      as (T1 & T2 & T3 & T4); try lia; auto.
    { now replace (S (pi - 1)) with pi by lia. }
    assert (Ep : aget a3 pi = aget a1 pi) by (apply T4; lia).
    split.
    + apply arr_step_trans with (b := a1); auto.
      apply arr_step_trans with (b := a2).
      * apply arr_step_widen with (pl := pi + 1) (pr := pr); auto; lia.
      * apply arr_step_widen with (pl := pl) (pr := pi - 1); auto; lia.
    + apply around_pivot with (pi := pi); auto.
      * replace (S pi) with (pi + 1) by lia. exact T1.
      * rewrite Ep. apply (T3 (fun v => le lt v (aget a1 pi))).
        intros k Hk. apply P4. lia.
      * rewrite Ep. intros k Hk.
        apply (T2 (fun v => le lt (aget a1 pi) v)); [|lia].
        intros i Hi. apply P5. lia.
Qed.

(** [aquicksort] returns the row numbers [0 .. num - 1] in the order of
    their keys. *)
Theorem aquicksort_sorts (num : nat) :
  Permutation (aquicksort lt num) (seq 0 num) /\
  sorted_range lt (aquicksort lt num) 0 num.
Proof.
  destruct num as [|n]; cbn [aquicksort].
  - split; [constructor | intros i j; lia].
  - destruct (qs_spec (S (S n)) true (seq 0 (S n)) 0 n
                (npy_get_msb (S n) * 2)%Z) as [[P _] S];
      try (rewrite ?length_seq; lia).
    auto.
Qed.

End Quicksort.

(* ===================================================================== *)
(** * 31. numpy's order on binary64 keys                               *)
(* ===================================================================== *)

Lemma SFltb_rank (x y : spec_float) :
  x <> S754_nan -> y <> S754_nan ->
  (SFltb x y = true <-> rank_lt (sf_rank x) (sf_rank y)).
Proof.
  intros Hx Hy. unfold SFltb, SFcompare.
  destruct x as [s|s| |s m e]; destruct y as [s'|s'| |s' m' e'];
    try congruence; try destruct s; try destruct s'; cbn [sf_rank rank_lt];
    try (split; [discriminate | lia]); try (split; [lia | reflexivity]);
    try (split; intros; [lia | reflexivity]).
  - rewrite (Pos.compare_cont_spec m m' Eq). cbn [Pos.switch_Eq].
    change (Pos.compare_cont Eq m m') with (Pos.compare m m').
    destruct (Z.compare_spec e e'); destruct (Pos.compare_spec m m');
      cbn [CompOpp]; split; intros; try discriminate; try reflexivity; lia.
  - change (Pos.compare_cont Eq m m') with (Pos.compare m m').
    destruct (Z.compare_spec e e'); destruct (Pos.compare_spec m m');
      split; intros; try discriminate; try reflexivity; lia.
Qed.

Lemma np_less_rank (x y : float) :
  np_less x y = true <->
  rank_lt (sf_rank (Prim2SF x)) (sf_rank (Prim2SF y)).
Proof.
  unfold np_less, notna. rewrite ltb_spec.
  destruct (isna x) eqn:Ex; destruct (isna y) eqn:Ey.
  - apply isna_spec in Ex, Ey. rewrite Ex, Ey. cbn. split; [discriminate|lia].
  - apply isna_spec in Ex. apply isna_false_spec in Ey. rewrite Ex.
    rewrite orb_false_r.
    destruct (Prim2SF y) as [s|s| |s m e]; try congruence;
      try destruct s; cbn; split; try discriminate; lia.
  - apply isna_spec in Ey. apply isna_false_spec in Ex. rewrite Ey.
    rewrite orb_true_r.
    destruct (Prim2SF x) as [s|s| |s m e]; try congruence;
      try destruct s; cbn; split; auto; lia.
  - apply isna_false_spec in Ex, Ey. rewrite orb_false_r.
    now apply SFltb_rank.
Qed.

Lemma np_less_false_rank (x y : float) :
  np_less x y = false <->
  ~ rank_lt (sf_rank (Prim2SF x)) (sf_rank (Prim2SF y)).
Proof.
  rewrite <- np_less_rank. destruct (np_less x y); split; congruence.
Qed.

(** [np_less] is a strict weak order, on the keys and so on the row
    numbers that stand for them. *)
Lemma np_less_order (keys : series) :
  strict_weak_order
    (fun i j => np_less (nth i keys nan) (nth j keys nan)).
Proof.
  unfold strict_weak_order. repeat split.
  - intros x. apply np_less_false_rank.
    destruct (sf_rank _) as [[a b] c]. cbn. lia.
  - intros x y z. rewrite !np_less_rank.
    destruct (sf_rank (Prim2SF (nth x keys nan))) as [[a b] c].
    destruct (sf_rank (Prim2SF (nth y keys nan))) as [[a' b'] c'].
    destruct (sf_rank (Prim2SF (nth z keys nan))) as [[a'' b''] c''].
    cbn. lia.
  - intros x y z. rewrite !np_less_false_rank.
    destruct (sf_rank (Prim2SF (nth x keys nan))) as [[a b] c].
    destruct (sf_rank (Prim2SF (nth y keys nan))) as [[a' b'] c'].
    destruct (sf_rank (Prim2SF (nth z keys nan))) as [[a'' b''] c''].
    cbn. lia.
Qed.

(** [argsort] returns every row number once, in the order of the keys. *)
Lemma np_argsort_sorts (keys : series) :
  Permutation (np_argsort keys) (seq 0 (length keys)) /\
  forall p q, p <= q -> q < length keys ->
    np_less (nth (nth q (np_argsort keys) 0) keys nan)
            (nth (nth p (np_argsort keys) 0) keys nan) = false.
Proof.
  destruct (aquicksort_sorts _ (np_less_order keys) (length keys))
    as [P S].
  split; [exact P|]. intros p q Hpq Hq. apply (S p q); lia.
Qed.

(* ===================================================================== *)
(** * 32. pandas sort_values                                           *)
(* ===================================================================== *)

Lemma ltb_nan_l (x y : float) : isna x = true -> (x <? y)%float = false.
Proof.
  intros H. apply isna_spec in H. rewrite ltb_spec, H. reflexivity.
Qed.

Lemma ltb_nan_r (x y : float) : isna y = true -> (x <? y)%float = false.
Proof.
  intros H. apply isna_spec in H. rewrite ltb_spec, H.
  unfold SFltb, SFcompare. now destruct (Prim2SF x).
Qed.


Lemma filter_split {A : Type} (f : A -> bool) (l : list A) :
  Permutation (filter f l ++ filter (fun x => negb (f x)) l) l.
Proof.
  induction l as [|x t IH]; simpl; auto.
  destruct (f x); simpl.
  - now constructor.
  - rewrite <- Permutation_middle. now constructor.
Qed.

Lemma map_nth_seq {A : Type} (l : list A) (d : A) :
  map (fun k => nth k l d) (seq 0 (length l)) = l.
Proof.
  induction l as [|x t IH]; [reflexivity|].
  cbn [length seq map nth]. f_equal.
  rewrite <- seq_shift, map_map. exact IH.
Qed.


Lemma take_seq {A : Type} (rows : list A) :
  take rows (seq 0 (length rows)) = rows.
Proof.
  unfold take. induction rows as [|x t IH]; [reflexivity|].
  cbn [length seq flat_map nth_error app]. f_equal.
  rewrite <- seq_shift, flat_map_concat_map, map_map.
  rewrite <- flat_map_concat_map. exact IH.
Qed.


Lemma take_perm {A : Type} (rows : list A) (ix : list nat) :
  Permutation ix (seq 0 (length rows)) -> Permutation (take rows ix) rows.
Proof.
  intros H. rewrite <- (take_seq rows) at 2. unfold take.
  now apply Permutation_flat_map.
Qed.

Section Nargsort.

Variable items : series.

Let n := length items.
Let idx := seq 0 n.
Let nn := filter (fun i => notna (nth i items nan)) idx.
Let nans := filter (fun i => isna (nth i items nan)) idx.

Lemma nargsort_unfold (ascending : bool) :
  nargsort items ascending =
  (if ascending then sorted_part items ascending
   else rev (sorted_part items ascending)) ++ nans.
Proof. unfold nargsort, sorted_part, presented. now destruct ascending. Qed.

Lemma presented_perm (ascending : bool) :
  Permutation (presented items ascending) nn.
Proof.
  unfold presented. destruct ascending; [reflexivity|].
  symmetry. apply Permutation_rev.
Qed.

Lemma sorted_part_perm (ascending : bool) :
  Permutation (sorted_part items ascending) nn.
Proof.
  unfold sorted_part. set (R := presented items ascending).
  destruct (np_argsort_sorts (map (fun i => nth i items nan) R)) as [P _].
  rewrite length_map in P.
  rewrite (Permutation_map (fun k => nth k R 0) P).
  rewrite map_nth_seq. apply presented_perm.
Qed.

Lemma nargsort_perm (ascending : bool) :
  Permutation (nargsort items ascending) (seq 0 (length items)).
Proof.
  rewrite nargsort_unfold.
  assert (H : Permutation (if ascending then sorted_part items ascending
                           else rev (sorted_part items ascending)) nn).
  { destruct ascending; [apply sorted_part_perm|].
    rewrite <- Permutation_rev. apply sorted_part_perm. }
  rewrite H.
  assert (E : nans = filter (fun i => negb (notna (nth i items nan))) idx).
  { unfold nans. apply filter_ext. intros i. unfold notna.
    now rewrite negb_involutive. }
  rewrite E. unfold nn.
  apply (filter_split (fun i => notna (nth i items nan)) idx).
Qed.


Lemma nans_isna i : In i nans -> isna (nth i items nan) = true.
Proof. unfold nans. intros H. now apply filter_In in H as [_ H]. Qed.


End Nargsort.


(** Sorting reorders the rows and loses none. *)
Lemma sort_values_perm {A : Type} (key : A -> float) (ascending : bool)
  (rows : list A) :
  Permutation (sort_values key ascending rows) rows.
Proof.
  unfold sort_values. apply take_perm.
  rewrite <- (length_map key rows). apply nargsort_perm.
Qed.







(* ===================================================================== *)
(** * 33. The outlier filters                                          *)
(* ===================================================================== *)

Lemma In_avg_corr_df (m : corr_matrix float) (r : avg_corr_row) :
  In r (avg_corr_df m) <-> In r (average_correlations m).
Proof.
  unfold avg_corr_df. split; apply Permutation_in.
  - apply sort_values_perm.
  - apply Permutation_sym, sort_values_perm.
Qed.

(** What [calculate_price_distance] returns is one sorted table and the
    filter of it. *)
Lemma calculate_price_distance_returned (returns_df : frame)
  (market_avg_df : market_frame) (threshold : float)
  (res : distance_result) :
  calculate_price_distance returns_df market_avg_df threshold
    = Returned res ->
  exists finals final_market_return,
    final_values (map (fun c => (fst c, cumulative_series (snd c)))
                      (f_cols returns_df)) = Returned finals /\
    iloc_last (cumulative_series (mf_market_avg_return market_avg_df))
      = Returned final_market_return /\
    res_distance_df res =
      sort_values dr_price_distance false
        (map (distance_of final_market_return) finals) /\
    res_out_of_threshold res =
      filter (fun r => (threshold <? dr_price_distance r)%float)
             (res_distance_df res) /\
    res_cum_returns_df res =
      {| f_date := f_date returns_df;
         f_cols := map (fun c => (fst c, cumulative_series (snd c)))
                       (f_cols returns_df) |} /\
    res_market_cum_return res =
      cumulative_series (mf_market_avg_return market_avg_df).
Proof.
  unfold calculate_price_distance.
  destruct (Nat.eqb (nrows returns_df) 0); [discriminate|].
  destruct (final_values _) as [finals|e]; [|discriminate].
  destruct (iloc_last _) as [fm|e]; [|discriminate].
  intros [= <-]. exists finals, fm. cbn. auto 10.
Qed.

(** C5. Both outlier filters compare strictly: a coin is in the
    low-correlation table exactly when it is in the average-correlation
    table with an average strictly below the threshold, and in the
    out-of-threshold table exactly when it is in the distance table with
    a distance strictly above the threshold; a coin whose value equals
    the threshold is in neither. The scripts pass the default, the
    binary64 value of 0.3. *)
Theorem outlier_filters_are_strict (m : corr_matrix float)
  (returns_df : frame) (market_avg_df : market_frame) (threshold : float)
  (res : distance_result) :
  calculate_price_distance returns_df market_avg_df threshold
    = Returned res ->
  (forall r, In r (identify_uncorrelated_coins m threshold) <->
             In r (average_correlations m) /\
             (ac_avg_correlation r <? threshold)%float = true) /\
  (forall r, ac_avg_correlation r = threshold ->
             ~ In r (identify_uncorrelated_coins m threshold)) /\
  (forall r, In r (res_out_of_threshold res) <->
             In r (res_distance_df res) /\
             (threshold <? dr_price_distance r)%float = true) /\
  (forall r, dr_price_distance r = threshold ->
             ~ In r (res_out_of_threshold res)) /\
  Prim2SF default_threshold = S754_finite false 5404319552844595 (-54).
Proof.
  intros Hres.
  destruct (calculate_price_distance_returned _ _ _ _ Hres)
    as (finals & fm & _ & _ & _ & Hout & _).
  refine (conj _ (conj _ (conj _ (conj _ _)))).
  - intros r. unfold identify_uncorrelated_coins.
    rewrite filter_In, In_avg_corr_df. reflexivity.
  - intros r E H. unfold identify_uncorrelated_coins in H.
    apply filter_In in H as [_ H]. rewrite E, ltb_irrefl in H.
    discriminate.
  - intros r. rewrite Hout, filter_In. reflexivity.
  - intros r E H. rewrite Hout in H.
    apply filter_In in H as [_ H]. rewrite E, ltb_irrefl in H.
    discriminate.
  - reflexivity.
Qed.

(** C5 on the divergent basket, with the default threshold: E and B are out
    of threshold, A (distance 0.22) is not, and no coin is a
    low-correlation outlier. *)
Lemma outlier_filters_are_strict_witness :
  exists res,
    calculate_price_distance divergent_returns
      (calculate_market_average divergent_returns) default_threshold
      = Returned res /\
    map dr_symbol (res_distance_df res) = ["E"; "B"; "A"] /\
    map dr_symbol (res_out_of_threshold res) = ["E"; "B"] /\
    forall r, In r (res_out_of_threshold res) <->
              In r (res_distance_df res) /\
              (default_threshold <? dr_price_distance r)%float = true.
Proof.
  destruct (calculate_price_distance divergent_returns
              (calculate_market_average divergent_returns)
              default_threshold) as [res|e] eqn:E;
    [|vm_compute in E; discriminate].
  exists res. split; [reflexivity|].
  split; [vm_compute in E; injection E as <-; reflexivity|].
  split; [vm_compute in E; injection E as <-; reflexivity|].
  exact (proj1 (proj2 (proj2
           (outlier_filters_are_strict
              (create_correlation_matrix divergent_returns)
              divergent_returns
              (calculate_market_average divergent_returns)
              default_threshold res E)))).
Defined.

(* ===================================================================== *)
(** * 34. Undefined statistics                                         *)
(* ===================================================================== *)

(** Sorting carries the rows of the summary as they were computed. *)
Lemma summary_rows_perm (np_power : float -> float -> float)
  (returns_df : frame) (rows : list summary_row) :
  calculate_average_changes np_power returns_df = Returned rows ->
  Permutation rows (summary_table np_power returns_df).
Proof.
  unfold calculate_average_changes.
  destruct (Nat.eqb (nrows returns_df) 0); [discriminate|].
  intros [= <-]. apply sort_values_perm.
Qed.









(** The three cases on data: a flat asset has the ratio NaN, a doubling
    one plus infinity, and a market that ends where it began gives every
    moving coin the relative distance plus infinity. *)
Lemma undefined_statistics_examples :
  (forall np_power rows,
     calculate_average_changes np_power basket_returns = Returned rows ->
     exists r, In r rows /\ sr_symbol r = "C" /\
               sr_std_daily_return r = 0%float /\
               sr_sharpe_ratio r = nan) /\
  (forall np_power rows,
     calculate_average_changes np_power doubling_returns = Returned rows ->
     exists r, In r rows /\ sr_symbol r = "F" /\
               sr_std_daily_return r = 0%float /\
               sr_sharpe_ratio r = infinity) /\
  (exists res,
     calculate_price_distance cancelling_returns
       (calculate_market_average cancelling_returns) default_threshold
       = Returned res /\
     map dr_market_return (res_distance_df res) = [0; 0]%float /\
     map dr_relative_distance (res_distance_df res)
       = [infinity; infinity]).
Proof.
  refine (conj _ (conj _ _)).
  - intros np_power rows H.
    pose proof (summary_rows_perm _ _ _ H) as P.
    exists (summary_of np_power
              (365 / float_of_nat (nrows basket_returns))
              ("C", [nan; 0; 0; 0; 0]%float)).
    split; [|vm_compute; auto].
    apply (Permutation_in _ (Permutation_sym P)).
    apply in_map. vm_compute. auto.
  - intros np_power rows H.
    pose proof (summary_rows_perm _ _ _ H) as P.
    exists (summary_of np_power
              (365 / float_of_nat (nrows doubling_returns))
              ("F", [nan; 1; 1; 1]%float)).
    split; [|vm_compute; auto].
    apply (Permutation_in _ (Permutation_sym P)).
    apply in_map. vm_compute. auto.
  - eexists. split; [vm_compute; reflexivity|]. split; reflexivity.
Qed.

(* ===================================================================== *)
(** * 35. The correlation matrix                                       *)
(* ===================================================================== *)



(** The correlation matrix of the basket: A and B move together, C has
    no spread. *)
Lemma basket_correlation_matrix :
  cm_labels (create_correlation_matrix basket_returns) = ["A"; "B"; "C"] /\
  map (map isna) (cm_values (create_correlation_matrix basket_returns))
    = [[false; false; true]; [false; false; true]; [true; true; true]] /\
  cm_cell float_arith (create_correlation_matrix basket_returns) 0 0
    = 1%float /\
  cm_cell float_arith (create_correlation_matrix basket_returns) 1 1
    = 1%float.
Proof. vm_compute. auto. Qed.

(* ===================================================================== *)
(** * 36. The comparison payload                                       *)
(* ===================================================================== *)

Lemma keys_dict_set {V : Type} (key : string) (v : V)
  (d : list (string * V)) (k : string) :
  In k (map fst (dict_set key v d)) <-> k = key \/ In k (map fst d).
Proof.
  induction d as [|[k' v'] t IH]; simpl.
  - intuition.
  - destruct (String.eqb k' key) eqn:E; simpl.
    + apply String.eqb_eq in E. subst. intuition.
    + rewrite IH. intuition.
Qed.

Lemma NoDup_dict_set {V : Type} (key : string) (v : V)
  (d : list (string * V)) :
  NoDup (map fst d) -> NoDup (map fst (dict_set key v d)).
Proof.
  induction d as [|[k' v'] t IH]; simpl; intros H.
  - constructor; [simpl; tauto | constructor].
  - inversion H as [|x l Hx Hl]; subst.
    destruct (String.eqb k' key) eqn:E; simpl.
    + constructor; auto.
    + constructor; auto. rewrite keys_dict_set. intros [->|Hin]; auto.
      now rewrite String.eqb_refl in E.
Qed.

Lemma In_dict_set {V : Type} (key : string) (v : V)
  (d : list (string * V)) (k : string) (e : V) :
  In (k, e) (dict_set key v d) -> (k = key /\ e = v) \/ In (k, e) d.
Proof.
  induction d as [|[k' v'] t IH]; simpl.
  - intros [[= <- <-]|[]]. auto.
  - destruct (String.eqb k' key) eqn:E; simpl.
    + apply String.eqb_eq in E. subst.
      intros [[= <- <-]|H]; auto.
    + intros [H|H]; auto. destruct (IH H); auto.
Qed.

(** The loop over the out-of-threshold rows: it ends without a KeyError
    when every row names a column, and then the keys it leaves are the
    keys it found and the symbols of the rows. *)
Lemma add_coins_spec (cum_returns_df : frame) (rows : list distance_row) :
  forall coins,
  (forall r, In r rows ->
             get_col (dr_symbol r) (f_cols cum_returns_df) <> None) ->
  exists out,
    add_coins cum_returns_df rows coins = Returned out /\
    (forall s, In s (map fst out) <->
               In s (map fst coins) \/ In s (map dr_symbol rows)) /\
    (NoDup (map fst coins) -> NoDup (map fst out)) /\
    (forall s e, In (s, e) out ->
       In (s, e) coins \/
       get_col s (f_cols cum_returns_df) = Some (ce_data e)).
Proof.
  induction rows as [|row rest IH]; intros coins Hcols; cbn [add_coins].
  - exists coins. cbn. intuition.
  - destruct (get_col (dr_symbol row) (f_cols cum_returns_df))
      as [data|] eqn:E.
    2:{ exfalso. apply (Hcols row); [now left | exact E]. }
    edestruct (IH (dict_set (dr_symbol row)
                     {| ce_name := dr_symbol row;
                        ce_data := data;
                        ce_cumulative_return := dr_cumulative_return row;
                        ce_price_distance := dr_price_distance row;
                        ce_relative_distance := dr_relative_distance row |}
                     coins))
      as (out & Hout & Hkeys & Hnd & Hent).
    { intros r Hr. apply Hcols. now right. }
    exists out. split; [exact Hout|].
    refine (conj _ (conj _ _)).
    + intros s. rewrite Hkeys, keys_dict_set. cbn [map In].
      intuition.
    + intros H. apply Hnd. now apply NoDup_dict_set.
    + intros s e H. destruct (Hent s e H) as [H'|H']; auto.
      apply In_dict_set in H' as [[-> ->]|H']; auto.
Qed.

Lemma length_cumprod_from (s : series) :
  forall acc, length (cumprod_from acc s) = length s.
Proof.
  induction s as [|x t IH]; intros acc; simpl; [reflexivity|].
  now rewrite IH.
Qed.

Lemma length_cumulative_series (s : series) :
  length (cumulative_series s) = length s.
Proof.
  unfold cumulative_series, cumprod, np_cumprod, fillna.
  rewrite !length_map, length_combine, length_cumprod_from, !length_map.
  apply Nat.min_id.
Qed.

(** [iloc[-1]] of every column: there is one as soon as no column is
    empty. *)
Lemma final_values_returned (cols : list (string * series)) :
  Forall (fun c => snd c <> []) cols ->
  exists finals,
    final_values cols = Returned finals /\
    map fst finals = map fst cols.
Proof.
  induction 1 as [|[symbol s] t Hs Ht (finals & E & N)]; cbn.
  - exists []. auto.
  - destruct s as [|x u]; [now contradiction Hs|]. cbn. rewrite E.
    exists ((symbol, last u x) :: finals). cbn. now rewrite N.
Qed.

(** C10. For a well-formed return matrix with at least one day, the price
    distance analysis and the payload built from it both return; the
    symbols under [coins] are exactly the symbols of the
    out-of-threshold table, once each; and every coin's [data] list,
    the [dates] list and the [market_avg] list have one entry per day. *)
Theorem comparison_payload_consistent (strftime : timestamp -> string)
  (returns_df : frame) (threshold : float) :
  wf_frame returns_df ->
  nrows returns_df <> 0%nat ->
  exists res payload,
    calculate_price_distance returns_df
      (calculate_market_average returns_df) threshold = Returned res /\
    generate_comparison_data strftime (res_cum_returns_df res)
      (res_market_cum_return res) (res_out_of_threshold res)
      = Returned payload /\
    (forall s, In s (map fst (cd_coins payload)) <->
               In s (map dr_symbol (res_out_of_threshold res))) /\
    NoDup (map fst (cd_coins payload)) /\
    length (cd_dates payload) = nrows returns_df /\
    length (cd_market_avg payload) = length (cd_dates payload) /\
    (forall s e, In (s, e) (cd_coins payload) ->
       length (ce_data e) = length (cd_dates payload) /\
       length (ce_data e) = length (cd_market_avg payload)).
Proof.
  intros [Hnd Hlen] Hrows.
  set (cum_cols := map (fun c => (fst c, cumulative_series (snd c)))
                       (f_cols returns_df)).
  assert (Hcum : Forall (fun c => length (snd c) = nrows returns_df)
                   cum_cols).
  { unfold cum_cols. rewrite Forall_forall in *. intros c Hc.
    apply in_map_iff in Hc as (c0 & <- & Hc0). cbn.
    rewrite length_cumulative_series. now apply Hlen. }
  assert (Hne : Forall (fun c => snd c <> []) cum_cols).
  { rewrite Forall_forall in *. intros c Hc E. specialize (Hcum c Hc).
    rewrite E in Hcum. cbn in Hcum. congruence. }
  destruct (final_values_returned cum_cols Hne) as (finals & Ef & Nf).
  set (mkt := cumulative_series
                (mf_market_avg_return (calculate_market_average returns_df))).
  assert (Lm : length mkt = nrows returns_df).
  { unfold mkt. rewrite length_cumulative_series. cbn.
    now rewrite length_map, length_seq. }
  destruct (iloc_last mkt) as [fm|err] eqn:Em.
  2:{ destruct mkt; [cbn in Lm; congruence | discriminate]. }
  assert (Hres :
    calculate_price_distance returns_df
      (calculate_market_average returns_df) threshold =
    Returned
      {| res_distance_df :=
           sort_values dr_price_distance false
             (map (distance_of fm) finals);
         res_out_of_threshold :=
           filter (fun r => (threshold <? dr_price_distance r)%float)
             (sort_values dr_price_distance false
                (map (distance_of fm) finals));
         res_cum_returns_df :=
           {| f_date := f_date returns_df; f_cols := cum_cols |};
         res_market_cum_return := mkt |}).
  { unfold calculate_price_distance.
    apply Nat.eqb_neq in Hrows. rewrite Hrows.
    fold cum_cols. rewrite Ef. fold mkt. rewrite Em. reflexivity. }
  set (out := filter (fun r => (threshold <? dr_price_distance r)%float)
                (sort_values dr_price_distance false
                   (map (distance_of fm) finals))) in *.
  destruct (add_coins_spec
              {| f_date := f_date returns_df; f_cols := cum_cols |}
              out [])
    as (coins & Ec & Hkeys & Hdict & Hent).
  { intros r Hr. unfold out in Hr. apply filter_In in Hr as [Hr _].
    apply (Permutation_in _ (sort_values_perm _ _ _)) in Hr.
    apply in_map_iff in Hr as ([symbol x] & <- & Hx). cbn.
    apply (in_map fst) in Hx. rewrite Nf in Hx. cbn in Hx.
    intros N. apply get_col_None in N. now apply N. }
  match type of Hres with _ = Returned ?r => exists r end.
  exists {| cd_dates := map strftime (f_date returns_df);
            cd_market_avg := mkt;
            cd_coins := coins |}.
  split; [exact Hres|].
  cbn [res_cum_returns_df res_market_cum_return res_out_of_threshold].
  split; [unfold generate_comparison_data; now rewrite Ec|].
  cbn [cd_coins cd_dates cd_market_avg f_date].
  refine (conj _ (conj _ (conj _ (conj _ _)))).
  - intros s. rewrite Hkeys. cbn. tauto.
  - apply Hdict. constructor.
  - now rewrite length_map.
  - rewrite length_map. exact Lm.
  - intros s e H. rewrite length_map, Lm.
    destruct (Hent s e H) as [[]|G]. cbn in G.
    apply get_col_In in G. rewrite Forall_forall in Hcum.
    specialize (Hcum _ G). cbn in Hcum. auto.
Qed.

(** C10 on the divergent basket: the payload has the coins E and B, five
    dates and five market values. *)
Lemma comparison_payload_consistent_witness :
  wf_frame divergent_returns /\
  nrows divergent_returns <> 0%nat /\
  exists res payload,
    calculate_price_distance divergent_returns
      (calculate_market_average divergent_returns) default_threshold
      = Returned res /\
    generate_comparison_data (fun _ => "2023-11-14")
      (res_cum_returns_df res) (res_market_cum_return res)
      (res_out_of_threshold res) = Returned payload /\
    (forall s, In s (map fst (cd_coins payload)) <->
               In s (map dr_symbol (res_out_of_threshold res))) /\
    NoDup (map fst (cd_coins payload)) /\
    length (cd_dates payload) = nrows divergent_returns /\
    length (cd_market_avg payload) = length (cd_dates payload) /\
    (forall s e, In (s, e) (cd_coins payload) ->
       length (ce_data e) = length (cd_dates payload) /\
       length (ce_data e) = length (cd_market_avg payload)).
Proof.
  assert (W : wf_frame divergent_returns).
  { split.
    - vm_compute. repeat constructor; simpl; intuition discriminate.
    - vm_compute. repeat constructor. }
  assert (N : nrows divergent_returns <> 0%nat)
    by (vm_compute; discriminate).
  split; [exact W|]. split; [exact N|].
  exact (comparison_payload_consistent (fun _ => "2023-11-14")
           divergent_returns default_threshold W N).
Defined.

(* ===================================================================== *)
(** * 37. Ties in a small table                                        *)
(* ===================================================================== *)

Section StableInsertion.

Variable lt : nat -> nat -> bool.
Hypothesis lt_order : strict_weak_order lt.









End StableInsertion.

(* ===================================================================== *)
(** * 38. Lists in order                                               *)
(* ===================================================================== *)










(** ** Equal keys *)





(* ===================================================================== *)
(** * 39. Ties under [sort_values]                                     *)
(* ===================================================================== *)


Section NargsortTies.

Variable items : series.
Hypothesis small : count_valid items <= 17.

Let nn := filter (fun i => notna (nth i items nan)) (seq 0 (length items)).






End NargsortTies.


(* ===================================================================== *)
(** * 40. The order of the summary table                               *)
(* ===================================================================== *)




(** The order in which the eighteen rows come out. *)
Lemma eighteen_rows_order :
  exists rows,
    calculate_average_changes power_of_one eighteen_flat_returns
      = Returned rows /\
    map sr_symbol rows =
      ["C01"; "C02"; "C17"; "C16"; "C15"; "C14"; "C13"; "C12"; "C11";
       "C10"; "C09"; "C08"; "C07"; "C06"; "C05"; "C04"; "C03"; "C18"] /\
    map sr_annualized_return rows = repeat 0%float 18.
Proof. eexists. split; [vm_compute; reflexivity|]. split; reflexivity. Qed.

(* ===================================================================== *)
(** * 41. The runs behind the corrections                              *)
(* ===================================================================== *)

(** The summary depends on the power function through the annualized
    returns only. *)
Lemma calculate_average_changes_ext (np1 np2 : float -> float -> float)
  (returns_df : frame) :
  (forall c, In c (f_cols returns_df) ->
     np1 (1 + cumulative_return (snd c))%float
         (365 / float_of_nat (nrows returns_df))%float =
     np2 (1 + cumulative_return (snd c))%float
         (365 / float_of_nat (nrows returns_df))%float) ->
  calculate_average_changes np1 returns_df =
  calculate_average_changes np2 returns_df.
Proof.
  intros H. unfold calculate_average_changes, summary_table.
  destruct (Nat.eqb (nrows returns_df) 0); [reflexivity|].
  do 2 f_equal. apply map_ext_in. intros [symbol col] Hc.
  unfold summary_of. f_equal. f_equal. exact (H _ Hc).
Qed.

(** Whatever the power function is, as long as 1 to the power 73 is 1:
    the eighteen flat assets come out with the third to the
    seventeenth in reverse. *)
Lemma eighteen_rows_any_power (np_power : float -> float -> float) :
  np_power 1%float 73%float = 1%float ->
  exists rows,
    calculate_average_changes np_power eighteen_flat_returns
      = Returned rows /\
    map sr_symbol rows =
      ["C01"; "C02"; "C17"; "C16"; "C15"; "C14"; "C13"; "C12"; "C11";
       "C10"; "C09"; "C08"; "C07"; "C06"; "C05"; "C04"; "C03"; "C18"].
Proof.
  intros H.
  rewrite (calculate_average_changes_ext np_power power_of_one).
  - eexists. split; [vm_compute; reflexivity | reflexivity].
  - intros c Hc. vm_compute in Hc.
    repeat (destruct Hc as [<-|Hc]; [vm_compute; exact H|]).
    contradiction.
Qed.

(** With the aligned matrices of an earlier run on disk, a run whose
    download returns the empty mapping starts every script, and the
    analysis scripts compute their tables from the old matrices. *)
Lemma stale_snapshot_is_analysed (np_power : float -> float -> float)
  (strftime : timestamp -> string) (web : bool) :
  let run := main np_power strftime true [] web stale_disk in
  p_started run = [FetchTopCoins; DownloadHistoricalData;
                   AnalyzeCorrelations; AnalyzePriceDistance;
                   CreateWebVisualization] /\
  average_returns_csv (p_disk run) <> None /\
  correlation_matrix_csv (p_disk run) <> None /\
  price_distance_csv (p_disk run) <> None /\
  comparison_data_json (p_disk run) <> None.
Proof.
  cbv zeta. unfold main, download_historical_data_script.
  cbn [negb run_script o_value o_disk].
  unfold analyze_correlations_script.
  change (load_combined_data stale_disk)
    with (Some (basket_prices, basket_returns)).
  cbv iota beta.
  destruct (calculate_average_changes np_power basket_returns)
    as [rows|e] eqn:E.
  2:{ unfold calculate_average_changes in E.
      change (Nat.eqb (nrows basket_returns) 0) with false in E.
      discriminate. }
  cbn [negb run_script o_value o_disk].
  set (d3 := {| combined_prices_csv := _ |}).
  assert (L : load_combined_data d3 = Some (basket_prices, basket_returns))
    by reflexivity.
  unfold analyze_price_distance_script. rewrite L. cbv iota beta zeta.
  destruct (calculate_price_distance basket_returns
              (calculate_market_average basket_returns) default_threshold)
    as [r|e] eqn:Er; [|vm_compute in Er; discriminate].
  assert (Eout : res_out_of_threshold r = [])
    by (vm_compute in Er; injection Er as <-; reflexivity).
  unfold generate_comparison_data. rewrite Eout. cbn [add_coins].
  cbn [negb run_script o_value o_disk p_started p_disk
       average_returns_csv correlation_matrix_csv price_distance_csv
       comparison_data_json d3].
  repeat split; discriminate.
Qed.

(* ===================================================================== *)
(** * 42. Ranked tables and what a filter leaves of them               *)
(* ===================================================================== *)






Lemma nil_of_no_member {A : Type} (l : list A) :
  (forall x, ~ In x l) -> l = [].
Proof.
  destruct l as [|a t]; [reflexivity|]. intros H.
  exfalso. apply (H a). now left.
Qed.

(** X2. A coin whose average correlation is undefined is never reported
    as uncorrelated, and an undefined threshold reports no coin: what is
    reported has a defined average, taken from the ranked table, under a
    defined threshold. *)
Theorem undefined_average_never_reported (m : corr_matrix float)
  (threshold : float) (r : avg_corr_row) :
  In r (identify_uncorrelated_coins m threshold) ->
  isna (ac_avg_correlation r) = false /\ isna threshold = false /\
  In r (average_correlations m).
Proof.
  intros Hr. unfold identify_uncorrelated_coins in Hr.
  apply filter_In in Hr as [Hin Hr]. refine (conj _ (conj _ _)).
  - destruct (isna (ac_avg_correlation r)) eqn:E; [|reflexivity].
    now rewrite ltb_nan_l in Hr.
  - destruct (isna threshold) eqn:E; [|reflexivity].
    now rewrite ltb_nan_r in Hr.
  - now apply In_avg_corr_df.
Qed.

(** X2 on the basket with the threshold 2: A and B are reported, the flat
    asset C, whose average is undefined, is not. *)
Lemma undefined_average_never_reported_witness :
  map ac_symbol
    (identify_uncorrelated_coins (create_correlation_matrix basket_returns)
       2%float) = ["A"; "B"] /\
  map (fun r => isna (ac_avg_correlation r))
    (average_correlations (create_correlation_matrix basket_returns))
    = [false; false; true] /\
  forall r,
    In r (identify_uncorrelated_coins
            (create_correlation_matrix basket_returns) 2%float) ->
    isna (ac_avg_correlation r) = false.
Proof.
  split; [reflexivity|]. split; [reflexivity|].
  intros r Hr.
  exact (proj1 (undefined_average_never_reported
                  (create_correlation_matrix basket_returns) 2%float r Hr)).
Defined.

(** X3. With a single asset column the only average correlation is over
    no value at all: it is undefined and no coin is reported, whatever
    the threshold. *)
Theorem single_asset_reports_nothing (returns_df : frame)
  (threshold : float) (c : string * series) :
  f_cols returns_df = [c] ->
  average_correlations (create_correlation_matrix returns_df)
    = [{| ac_symbol := fst c; ac_avg_correlation := nan |}] /\
  identify_uncorrelated_coins (create_correlation_matrix returns_df)
    threshold = [].
Proof.
  destruct c as [symbol col]. intros Hc.
  assert (Ha : average_correlations
                 (create_correlation_matrix returns_df)
               = [{| ac_symbol := symbol; ac_avg_correlation := nan |}]).
  { unfold average_correlations, create_correlation_matrix, corr,
      column_without. rewrite Hc. cbn [map fst cm_labels cm_values
      length seq combine snd nancorr nth]. cbn [filter].
    rewrite String.eqb_refl. reflexivity. }
  split; [exact Ha|].
  apply nil_of_no_member. intros r Hr.
  unfold identify_uncorrelated_coins in Hr.
  apply filter_In in Hr as [Hin Hlt].
  apply In_avg_corr_df in Hin. rewrite Ha in Hin.
  destruct Hin as [<-|[]]. cbn in Hlt.
  now rewrite ltb_nan_l in Hlt.
Qed.

(** X3 on the asset that doubles every day, alone in its matrix. *)
Lemma single_asset_reports_nothing_witness :
  identify_uncorrelated_coins (create_correlation_matrix doubling_returns)
    infinity = [].
Proof.
  exact (proj2 (single_asset_reports_nothing doubling_returns infinity
                  ("F", [nan; 1; 1; 1]%float) eq_refl)).
Defined.

(* ===================================================================== *)
(** * 43. The price distance table                                     *)
(* ===================================================================== *)

Lemma final_values_symbols (cols : list (string * series))
  (finals : list (string * float)) :
  final_values cols = Returned finals -> map fst finals = map fst cols.
Proof.
  revert finals. induction cols as [|[symbol s] t IH]; intros finals;
    cbn [final_values].
  - now intros [= <-].
  - destruct (iloc_last s) as [x|e]; [|discriminate].
    destruct (final_values t) as [r|e]; [|discriminate].
    intros [= <-]. cbn. now rewrite (IH r eq_refl).
Qed.




(* ===================================================================== *)
(** * 44. When the price distance analysis returns                     *)
(* ===================================================================== *)

(** The cumulative columns of a well-formed frame are as long as its date
    axis. *)
Lemma cumulative_columns_wf (returns_df : frame) :
  wf_frame returns_df ->
  wf_frame {| f_date := f_date returns_df;
              f_cols := map (fun c => (fst c, cumulative_series (snd c)))
                            (f_cols returns_df) |}.
Proof.
  intros [Hnd Hlen]. split; cbn [f_cols f_date nrows].
  - rewrite map_map. cbn [fst].
    erewrite map_ext; [exact Hnd|]. reflexivity.
  - apply Forall_forall. intros c Hc.
    apply in_map_iff in Hc as (c0 & <- & Hc0). cbn [snd].
    rewrite length_cumulative_series. rewrite Forall_forall in Hlen.
    now apply Hlen.
Qed.

(** With at least one row in a well-formed frame both [iloc[-1]] find a
    value, and the analysis returns the sorted table, its filter, the
    cumulative columns and the cumulative market series. *)
Lemma price_distance_returns (returns_df : frame) (threshold : float) :
  wf_frame returns_df -> nrows returns_df <> 0 ->
  exists finals fm,
    final_values (map (fun c => (fst c, cumulative_series (snd c)))
                      (f_cols returns_df)) = Returned finals /\
    calculate_price_distance returns_df
      (calculate_market_average returns_df) threshold =
    Returned
      {| res_distance_df :=
           sort_values dr_price_distance false
             (map (distance_of fm) finals);
         res_out_of_threshold :=
           filter (fun r => (threshold <? dr_price_distance r)%float)
             (sort_values dr_price_distance false
                (map (distance_of fm) finals));
         res_cum_returns_df :=
           {| f_date := f_date returns_df;
              f_cols := map (fun c => (fst c, cumulative_series (snd c)))
                            (f_cols returns_df) |};
         res_market_cum_return :=
           cumulative_series
             (mf_market_avg_return (calculate_market_average returns_df))
      |}.
Proof.
  intros W Hrows.
  pose proof (cumulative_columns_wf returns_df W) as [_ Hcum].
  cbn [f_cols f_date nrows] in Hcum.
  set (cum_cols := map (fun c => (fst c, cumulative_series (snd c)))
                       (f_cols returns_df)) in *.
  assert (Hne : Forall (fun c => snd c <> []) cum_cols).
  { rewrite Forall_forall in *. intros c Hc E. specialize (Hcum c Hc).
    rewrite E in Hcum. cbn in Hcum. unfold nrows in Hrows. congruence. }
  destruct (final_values_returned cum_cols Hne) as (finals & Ef & _).
  set (mkt := cumulative_series
                (mf_market_avg_return (calculate_market_average returns_df))).
  assert (Lm : length mkt = nrows returns_df).
  { unfold mkt. rewrite length_cumulative_series. cbn.
    now rewrite length_map, length_seq. }
  destruct (iloc_last mkt) as [fm|err] eqn:Em.
  2:{ destruct mkt; [cbn in Lm; congruence | discriminate]. }
  exists finals, fm. split; [exact Ef|].
  unfold calculate_price_distance.
  apply Nat.eqb_neq in Hrows. rewrite Hrows.
  fold cum_cols. rewrite Ef. fold mkt. rewrite Em. reflexivity.
Qed.

(** X5. On a well-formed return matrix [calculate_price_distance] raises
    IndexError exactly when there is no row; otherwise it returns, with
    one table row and one cumulative column per asset column, the
    cumulative frame on the same dates and column names, and a
    cumulative market series with one value per date. *)
Theorem price_distance_returns_unless_empty (returns_df : frame)
  (threshold : float) :
  wf_frame returns_df ->
  (nrows returns_df = 0 ->
   calculate_price_distance returns_df
     (calculate_market_average returns_df) threshold
     = Raised "IndexError") /\
  (nrows returns_df <> 0 ->
   exists res,
     calculate_price_distance returns_df
       (calculate_market_average returns_df) threshold = Returned res /\
     length (res_distance_df res) = length (f_cols returns_df) /\
     f_date (res_cum_returns_df res) = f_date returns_df /\
     map fst (f_cols (res_cum_returns_df res))
       = map fst (f_cols returns_df) /\
     wf_frame (res_cum_returns_df res) /\
     length (res_market_cum_return res) = nrows returns_df).
Proof.
  intros W. split.
  - intros H. unfold calculate_price_distance.
    apply Nat.eqb_eq in H. now rewrite H.
  - intros H.
    destruct (price_distance_returns returns_df threshold W H)
      as (finals & fm & Ef & E).
    eexists. split; [exact E|].
    cbn [res_distance_df res_cum_returns_df res_market_cum_return f_date
         f_cols].
    refine (conj _ (conj _ (conj _ (conj _ _)))).
    + rewrite (Permutation_length (sort_values_perm _ _ _)).
      rewrite length_map.
      apply final_values_symbols in Ef.
      apply (f_equal (@length string)) in Ef.
      now rewrite !length_map in Ef.
    + reflexivity.
    + rewrite map_map. apply map_ext. reflexivity.
    + now apply cumulative_columns_wf.
    + rewrite length_cumulative_series. cbn.
      now rewrite length_map, length_seq.
Qed.

(** X5 on data: the divergent basket has five rows and three columns; a
    frame with columns and no date has none. *)
Lemma price_distance_returns_unless_empty_witness :
  (exists res,
     calculate_price_distance divergent_returns
       (calculate_market_average divergent_returns) default_threshold
       = Returned res /\
     length (res_distance_df res) = 3 /\
     length (res_market_cum_return res) = 5) /\
  calculate_price_distance {| f_date := []; f_cols := [("A", [])] |}
    (calculate_market_average {| f_date := []; f_cols := [("A", [])] |})
    default_threshold = Raised "IndexError".
Proof.
  assert (W : wf_frame divergent_returns).
  { split.
    - vm_compute. repeat constructor; simpl; intuition discriminate.
    - vm_compute. repeat constructor. }
  assert (W0 : wf_frame {| f_date := []; f_cols := [("A", [])] |}).
  { split.
    - cbn. repeat constructor. simpl. tauto.
    - repeat constructor. }
  split.
  - destruct (proj2 (price_distance_returns_unless_empty divergent_returns
                       default_threshold W))
      as (res & E & L1 & _ & _ & _ & L2); [vm_compute; discriminate|].
    exists res. split; [exact E|]. split; [exact L1 | exact L2].
  - exact (proj1 (price_distance_returns_unless_empty _ default_threshold
                    W0) eq_refl).
Defined.

(* ===================================================================== *)
(** * 45. The coins of the comparison payload                          *)
(* ===================================================================== *)

Lemma dict_set_fresh {V : Type} (key : string) (v : V)
  (d : list (string * V)) :
  ~ In key (map fst d) -> dict_set key v d = d ++ [(key, v)].
Proof.
  induction d as [|[k v'] t IH]; cbn; intros H; [reflexivity|].
  destruct (String.eqb k key) eqn:E.
  - apply String.eqb_eq in E. tauto.
  - rewrite IH by tauto. reflexivity.
Qed.

(** Rows with distinct symbols, none of them in the dict yet, are
    appended in their order. *)
Lemma add_coins_appends (cum_returns_df : frame)
  (rows : list distance_row) :
  forall coins entries,
    NoDup (map fst coins ++ map dr_symbol rows) ->
    map (entry_of cum_returns_df) rows = map Some entries ->
    add_coins cum_returns_df rows coins = Returned (coins ++ entries).
Proof.
  induction rows as [|row rest IH]; intros coins entries Hnd He.
  - destruct entries; [|discriminate]. cbn. now rewrite app_nil_r.
  - destruct entries as [|e entries]; [discriminate|].
    cbn [map] in He. injection He as He1 He2.
    cbn [add_coins]. unfold entry_of in He1.
    destruct (get_col (dr_symbol row) (f_cols cum_returns_df))
      as [data|]; [|discriminate].
    injection He1 as <-.
    cbn [map] in Hnd.
    rewrite dict_set_fresh.
    + rewrite (IH _ entries); [now rewrite <- app_assoc| |exact He2].
      rewrite map_app. cbn [map fst]. rewrite <- app_assoc. exact Hnd.
    + intros Hin. apply NoDup_remove_2 in Hnd. apply Hnd.
      apply in_or_app. now left.
Qed.

(** A row without a column stops the loop with a KeyError. *)
Lemma add_coins_key_error (cum_returns_df : frame)
  (rows : list distance_row) :
  forall coins,
    (exists r, In r rows /\
               get_col (dr_symbol r) (f_cols cum_returns_df) = None) ->
    add_coins cum_returns_df rows coins = Raised "KeyError".
Proof.
  induction rows as [|row rest IH]; intros coins (r & Hr & Hn);
    [contradiction|].
  cbn [add_coins].
  destruct (get_col (dr_symbol row) (f_cols cum_returns_df)) as [data|]
    eqn:E; [|reflexivity].
  apply IH. destruct Hr as [->|Hr]; [congruence|]. now exists r.
Qed.

Lemma entries_exist (cum_returns_df : frame) (rows : list distance_row) :
  (forall r, In r rows ->
             get_col (dr_symbol r) (f_cols cum_returns_df) <> None) ->
  exists entries,
    map (entry_of cum_returns_df) rows = map Some entries /\
    map fst entries = map dr_symbol rows.
Proof.
  induction rows as [|row rest IH]; intros H.
  - exists []. auto.
  - destruct IH as (entries & E & N); [intros r Hr; apply H; now right|].
    pose proof (H row (or_introl eq_refl)) as Hrow.
    destruct (entry_of cum_returns_df row) as [e|] eqn:G.
    + exists (e :: entries). cbn [map]. rewrite G, E.
      split; [reflexivity|]. rewrite N. f_equal.
      unfold entry_of in G.
      destruct (get_col (dr_symbol row) (f_cols cum_returns_df));
        [|discriminate].
      now injection G as <-.
    + unfold entry_of in G.
      destruct (get_col (dr_symbol row) (f_cols cum_returns_df));
        [discriminate | congruence].
Qed.

(** X6. [generate_comparison_data] raises KeyError when an
    out-of-threshold row names a symbol the cumulative frame has no
    column for. When every row has its column and the symbols are
    distinct it returns the formatted dates, the market series as given,
    and one coin per row in the order of the rows: keyed and named by the
    symbol, with the column as data and the three figures of the row. *)
Theorem comparison_coins_follow_rows (strftime : timestamp -> string)
  (cum_returns_df : frame) (market_cum_return : series)
  (out_of_threshold : list distance_row) :
  NoDup (map dr_symbol out_of_threshold) ->
  ((exists r, In r out_of_threshold /\
              get_col (dr_symbol r) (f_cols cum_returns_df) = None) ->
   generate_comparison_data strftime cum_returns_df market_cum_return
     out_of_threshold = Raised "KeyError") /\
  ((forall r, In r out_of_threshold ->
              get_col (dr_symbol r) (f_cols cum_returns_df) <> None) ->
   exists coins,
     generate_comparison_data strftime cum_returns_df market_cum_return
       out_of_threshold =
     Returned {| cd_dates := map strftime (f_date cum_returns_df);
                 cd_market_avg := market_cum_return;
                 cd_coins := coins |} /\
     map (entry_of cum_returns_df) out_of_threshold = map Some coins /\
     map fst coins = map dr_symbol out_of_threshold).
Proof.
  intros Hnd. split.
  - intros H. unfold generate_comparison_data.
    now rewrite add_coins_key_error.
  - intros H. destruct (entries_exist cum_returns_df out_of_threshold H)
      as (entries & E & N).
    exists entries. unfold generate_comparison_data.
    rewrite (add_coins_appends cum_returns_df out_of_threshold []
               entries Hnd E).
    cbn [app]. auto.
Qed.

(** X6 on data: two rows in the order B, A come out as the coins B, A;
    a row for a symbol without a column is a KeyError. *)
Lemma comparison_coins_follow_rows_witness :
  let cum := {| f_date := [0; 86400000]%Z;
                f_cols := [("A", [0; 0.5]%float); ("B", [0; 2]%float)] |} in
  let row s c := {| dr_symbol := s; dr_cumulative_return := c;
                    dr_price_distance := 1; dr_market_return := 0;
                    dr_relative_distance := infinity |} in
  (exists coins,
     generate_comparison_data (fun _ => "day") cum [0; 0]%float
       [row "B" 2%float; row "A" 0.5%float] =
     Returned {| cd_dates := ["day"; "day"];
                 cd_market_avg := [0; 0]%float;
                 cd_coins := coins |} /\
     map fst coins = ["B"; "A"] /\
     map (fun e => ce_data (snd e)) coins
       = [[0; 2]%float; [0; 0.5]%float]) /\
  generate_comparison_data (fun _ => "day") cum [0; 0]%float
    [row "Z" 1%float] = Raised "KeyError".
Proof.
  cbv zeta. split.
  - edestruct (proj2 (comparison_coins_follow_rows (fun _ => "day")
                 {| f_date := [0; 86400000]%Z;
                    f_cols := [("A", [0; 0.5]%float);
                               ("B", [0; 2]%float)] |}
                 [0; 0]%float
                 [ {| dr_symbol := "B"; dr_cumulative_return := 2;
                      dr_price_distance := 1; dr_market_return := 0;
                      dr_relative_distance := infinity |};
                   {| dr_symbol := "A"; dr_cumulative_return := 0.5;
                      dr_price_distance := 1; dr_market_return := 0;
                      dr_relative_distance := infinity |} ]
                 ltac:(repeat constructor; simpl; intuition discriminate)))
      as (coins & E & M & N).
    + intros r [<-|[<-|[]]]; cbn; discriminate.
    + exists coins. split; [exact E|]. split; [exact N|].
      cbn in M. destruct coins as [|c1 [|c2 [|c3 t]]]; try discriminate.
      injection M as <- <-. reflexivity.
  - apply (proj1 (comparison_coins_follow_rows (fun _ => "day")
                 {| f_date := [0; 86400000]%Z;
                    f_cols := [("A", [0; 0.5]%float);
                               ("B", [0; 2]%float)] |}
                 [0; 0]%float
                 [ {| dr_symbol := "Z"; dr_cumulative_return := 1;
                      dr_price_distance := 1; dr_market_return := 0;
                      dr_relative_distance := infinity |} ]
                 ltac:(repeat constructor; simpl; tauto))).
    eexists. split; [now left | reflexivity].
Defined.

(* ===================================================================== *)
(** * 46. The aligned matrices, column by column                       *)
(* ===================================================================== *)

Lemma set_col_fresh (name : string) (c : series)
  (cols : list (string * series)) :
  ~ In name (map fst cols) -> set_col name c cols = cols ++ [(name, c)].
Proof.
  induction cols as [|[n c'] t IH]; cbn; intros H; [reflexivity|].
  destruct (String.eqb n name) eqn:E.
  - apply String.eqb_eq in E. tauto.
  - rewrite IH by tauto. reflexivity.
Qed.

Lemma NoDup_app_cons_l {A : Type} (l : list A) (x : A) (t : list A) :
  NoDup (l ++ x :: t) -> ~ In x l /\ NoDup ((l ++ [x]) ++ t).
Proof.
  intros H. split.
  - intros Hin. apply NoDup_remove_2 in H. apply H.
    apply in_or_app. now left.
  - now rewrite <- app_assoc.
Qed.

Section ColumnOrder.

Variable ref_len : nat.

Lemma price_loop_appends (hd : historical) :
  forall cols,
    NoDup (map fst cols ++ map fst hd) ->
    fold_left (add_price ref_len) hd cols =
    cols ++ flat_map (price_column ref_len) hd.
Proof.
  induction hd as [|[symbol df] t IH]; intros cols H; cbn [fold_left].
  - cbn. now rewrite app_nil_r.
  - cbn [map fst] in H. apply NoDup_app_cons_l in H as [Hfresh H].
    cbn [flat_map]. unfold price_column at 1. cbn [fst snd add_price].
    destruct (Nat.eqb (af_len df) ref_len).
    + rewrite set_col_fresh by assumption. rewrite IH.
      * now rewrite <- app_assoc.
      * rewrite map_app. exact H.
    + cbn [app]. apply IH.
      apply NoDup_remove_1 with (a := symbol).
      now rewrite <- app_assoc in H.
Qed.

Lemma return_loop_appends (hd : historical) :
  forall cols,
    NoDup (map fst cols ++ map fst hd) ->
    fold_left (add_return ref_len) hd cols =
    cols ++ flat_map (return_column ref_len) hd.
Proof.
  induction hd as [|[symbol df] t IH]; intros cols H; cbn [fold_left].
  - cbn. now rewrite app_nil_r.
  - cbn [map fst] in H. apply NoDup_app_cons_l in H as [Hfresh H].
    assert (H' : NoDup (map fst cols ++ map fst t)).
    { apply NoDup_remove_1 with (a := symbol).
      now rewrite <- app_assoc in H. }
    cbn [flat_map]. unfold return_column at 1. cbn [fst snd add_return].
    destruct (af_daily_return df) as [r|]; [|cbn [app]; now apply IH].
    destruct (Nat.eqb (af_len df) ref_len); [|cbn [app]; now apply IH].
    rewrite set_col_fresh by assumption. rewrite IH.
    + now rewrite <- app_assoc.
    + rewrite map_app. exact H.
Qed.

End ColumnOrder.

Lemma flat_map_columns_wf (n : nat) (g : string * asset_frame ->
                                          list (string * series))
  (hd : historical) :
  NoDup (map fst hd) ->
  (forall item c, In item hd -> In c (g item) ->
                  fst c = fst item /\ length (snd c) = n) ->
  (forall item, In item hd -> length (g item) <= 1) ->
  NoDup (map fst (flat_map g hd)) /\
  Forall (fun c => length (snd c) = n) (flat_map g hd).
Proof.
  intros Hnd Hg H1. split.
  - induction hd as [|item t IH]; cbn; [constructor|].
    inversion Hnd as [|x l Hx Hl]; subst.
    assert (IHt : NoDup (map fst (flat_map g t))).
    { apply IH; auto.
      - intros i c Hi Hc. apply Hg; [now right | exact Hc].
      - intros i Hi. apply H1. now right. }
    pose proof (H1 item (or_introl eq_refl)) as L1.
    destruct (g item) as [|c [|c' u]] eqn:E; cbn in L1; try lia;
      [exact IHt|].
    cbn. constructor; [|exact IHt].
    destruct (Hg item c (or_introl eq_refl)) as [Hc _];
      [rewrite E; now left|].
    rewrite Hc. intros Hin. apply in_map_iff in Hin as (c2 & E2 & Hin).
    apply in_flat_map in Hin as (i2 & Hi2 & Hc2).
    destruct (Hg i2 c2 (or_intror Hi2) Hc2) as [F _].
    apply Hx. apply in_map_iff. exists i2. split; [congruence | exact Hi2].
  - apply Forall_forall. intros c Hc.
    apply in_flat_map in Hc as (item & Hi & Hc). now apply (Hg item c).
Qed.

(** The two aligned matrices, column by column. *)
Lemma aligned_columns
  (first : string * asset_frame) (rest : historical) :
  is_dict (first :: rest) ->
  let hd := first :: rest in
  let n := af_len (snd first) in
  f_cols (combined_prices first hd) = flat_map (price_column n) hd /\
  f_cols (combined_returns first hd) = flat_map (return_column n) hd /\
  f_date (combined_prices first hd) = af_date (snd first) /\
  f_date (combined_returns first hd) = af_date (snd first) /\
  ((forall item, In item hd -> wf_asset_frame (snd item)) ->
   wf_frame (combined_prices first hd) /\
   wf_frame (combined_returns first hd)).
Proof.
  intros Hd hd n.
  assert (Ep : f_cols (combined_prices first hd)
               = flat_map (price_column n) hd).
  { unfold combined_prices. cbn [f_cols].
    now rewrite (price_loop_appends (length (af_date (snd first))) hd []
                   Hd). }
  assert (Er : f_cols (combined_returns first hd)
               = flat_map (return_column n) hd).
  { unfold combined_returns. cbn [f_cols].
    now rewrite (return_loop_appends (length (af_date (snd first))) hd []
                   Hd). }
  refine (conj Ep (conj Er (conj eq_refl (conj eq_refl _)))).
  intros W. split; unfold wf_frame.
  - rewrite Ep. apply flat_map_columns_wf; [exact Hd | |].
    + intros item c Hi Hc. unfold price_column in Hc.
      destruct (Nat.eqb (af_len (snd item)) n) eqn:E; [|contradiction].
      destruct Hc as [<-|[]]. cbn [fst snd]. split; [reflexivity|].
      apply Nat.eqb_eq in E. destruct (W item Hi) as [L _].
      rewrite L. exact E.
    + intros item Hi. unfold price_column.
      destruct (Nat.eqb (af_len (snd item)) n); cbn; lia.
  - rewrite Er. apply flat_map_columns_wf; [exact Hd | |].
    + intros item c Hi Hc. unfold return_column in Hc.
      destruct (af_daily_return (snd item)) as [r|] eqn:R;
        [|contradiction].
      destruct (Nat.eqb (af_len (snd item)) n) eqn:E; [|contradiction].
      destruct Hc as [<-|[]]. cbn [fst snd]. split; [reflexivity|].
      apply Nat.eqb_eq in E. destruct (W item Hi) as (_ & _ & _ & L).
      rewrite R in L. cbn in L. rewrite L. exact E.
    + intros item Hi. unfold return_column.
      destruct (af_daily_return (snd item));
        [destruct (Nat.eqb (af_len (snd item)) n)|]; cbn; lia.
Qed.

(** X7. For a mapping with distinct symbols, the aligned price matrix is
    exactly the price columns of the assets as long as the reference
    axis, in the order of the mapping, and the aligned return matrix the
    [daily_return] columns of those of them that have one. Both are on
    the dates of the first asset, and when every asset frame is
    well-formed both are well-formed frames: distinct column names, every
    column as long as the date axis. *)
Theorem aligned_matrices_in_mapping_order
  (first : string * asset_frame) (rest : historical) :
  is_dict (first :: rest) ->
  let hd := first :: rest in
  let n := af_len (snd first) in
  f_cols (combined_prices first hd) = flat_map (price_column n) hd /\
  f_cols (combined_returns first hd) = flat_map (return_column n) hd /\
  f_date (combined_prices first hd) = af_date (snd first) /\
  f_date (combined_returns first hd) = af_date (snd first) /\
  ((forall item, In item hd -> wf_asset_frame (snd item)) ->
   wf_frame (combined_prices first hd) /\
   wf_frame (combined_returns first hd)).
Proof. exact (aligned_columns first rest). Qed.

(** X7 on the basket: A, B and C in that order, D left out. *)
Lemma aligned_matrices_in_mapping_order_witness :
  is_dict basket /\
  map fst (f_cols basket_prices) = ["A"; "B"; "C"] /\
  map fst (f_cols basket_returns) = ["A"; "B"; "C"] /\
  wf_frame basket_prices /\ wf_frame basket_returns.
Proof.
  assert (Hd : is_dict basket).
  { unfold is_dict, basket. simpl.
    repeat constructor; simpl; intuition discriminate. }
  pose proof (aligned_matrices_in_mapping_order ("A", asset_A)
                (tl basket) Hd) as H.
  cbv zeta in H. destruct H as (Ep & Er & _ & _ & W).
  split; [exact Hd|].
  split; [reflexivity|]. split; [reflexivity|].
  apply W. intros item Hi. cbn [tl basket] in Hi.
  repeat (destruct Hi as [<-|Hi]; [repeat split; reflexivity|]).
  contradiction.
Defined.

(* ===================================================================== *)
(** * 47. Runs of the analysis scripts and of the pipeline             *)
(* ===================================================================== *)





Lemma basket_is_dict : is_dict basket.
Proof.
  unfold is_dict, basket. simpl.
  repeat constructor; simpl; intuition discriminate.
Qed.

Lemma basket_frames_wf :
  forall item, In item basket -> wf_asset_frame (snd item).
Proof.
  intros item Hi. unfold basket in Hi.
  repeat (destruct Hi as [<-|Hi]; [repeat split; reflexivity|]).
  contradiction.
Qed.


(** X9. When the first frame of the mapping has no row, the aligned
    matrices are written with an empty date axis, the correlation
    analysis stops on the division [365 / days_count] before it writes
    anything, and the pipeline ends there: the price distance analysis
    and the visualisation are not started, and the analysis artifacts
    are those the run found. *)
Theorem pipeline_halts_on_empty_reference
  (np_power : float -> float -> float) (strftime : timestamp -> string)
  (first : string * asset_frame) (rest : historical) (web : bool)
  (d : disk) :
  af_len (snd first) = 0 ->
  let hd := first :: rest in
  let run := main np_power strftime true hd web d in
  calculate_average_changes np_power (combined_returns first hd)
    = Raised "ZeroDivisionError" /\
  p_started run = [FetchTopCoins; DownloadHistoricalData;
                   AnalyzeCorrelations] /\
  p_completed run = false /\
  p_disk run = o_disk (save_combined_data hd d) /\
  combined_returns_csv (p_disk run) = Some (combined_returns first hd) /\
  average_returns_csv (p_disk run) = average_returns_csv d /\
  correlation_matrix_csv (p_disk run) = correlation_matrix_csv d /\
  price_distance_csv (p_disk run) = price_distance_csv d /\
  comparison_data_json (p_disk run) = comparison_data_json d.
Proof.
  intros N hd run.
  assert (E : calculate_average_changes np_power (combined_returns first hd)
              = Raised "ZeroDivisionError").
  { unfold calculate_average_changes, combined_returns, nrows.
    cbn [f_date]. unfold af_len in N. now rewrite N. }
  split; [exact E|].
  unfold run, main, download_historical_data_script, hd.
  cbn [negb run_script o_value o_disk save_combined_data].
  fold hd.
  set (d1 := {| combined_prices_csv := Some (combined_prices first hd) |}).
  assert (L1 : load_combined_data d1
               = Some (combined_prices first hd, combined_returns first hd))
    by reflexivity.
  unfold analyze_correlations_script. rewrite L1, E.
  cbn [negb run_script o_value o_disk p_started p_completed p_disk].
  repeat split.
Qed.

(** X9 on a mapping whose first file has only its header. *)
Lemma pipeline_halts_on_empty_reference_witness :
  p_started (main power_of_one (fun _ => "2023-11-14") true
               (("Z", header_only_frame) :: basket) true empty_disk)
  = [FetchTopCoins; DownloadHistoricalData; AnalyzeCorrelations] /\
  average_returns_csv
    (p_disk (main power_of_one (fun _ => "2023-11-14") true
               (("Z", header_only_frame) :: basket) true empty_disk))
  = None.
Proof.
  pose proof (pipeline_halts_on_empty_reference power_of_one
                (fun _ => "2023-11-14") ("Z", header_only_frame) basket
                true empty_disk eq_refl) as H.
  cbv zeta in H. destruct H as (_ & S & _ & _ & _ & A & _).
  split; [exact S | exact A].
Defined.

(** X10. The two analysis scripts read the aligned matrices only and
    write artifacts of their own: running either a second time leaves
    the same exit status, log and disk as running it once, and running
    both leaves the same disk, with the same exit statuses, in either
    order. *)
Theorem analysis_scripts_idempotent_and_commute
  (np_power : float -> float -> float) (strftime : timestamp -> string)
  (d : disk) :
  let corr := analyze_correlations_script np_power in
  let dist := analyze_price_distance_script strftime in
  corr (o_disk (corr d)) = corr d /\
  dist (o_disk (dist d)) = dist d /\
  o_disk (dist (o_disk (corr d))) = o_disk (corr (o_disk (dist d))) /\
  o_value (dist (o_disk (corr d))) = o_value (dist d) /\
  o_value (corr (o_disk (dist d))) = o_value (corr d).
Proof.
  cbv zeta. destruct d as [cp cr ar cm ac uc ma pd oo cj].
  unfold analyze_correlations_script, analyze_price_distance_script,
    load_combined_data.
  cbn [combined_prices_csv combined_returns_csv].
  destruct cp as [price_df|], cr as [returns_df|];
    cbn [o_disk combined_prices_csv combined_returns_csv];
    try (repeat split; reflexivity).
  destruct (calculate_average_changes np_power returns_df) as [rows|e]
    eqn:E1;
    destruct (calculate_price_distance returns_df
                (calculate_market_average returns_df) default_threshold)
      as [res|e'] eqn:E2;
    try destruct (generate_comparison_data strftime
                    (res_cum_returns_df res) (res_market_cum_return res)
                    (res_out_of_threshold res)) as [payload|e''] eqn:E3;
    repeat (cbn [o_disk o_value combined_prices_csv combined_returns_csv
                 average_returns_csv correlation_matrix_csv
                 average_correlations_csv uncorrelated_coins_csv
                 market_average_returns_csv price_distance_csv
                 out_of_threshold_coins_csv comparison_data_json];
            rewrite ?E1, ?E2, ?E3);
    repeat split; reflexivity.
Qed.

(* ===================================================================== *)
(** * 48. The waits of the back-off                                    *)
(* ===================================================================== *)

Lemma binary_round_aux_plus (m e : Z) (l : location) :
  (0 <= m)%Z -> sf_plus (binary_round_aux prec emax false m e l).
Proof.
  intros H. unfold binary_round_aux.
  pose proof (@shr_fexp_nonneg m e l H) as H1.
  destruct (shr_fexp prec emax m e l) as [mrs' e'] eqn:E1. simpl in H1.
  pose proof (@round_nearest_even_nonneg _ (loc_of_shr_record mrs') H1)
    as H2.
  pose proof (@shr_fexp_nonneg _ e' loc_Exact H2) as H3.
  destruct (shr_fexp prec emax _ e' loc_Exact) as [mrs'' e''] eqn:E2.
  simpl in H3.
  destruct (shr_m mrs'') as [|p|p]; cbn [sf_plus]; try lia; auto.
  destruct (Z.leb e'' (emax - prec)); cbn [sf_plus]; auto.
Qed.

(** A count converted to a float has positive sign. *)
Lemma of_uint63_plus (n : PrimInt63.int) :
  sf_plus (Prim2SF (PrimFloat.of_uint63 n)).
Proof.
  rewrite of_uint63_spec.
  pose proof (Uint63.to_Z_bounded n) as [B _].
  unfold binary_normalize, binary_round.
  destruct (Uint63Axioms.to_Z n) as [|p|p]; cbn [sf_plus]; auto; try lia.
  destruct (shl_align _ _ _) as [mz ez].
  apply binary_round_aux_plus. lia.
Qed.

Lemma positive_finite_spec (j : float) :
  is_positive_finite j = true ->
  exists m e, Prim2SF j = S754_finite false m e.
Proof.
  unfold is_positive_finite. rewrite andb_true_iff, !ltb_spec.
  change (Prim2SF 0) with (S754_zero false).
  change (Prim2SF infinity) with (S754_infinity false).
  unfold SFltb.
  destruct (Prim2SF j) as [s|s| |s m e]; cbn; intros [A B];
    try discriminate; destruct s; try discriminate.
  now exists m, e.
Qed.

Lemma mul_plus (d j : float) :
  sf_plus (Prim2SF d) -> is_positive_finite j = true ->
  sf_plus (Prim2SF (d * j)%float).
Proof.
  intros D H. apply positive_finite_spec in H as (m & e & E).
  rewrite mul_spec, E. unfold SF64mul, SFmul.
  destruct (Prim2SF d) as [s|s| |s m' e']; cbn in D |- *;
    try destruct s; try contradiction; cbn; auto.
  apply binary_round_aux_plus. lia.
Qed.

Lemma plus_notna (x : float) : sf_plus (Prim2SF x) -> isna x = false.
Proof.
  intros H. apply isna_false_spec. intros E. rewrite E in H. exact H.
Qed.

Lemma plus_not_below_zero (x : float) :
  sf_plus (Prim2SF x) -> (x <? 0)%float = false.
Proof.
  intros H. rewrite ltb_spec. change (Prim2SF 0) with (S754_zero false).
  unfold SFltb.
  destruct (Prim2SF x) as [s|s| |s m e]; cbn in H |- *;
    try destruct s; try contradiction; reflexivity.
Qed.

(** A product of positive sign is slept, capped. *)
Lemma plus_sleeps (x : float) :
  sf_plus (Prim2SF x) -> time_sleep (py_min_cap x) = Returned (py_min_cap x).
Proof.
  intros H. unfold time_sleep, py_min_cap.
  destruct (MAX_RETRY_DELAY <? x)%float; [reflexivity|].
  now rewrite (plus_notna x H), (plus_not_below_zero x H).
Qed.

Lemma py_float_of_small_int (z : Z) :
  (0 <= z < 2 ^ 63)%Z ->
  py_float_of_int z = Returned (PrimFloat.of_uint63 (Uint63.of_Z z)).
Proof.
  intros [A B]. unfold py_float_of_int.
  destruct (Z.leb_spec 0 z); [|lia].
  destruct (Z.ltb_spec z (2 ^ 63)); [|lia]. reflexivity.
Qed.

(** With a delay below [2 ^ 63] and a positive finite jitter the wait is
    slept. *)
Lemma back_off_returns (delay : Z) (j : float) :
  (0 <= delay < 2 ^ 63)%Z -> is_positive_finite j = true ->
  back_off delay j
  = Returned (py_min_cap (PrimFloat.of_uint63 (Uint63.of_Z delay) * j)%float).
Proof.
  intros R H. unfold back_off. rewrite (py_float_of_small_int delay R).
  apply plus_sleeps, mul_plus; [apply of_uint63_plus | exact H].
Qed.

Lemma SFcompare_antisym (x y : spec_float) (c : Datatypes.comparison) :
  SFcompare x y = Some c -> SFcompare y x = Some (CompOpp c).
Proof.
  destruct x as [s|s| |s m e], y as [s'|s'| |s' m' e']; cbn;
    intros H; try discriminate; injection H as <-;
    try (destruct s; try destruct s'; reflexivity).
  destruct s, s'; cbn; try reflexivity;
    rewrite (Z.compare_antisym e e');
    destruct (e ?= e')%Z; cbn; try reflexivity;
    rewrite (Pos.compare_cont_antisym m m' Eq); cbn;
    rewrite ?CompOpp_involutive; reflexivity.
Qed.

(** Among numbers, what is not above is at most. *)
Lemma not_ltb_leb (x y : float) :
  isna x = false -> isna y = false ->
  (y <? x)%float = false -> (x <=? y)%float = true.
Proof.
  rewrite !isna_false_spec, ltb_spec, leb_spec. unfold SFltb, SFleb.
  intros X Y H.
  destruct (SFcompare (Prim2SF y) (Prim2SF x)) as [c|] eqn:E.
  - rewrite (SFcompare_antisym _ _ c E). destruct c; cbn; congruence.
  - destruct (Prim2SF x) as [s|s| |s m e], (Prim2SF y) as [s'|s'| |s' m' e'];
      cbn in E; congruence.
Qed.

(** Every wait slept is between 0 and [MAX_RETRY_DELAY] seconds. *)
Lemma slept_bounded (x t : float) :
  time_sleep (py_min_cap x) = Returned t -> is_bounded_wait t = true.
Proof.
  unfold time_sleep. intros H.
  destruct (isna (py_min_cap x)) eqn:N; [discriminate|].
  destruct (py_min_cap x <? 0)%float eqn:L; [discriminate|].
  cbn in H. injection H as <-.
  unfold is_bounded_wait. apply andb_true_iff. split.
  - apply not_ltb_leb; auto.
  - unfold py_min_cap in *.
    destruct (MAX_RETRY_DELAY <? x)%float eqn:C; [reflexivity|].
    apply not_ltb_leb; auto.
Qed.

Lemma back_off_bounded (delay : Z) (j t : float) :
  back_off delay j = Returned t -> is_bounded_wait t = true.
Proof.
  unfold back_off. destruct (py_float_of_int delay) as [d|e];
    [|discriminate].
  apply slept_bounded.
Qed.

(* ===================================================================== *)
(** * 49. The retry loop of get_with_retry                             *)
(* ===================================================================== *)

Section RetryLoop.

Variable J : Type.
Variable py_none : J.
Variable json_error : bool.
Variable jitter : nat -> float.
Variable max_retries : Z.

(** Whatever the responses, a finished loop has slept bounded waits, at
    most one per retry left, and has made at most one request per retry
    left and per response passed over. *)
Lemma retry_loop_bounds (responses : list (http_result J)) :
  forall (rc delay : Z) (n : nat) (sl : list float) (run : retry_run J),
  retry_loop py_none json_error jitter max_retries responses rc delay n sl
  = Some run ->
  Forall (fun t => is_bounded_wait t = true) sl ->
  Forall (fun t => is_bounded_wait t = true) (rr_sleeps run) /\
  (Z.of_nat (length (rr_sleeps run))
   <= Z.of_nat (length sl) + Z.max 0 (max_retries + 1 - rc))%Z /\
  (Z.of_nat (rr_requests run)
   <= Z.of_nat n + Z.of_nat (length (filter (@is_passed_over J) responses))
      + Z.max 0 (max_retries + 1 - rc))%Z.
Proof.
  induction responses as [|r rest IH]; intros rc delay n sl run H Hsl.
  - cbn [retry_loop] in H.
    destruct (rc <=? max_retries)%Z eqn:C; [discriminate|].
    injection H as <-. cbn. split; [exact Hsl | lia].
  - cbn [retry_loop] in H.
    destruct (rc <=? max_retries)%Z eqn:C.
    2:{ injection H as <-. cbn [rr_sleeps rr_requests].
        split; [exact Hsl | lia]. }
    apply Z.leb_le in C.
    set (po := length (filter (@is_passed_over J) rest)).
    assert (Q : forall run' : retry_run J,
      Forall (fun t => is_bounded_wait t = true) (rr_sleeps run') /\
      (Z.of_nat (length (rr_sleeps run'))
       <= Z.of_nat (length sl) + (max_retries + 1 - rc))%Z /\
      (Z.of_nat (rr_requests run')
       <= Z.of_nat n + Z.of_nat po + (max_retries + 1 - rc))%Z ->
      Forall (fun t => is_bounded_wait t = true) (rr_sleeps run') /\
      (Z.of_nat (length (rr_sleeps run'))
       <= Z.of_nat (length sl) + Z.max 0 (max_retries + 1 - rc))%Z /\
      (Z.of_nat (rr_requests run')
       <= Z.of_nat n
          + Z.of_nat (length (filter (@is_passed_over J) (r :: rest)))
          + Z.max 0 (max_retries + 1 - rc))%Z).
    { intros run' (A & B & D). split; [exact A|]. split; [lia|].
      assert (po <= length (filter (@is_passed_over J) (r :: rest)))%nat.
      { cbn [filter]. destruct (is_passed_over r); cbn [length]; lia. }
      lia. }
    assert (Done : forall (v : py_result J) (run' : retry_run J),
      Some {| rr_value := v; rr_requests := S n; rr_sleeps := sl |}
      = Some run' ->
      Forall (fun t => is_bounded_wait t = true) (rr_sleeps run') /\
      (Z.of_nat (length (rr_sleeps run'))
       <= Z.of_nat (length sl) + (max_retries + 1 - rc))%Z /\
      (Z.of_nat (rr_requests run')
       <= Z.of_nat n + Z.of_nat po + (max_retries + 1 - rc))%Z).
    { intros v run' E. injection E as <-. cbn [rr_sleeps rr_requests].
      split; [exact Hsl | lia]. }
    assert (RL : forall run' : retry_run J,
      match back_off delay (jitter (length sl)) with
      | Raised e =>
          Some {| rr_value := Raised e; rr_requests := S n;
                  rr_sleeps := sl |}
      | Returned t =>
          retry_loop py_none json_error jitter max_retries rest
            (rc + 1)%Z (delay * 2)%Z (S n) (sl ++ [t])
      end = Some run' ->
      Forall (fun t => is_bounded_wait t = true) (rr_sleeps run') /\
      (Z.of_nat (length (rr_sleeps run'))
       <= Z.of_nat (length sl) + (max_retries + 1 - rc))%Z /\
      (Z.of_nat (rr_requests run')
       <= Z.of_nat n + Z.of_nat po + (max_retries + 1 - rc))%Z).
    { intros run' E.
      destruct (back_off delay (jitter (length sl))) as [t|e] eqn:B.
      - apply back_off_bounded in B.
        apply IH in E.
        2:{ apply Forall_app. split; [exact Hsl|]. now constructor. }
        destruct E as (A & L & R). rewrite length_app in L. cbn in L.
        fold po in R. split; [exact A | lia].
      - now apply Done in E. }
    assert (RE : forall run' : retry_run J,
      (if (max_retries <? rc + 1)%Z
       then Some {| rr_value := Returned py_none; rr_requests := S n;
                    rr_sleeps := sl |}
       else
         match back_off delay (jitter (length sl)) with
         | Raised e =>
             Some {| rr_value := Raised e; rr_requests := S n;
                     rr_sleeps := sl |}
         | Returned t =>
             retry_loop py_none json_error jitter max_retries rest
               (rc + 1)%Z (delay * 2)%Z (S n) (sl ++ [t])
         end) = Some run' ->
      Forall (fun t => is_bounded_wait t = true) (rr_sleeps run') /\
      (Z.of_nat (length (rr_sleeps run'))
       <= Z.of_nat (length sl) + (max_retries + 1 - rc))%Z /\
      (Z.of_nat (rr_requests run')
       <= Z.of_nat n + Z.of_nat po + (max_retries + 1 - rc))%Z).
    { intros run' E. destruct (max_retries <? rc + 1)%Z.
      - now apply Done in E.
      - now apply RL. }
    destruct r as [status json|]; [|now apply Q, RE].
    destruct (status =? 200)%Z eqn:S2.
    { destruct json as [data|].
      - now apply Q, (Done (Returned data)).
      - destruct json_error; [now apply Q, RE|].
        now apply Q, (Done (Raised "JSONDecodeError")). }
    destruct (status =? 429)%Z eqn:S4; [now apply Q, RL|].
    destruct (raises_for_status status) eqn:S5; [now apply Q, RE|].
    apply IH in H; [|exact Hsl]. destruct H as (A & L & R).
    split; [exact A|]. split; [lia|].
    cbn [filter is_passed_over]. rewrite S2, S4, S5. cbn [negb andb length].
    lia.
Qed.

(** A response that is passed over costs a request and nothing else. *)
Lemma retry_loop_passes_over (others rest : list (http_result J)) :
  Forall (fun r => is_passed_over r = true) others ->
  forall (rc delay : Z) (n : nat) (sl : list float),
  (rc <= max_retries)%Z ->
  retry_loop py_none json_error jitter max_retries (others ++ rest)
    rc delay n sl
  = retry_loop py_none json_error jitter max_retries rest
      rc delay (length others + n) sl.
Proof.
  induction 1 as [|r others Hr _ IH]; intros rc delay n sl C;
    [reflexivity|].
  cbn [app retry_loop length].
  destruct (Z.leb_spec rc max_retries); [|lia].
  destruct r as [status json|]; [|discriminate].
  unfold is_passed_over in Hr.
  destruct (status =? 200)%Z; [discriminate|].
  destruct (status =? 429)%Z; [discriminate|].
  destruct (raises_for_status status); [discriminate|].
  rewrite IH by exact C. f_equal. lia.
Qed.

(** Requests made before the loop only add to the count. *)
Lemma retry_loop_after_requests (k : nat) (responses : list (http_result J)) :
  forall (rc delay : Z) (n : nat) (sl : list float),
  retry_loop py_none json_error jitter max_retries responses
    rc delay (k + n) sl
  = option_map (after_requests k)
      (retry_loop py_none json_error jitter max_retries responses
         rc delay n sl).
Proof.
  induction responses as [|r rest IH]; intros rc delay n sl;
    cbn [retry_loop]; rewrite ?plus_n_Sm;
    destruct (rc <=? max_retries)%Z; try reflexivity.
  assert (RL :
    match back_off delay (jitter (length sl)) with
    | Raised e =>
        Some {| rr_value := Raised e; rr_requests := k + S n;
                rr_sleeps := sl |}
    | Returned t =>
        retry_loop py_none json_error jitter max_retries rest
          (rc + 1)%Z (delay * 2)%Z (k + S n) (sl ++ [t])
    end
    = option_map (after_requests k)
        match back_off delay (jitter (length sl)) with
        | Raised e =>
            Some {| rr_value := Raised e; rr_requests := S n;
                    rr_sleeps := sl |}
        | Returned t =>
            retry_loop py_none json_error jitter max_retries rest
              (rc + 1)%Z (delay * 2)%Z (S n) (sl ++ [t])
        end).
  { destruct (back_off delay (jitter (length sl))); [apply IH|reflexivity]. }
  destruct r as [status json|].
  - destruct (status =? 200)%Z.
    { destruct json; [reflexivity|]. destruct json_error; [|reflexivity].
      destruct (max_retries <? rc + 1)%Z; [reflexivity | exact RL]. }
    destruct (status =? 429)%Z; [exact RL|].
    destruct (raises_for_status status); [|apply IH].
    destruct (max_retries <? rc + 1)%Z; [reflexivity | exact RL].
  - destruct (max_retries <? rc + 1)%Z; [reflexivity | exact RL].
Qed.

(** ** Runs with a positive finite jitter and delays below [2 ^ 63] *)

Variable initial_delay : Z.
Hypothesis jitter_ok : forall k, is_positive_finite (jitter k) = true.
Hypothesis delay_ok :
  (0 <= initial_delay /\ initial_delay * 2 ^ max_retries < 2 ^ 63)%Z.

Lemma delay_in_range (k : nat) :
  (Z.of_nat k <= max_retries)%Z ->
  (0 <= delay_after initial_delay k < 2 ^ 63)%Z.
Proof.
  unfold delay_after.
  intros K. destruct delay_ok as [A B].
  assert (P : (0 < 2 ^ Z.of_nat k)%Z) by (apply Z.pow_pos_nonneg; lia).
  assert (M : (2 ^ Z.of_nat k <= 2 ^ max_retries)%Z)
    by (apply Z.pow_le_mono_r; lia).
  nia.
Qed.

Lemma back_off_nth (k : nat) :
  (Z.of_nat k <= max_retries)%Z ->
  back_off (delay_after initial_delay k)
           (jitter (length (waits initial_delay jitter k)))
  = Returned (nth_wait initial_delay jitter k).
Proof.
  intros K. unfold waits. rewrite length_map, length_seq.
  exact (back_off_returns _ _ (delay_in_range k K) (jitter_ok k)).
Qed.

Lemma waits_succ (k : nat) :
  waits initial_delay jitter k ++ [nth_wait initial_delay jitter k]
  = waits initial_delay jitter (S k).
Proof. unfold waits. rewrite seq_S, map_app. reflexivity. Qed.

Lemma delay_succ (k : nat) :
  (delay_after initial_delay k * 2)%Z = delay_after initial_delay (S k).
Proof.
  unfold delay_after. rewrite Nat2Z.inj_succ, Z.pow_succ_r by lia. ring.
Qed.

(** One retry: a rate limit while the count is at most [max_retries], a
    request error while it is below. *)
Lemma retry_step (r : http_result J) (rest : list (http_result J))
  (k n : nat) :
  (is_rate_limited r = true /\ (Z.of_nat k <= max_retries)%Z) \/
  (is_request_error r = true /\ (Z.of_nat k < max_retries)%Z) ->
  retry_loop py_none json_error jitter max_retries (r :: rest)
    (Z.of_nat k) (delay_after initial_delay k) n
    (waits initial_delay jitter k)
  = retry_loop py_none json_error jitter max_retries rest
      (Z.of_nat (S k)) (delay_after initial_delay (S k)) (S n)
      (waits initial_delay jitter (S k)).
Proof.
  intros H. cbn [retry_loop].
  assert (K : (Z.of_nat k <= max_retries)%Z)
    by (destruct H as [[_ ?]|[_ ?]]; lia).
  destruct (Z.leb_spec (Z.of_nat k) max_retries); [|lia].
  rewrite (back_off_nth k K), waits_succ, delay_succ.
  replace (Z.of_nat k + 1)%Z with (Z.of_nat (S k)) by lia.
  destruct H as [[R _]|[R L]].
  - destruct r as [status json|]; [|discriminate]. cbn in R.
    apply Z.eqb_eq in R. subst status. reflexivity.
  - destruct (Z.ltb_spec max_retries (Z.of_nat (S k))); [lia|].
    destruct r as [status json|]; [|reflexivity].
    unfold is_request_error in R.
    destruct (status =? 200)%Z; [discriminate|].
    destruct (status =? 429)%Z; [discriminate|].
    cbn in R. rewrite R. reflexivity.
Qed.

(** The request error that uses up the last retry ends the run without a
    wait. *)
Lemma retry_last_error (r : http_result J) (rest : list (http_result J))
  (k n : nat) :
  is_request_error r = true -> Z.of_nat k = max_retries ->
  retry_loop py_none json_error jitter max_retries (r :: rest)
    (Z.of_nat k) (delay_after initial_delay k) n
    (waits initial_delay jitter k)
  = Some {| rr_value := Returned py_none; rr_requests := S n;
            rr_sleeps := waits initial_delay jitter k |}.
Proof.
  intros R K. cbn [retry_loop].
  destruct (Z.leb_spec (Z.of_nat k) max_retries); [|lia].
  destruct (Z.ltb_spec max_retries (Z.of_nat k + 1)); [|lia].
  destruct r as [status json|]; [|reflexivity].
  unfold is_request_error in R.
  destruct (status =? 200)%Z; [discriminate|].
  destruct (status =? 429)%Z; [discriminate|].
  cbn in R. rewrite R. reflexivity.
Qed.

(** With no retry left the loop is not entered. *)
Lemma retry_exhausted (responses : list (http_result J)) (rc delay : Z)
  (n : nat) (sl : list float) :
  (max_retries < rc)%Z ->
  retry_loop py_none json_error jitter max_retries responses rc delay n sl
  = Some {| rr_value := Returned py_none; rr_requests := n;
            rr_sleeps := sl |}.
Proof.
  intros K. destruct responses; cbn [retry_loop];
    destruct (Z.leb_spec rc max_retries); try lia; reflexivity.
Qed.

Lemma retry_success (data : J) (rest : list (http_result J)) (rc delay : Z)
  (n : nat) (sl : list float) :
  (rc <= max_retries)%Z ->
  retry_loop py_none json_error jitter max_retries
    (Response 200 (Some data) :: rest) rc delay n sl
  = Some {| rr_value := Returned data; rr_requests := S n;
            rr_sleeps := sl |}.
Proof.
  intros K. cbn [retry_loop].
  destruct (Z.leb_spec rc max_retries); [reflexivity | lia].
Qed.

(** A run of responses that each cost a retry, within the retries left. *)
Lemma retry_prefix (retries rest : list (http_result J)) :
  Forall (fun r => is_rate_limited r || is_request_error r = true)
         retries ->
  forall k n : nat,
  (Z.of_nat (k + length retries) <= max_retries)%Z ->
  retry_loop py_none json_error jitter max_retries (retries ++ rest)
    (Z.of_nat k) (delay_after initial_delay k) n
    (waits initial_delay jitter k)
  = retry_loop py_none json_error jitter max_retries rest
      (Z.of_nat (k + length retries))
      (delay_after initial_delay (k + length retries))
      (n + length retries)
      (waits initial_delay jitter (k + length retries)).
Proof.
  induction 1 as [|r retries Hr _ IH]; intros k n K.
  - cbn [app length]. now rewrite !Nat.add_0_r.
  - cbn [app length] in *. rewrite retry_step.
    + rewrite IH by lia. now rewrite <- !plus_n_Sm.
    + apply orb_true_iff in Hr as [Hr|Hr]; [left|right]; split; auto; lia.
Qed.

(** The same from the start of [get_with_retry]. *)
Lemma get_with_retry_prefix (retries rest : list (http_result J)) :
  Forall (fun r => is_rate_limited r || is_request_error r = true)
         retries ->
  (Z.of_nat (length retries) <= max_retries)%Z ->
  get_with_retry py_none json_error jitter max_retries (retries ++ rest)
                 initial_delay
  = retry_loop py_none json_error jitter max_retries rest
      (Z.of_nat (length retries))
      (delay_after initial_delay (length retries))
      (length retries) (waits initial_delay jitter (length retries)).
Proof.
  intros H K. unfold get_with_retry.
  pose proof (retry_prefix retries rest H 0 0 K) as P.
  assert (D : delay_after initial_delay 0 = initial_delay)
    by (unfold delay_after; cbn [Z.of_nat]; rewrite Z.pow_0_r; lia).
  rewrite D in P. exact P.
Qed.

End RetryLoop.

(* ===================================================================== *)
(** * 50. What get_with_retry does with the answers it gets            *)
(* ===================================================================== *)

(** X11. Whatever the server answers and whatever jitter is drawn, a
    finished [get_with_retry] has slept at most [max_retries + 1] times,
    each time between 0 and 120 seconds, and has made at most
    [max_retries + 1] requests besides those whose status it passed
    over. *)
Theorem get_with_retry_is_bounded (J : Type) (py_none : J)
  (json_error : bool) (jitter : nat -> float)
  (max_retries initial_delay : Z) (responses : list (http_result J))
  (run : retry_run J) :
  get_with_retry py_none json_error jitter max_retries responses
                 initial_delay = Some run ->
  Forall (fun t => is_bounded_wait t = true) (rr_sleeps run) /\
  (Z.of_nat (length (rr_sleeps run)) <= Z.max 0 (max_retries + 1))%Z /\
  (Z.of_nat (rr_requests run)
   <= Z.of_nat (length (filter (@is_passed_over J) responses))
      + Z.max 0 (max_retries + 1))%Z.
Proof.
  intros H. unfold get_with_retry in H.
  apply retry_loop_bounds in H; [|constructor].
  destruct H as (A & B & C). cbn [length Z.of_nat] in B, C.
  rewrite Z.sub_0_r in B, C. split; [exact A|]. split; [exact B|].
  rewrite Z.add_0_l in C. exact C.
Qed.

(** X11 on six rate-limited answers with the defaults and the largest
    jitter: six waits, the last two capped. *)
Lemma get_with_retry_is_bounded_witness :
  Forall (fun t => is_bounded_wait t = true)
         [12; 24; 48; 96; 120; 120]%float /\
  (6 <= Z.max 0 (MAX_RETRIES + 1))%Z /\
  (6 <= 0 + Z.max 0 (MAX_RETRIES + 1))%Z.
Proof.
  exact (get_with_retry_is_bounded (option Z) None true
           (fun _ => 1.2%float) MAX_RETRIES INITIAL_RETRY_DELAY
           (repeat (Response 429 None) 6)
           {| rr_value := Returned None; rr_requests := 6;
              rr_sleeps := [12; 24; 48; 96; 120; 120]%float |}
           eq_refl).
Defined.

(** X12. A response whose status is neither 200 nor 429 nor an error
    (204 or 304, say) is asked for again at once: it costs a request,
    but no wait and no retry, so the run goes on as if it had not come,
    and a server that only gives such answers is asked without end. *)
Theorem passed_over_status_is_retried_at_once (J : Type) (py_none : J)
  (json_error : bool) (jitter : nat -> float)
  (max_retries initial_delay : Z) (others rest : list (http_result J)) :
  (0 <= max_retries)%Z ->
  Forall (fun r => is_passed_over r = true) others ->
  get_with_retry py_none json_error jitter max_retries (others ++ rest)
                 initial_delay
  = option_map (after_requests (length others))
      (get_with_retry py_none json_error jitter max_retries rest
                      initial_delay) /\
  get_with_retry py_none json_error jitter max_retries others
                 initial_delay = None.
Proof.
  intros M H. unfold get_with_retry.
  assert (E : forall rest',
    retry_loop py_none json_error jitter max_retries (others ++ rest')
               0 initial_delay 0 []
    = option_map (after_requests (length others))
        (retry_loop py_none json_error jitter max_retries rest'
                    0 initial_delay 0 [])).
  { intros rest'. rewrite retry_loop_passes_over by assumption.
    apply retry_loop_after_requests. }
  split; [apply E|].
  rewrite <- (app_nil_r others) at 1. rewrite E. cbn [retry_loop].
  destruct (Z.leb_spec 0 max_retries); [reflexivity | lia].
Qed.

(** X12 on a 204 and a 304 before the data. *)
Lemma passed_over_status_is_retried_at_once_witness :
  get_with_retry None true (fun _ => 1%float) MAX_RETRIES
    [Response 204 None; Response 304 None; Response 200 (Some (Some 7%Z))]
    INITIAL_RETRY_DELAY
  = Some {| rr_value := Returned (Some 7%Z); rr_requests := 3;
            rr_sleeps := [] |} /\
  get_with_retry (@None Z) true (fun _ => 1%float) MAX_RETRIES
    [Response 204 None; Response 304 None] INITIAL_RETRY_DELAY = None.
Proof.
  exact (passed_over_status_is_retried_at_once (option Z) None true
           (fun _ => 1%float) MAX_RETRIES INITIAL_RETRY_DELAY
           [Response 204 None; Response 304 None]
           [Response 200 (Some (Some 7%Z))]
           ltac:(discriminate)
           ltac:(repeat constructor)).
Defined.

(** X13. With a positive finite jitter and delays below [2 ^ 63], the
    first answer with status 200 and a JSON body is returned when at
    most [max_retries] rate limits and request errors come before it:
    one request and one wait per retry, the [k]-th wait being the
    initial delay doubled [k] times, times its jitter, capped at 120
    seconds. *)
Theorem first_success_is_returned (J : Type) (py_none : J)
  (json_error : bool) (jitter : nat -> float)
  (max_retries initial_delay : Z)
  (retries rest : list (http_result J)) (data : J) :
  (forall k, is_positive_finite (jitter k) = true) ->
  (0 <= initial_delay /\ initial_delay * 2 ^ max_retries < 2 ^ 63)%Z ->
  Forall (fun r => is_rate_limited r || is_request_error r = true)
         retries ->
  (Z.of_nat (length retries) <= max_retries)%Z ->
  get_with_retry py_none json_error jitter max_retries
    (retries ++ Response 200 (Some data) :: rest) initial_delay
  = Some {| rr_value := Returned data;
            rr_requests := S (length retries);
            rr_sleeps := waits initial_delay jitter (length retries) |}.
Proof.
  intros Hj Hd Hr K.
  rewrite (get_with_retry_prefix J py_none json_error jitter max_retries
             initial_delay Hj Hd retries _ Hr K).
  now apply retry_success.
Qed.

(** X13 after a rate limit, a lost connection and a 503, with the
    defaults and no jitter: waits of 10, 20 and 40 seconds. *)
Lemma first_success_is_returned_witness :
  get_with_retry None true (fun _ => 1%float) MAX_RETRIES
    [Response 429 None; RequestException; Response 503 None;
     Response 200 (Some (Some 7%Z)); Response 200 (Some (Some 8%Z))]
    INITIAL_RETRY_DELAY
  = Some {| rr_value := Returned (Some 7%Z); rr_requests := 4;
            rr_sleeps := [10; 20; 40]%float |}.
Proof.
  exact (first_success_is_returned (option Z) None true
           (fun _ => 1%float) MAX_RETRIES INITIAL_RETRY_DELAY
           [Response 429 None; RequestException; Response 503 None]
           [Response 200 (Some (Some 8%Z))] (Some 7%Z)
           (fun _ => eq_refl)
           ltac:(split; [discriminate | reflexivity])
           ltac:(repeat constructor)
           ltac:(discriminate)).
Defined.

(** X14. With a positive finite jitter and delays below [2 ^ 63], after
    [max_retries] rate limits and request errors one more of them makes
    [get_with_retry] return [None]: a request error at once, after
    [max_retries] waits, but a rate limit only after one more wait,
    which no request follows. *)
Theorem retries_used_up_return_none (J : Type) (py_none : J)
  (json_error : bool) (jitter : nat -> float)
  (max_retries initial_delay : Z)
  (retries rest : list (http_result J)) (r : http_result J) :
  (forall k, is_positive_finite (jitter k) = true) ->
  (0 <= initial_delay /\ initial_delay * 2 ^ max_retries < 2 ^ 63)%Z ->
  Forall (fun r => is_rate_limited r || is_request_error r = true)
         retries ->
  Z.of_nat (length retries) = max_retries ->
  (is_request_error r = true ->
   get_with_retry py_none json_error jitter max_retries
     (retries ++ r :: rest) initial_delay
   = Some {| rr_value := Returned py_none;
             rr_requests := S (length retries);
             rr_sleeps := waits initial_delay jitter (length retries) |}) /\
  (is_rate_limited r = true ->
   get_with_retry py_none json_error jitter max_retries
     (retries ++ r :: rest) initial_delay
   = Some {| rr_value := Returned py_none;
             rr_requests := S (length retries);
             rr_sleeps := waits initial_delay jitter (S (length retries)) |}).
Proof.
  intros Hj Hd Hr K.
  assert (K' : (Z.of_nat (length retries) <= max_retries)%Z) by lia.
  split; intros R;
    rewrite (get_with_retry_prefix J py_none json_error jitter max_retries
               initial_delay Hj Hd retries _ Hr K').
  - now apply retry_last_error.
  - rewrite (retry_step J py_none json_error jitter max_retries
               initial_delay Hj Hd r rest (length retries)
               (length retries) (or_introl (conj R K'))).
    apply retry_exhausted. lia.
Qed.

(** X14 with two retries allowed: a third lost connection ends the run
    after two waits, a third rate limit after three. *)
Lemma retries_used_up_return_none_witness :
  get_with_retry (@None Z) true (fun _ => 1%float) 2
    [Response 429 None; Response 500 None; RequestException]
    INITIAL_RETRY_DELAY
  = Some {| rr_value := Returned None; rr_requests := 3;
            rr_sleeps := [10; 20]%float |} /\
  get_with_retry (@None Z) true (fun _ => 1%float) 2
    [Response 429 None; Response 500 None; Response 429 None]
    INITIAL_RETRY_DELAY
  = Some {| rr_value := Returned None; rr_requests := 3;
            rr_sleeps := [10; 20; 40]%float |}.
Proof.
  split.
  - exact (proj1 (retries_used_up_return_none (option Z) None true
             (fun _ => 1%float) 2 INITIAL_RETRY_DELAY
             [Response 429 None; Response 500 None] [] RequestException
             (fun _ => eq_refl)
             ltac:(split; [discriminate | reflexivity])
             ltac:(repeat constructor)
             eq_refl) eq_refl).
  - exact (proj2 (retries_used_up_return_none (option Z) None true
             (fun _ => 1%float) 2 INITIAL_RETRY_DELAY
             [Response 429 None; Response 500 None] [] (Response 429 None)
             (fun _ => eq_refl)
             ltac:(split; [discriminate | reflexivity])
             ltac:(repeat constructor)
             eq_refl) eq_refl).
Defined.

(* ===================================================================== *)
(** * 51. Ties in the two rankings                                     *)
(* ===================================================================== *)







(* ===================================================================== *)
(** * 52. Daily returns and where the cumulative series start          *)
(* ===================================================================== *)

(** A ratio to a missing value is missing. *)
Lemma change_from_nan (x : float) : (x / nan - 1)%float = nan.
Proof.
  apply nan_unique, isna_spec.
  rewrite sub_spec, div_spec. change (Prim2SF nan) with S754_nan.
  unfold SF64sub, SF64div, SFsub, SFdiv.
  destruct (Prim2SF x) as [s|s| |s m e]; reflexivity.
Qed.

Lemma ffill_from_valid (last : float) (s : series) :
  Forall (fun x => isna x = false) s -> ffill_from last s = s.
Proof.
  intros H. revert last. induction H as [|x t Hx _ IH]; intros last;
    cbn [ffill_from]; [reflexivity|].
  rewrite Hx. now rewrite IH.
Qed.

Lemma length_ffill_from (last : float) (s : series) :
  length (ffill_from last s) = length s.
Proof.
  revert last. induction s as [|x t IH]; intros last; [reflexivity|].
  cbn [ffill_from length]. now rewrite IH.
Qed.

Lemma changes_after (prev : float) (t : series) :
  map (fun p => (fst p / snd p - 1)%float)
      (combine t (removelast (prev :: t)))
  = pct_change_from prev t.
Proof.
  revert prev. induction t as [|y t IH]; intros prev; [reflexivity|].
  change (removelast (prev :: y :: t)) with (prev :: removelast (y :: t)).
  cbn [combine map fst snd pct_change_from]. now rewrite IH.
Qed.

(** The first daily return is missing whatever the prices are. *)
Lemma series_pct_change_head (pad : bool) (x : float) (t : series) :
  exists r, series_pct_change pad (x :: t) = nan :: r /\
            length r = length t.
Proof.
  unfold series_pct_change.
  assert (G : forall d0 dt,
    length dt = length t ->
    exists r,
      map (fun p => (fst p / snd p - 1)%float)
          (combine (d0 :: dt) (shift (d0 :: dt))) = nan :: r /\
      length r = length t).
  { intros d0 dt L. cbn [shift combine map fst snd].
    rewrite change_from_nan. eexists. split; [reflexivity|].
    rewrite length_map, length_combine, removelast_firstn_len.
    rewrite length_firstn. cbn [length Nat.pred]. lia. }
  destruct pad.
  - unfold ffill. cbn [ffill_from]. apply G, length_ffill_from.
  - now apply G.
Qed.

Lemma length_series_pct_change (pad : bool) (s : series) :
  length (series_pct_change pad s) = length s.
Proof.
  destruct s as [|x t]; [now destruct pad|].
  destruct (series_pct_change_head pad x t) as (r & -> & L).
  cbn [length]. now rewrite L.
Qed.

(** The cumulative series of returns that start with a missing value
    starts at 0. *)
Lemma cumulative_series_head (t : series) :
  exists c, cumulative_series (nan :: t) = 0%float :: c.
Proof.
  unfold cumulative_series, cumprod, np_cumprod, fillna.
  cbn [map combine cumprod_from fst snd].
  eexists. reflexivity.
Qed.

Lemma all_nan_count (s : series) :
  Forall (fun x => x = nan) s -> count_valid s = 0.
Proof.
  unfold count_valid. induction 1 as [|x t -> _ IH]; [reflexivity|].
  cbn [filter]. change (notna nan) with false. exact IH.
Qed.

(** On prices without gaps the returns do not depend on the filling of
    gaps: NaN first, then each price over the one before, less 1. *)
Lemma series_pct_change_without_gaps (pad : bool) (prices : series) :
  Forall (fun x => isna x = false) prices ->
  series_pct_change pad prices = pct_change prices.
Proof.
  intros H. unfold series_pct_change.
  assert (E : (if pad then ffill prices else prices) = prices)
    by (destruct pad; [now apply ffill_from_valid | reflexivity]).
  rewrite E. destruct prices as [|x t]; [reflexivity|].
  cbn [shift combine map fst snd pct_change].
  now rewrite change_from_nan, changes_after.
Qed.

(** The return columns of frames that carry the returns of their prices
    start with a missing value. *)
Lemma return_columns_start_missing (pad : bool)
  (first : string * asset_frame) (rest : historical) :
  is_dict (first :: rest) ->
  (forall item, In item (first :: rest) ->
     wf_asset_frame (snd item) /\ has_daily_returns pad (snd item)) ->
  af_len (snd first) <> 0 ->
  Forall (fun c => exists t, snd c = nan :: t)
         (f_cols (combined_returns first (first :: rest))).
Proof.
  intros Hd H N.
  destruct (aligned_columns first rest Hd) as (_ & Er & _).
  cbv zeta in Er. rewrite Er. apply Forall_forall. intros c Hc.
  apply in_flat_map in Hc as (item & Hi & Hc).
  destruct (H item Hi) as [(Lp & _) R].
  unfold return_column in Hc. unfold has_daily_returns in R.
  rewrite R in Hc.
  destruct (Nat.eqb_spec (af_len (snd item)) (af_len (snd first)))
    as [L|L]; [|contradiction].
  destruct Hc as [<-|[]]. cbn [snd].
  destruct (af_price (snd item)) as [|x t] eqn:P.
  - cbn in Lp. congruence.
  - destruct (series_pct_change_head pad x t) as (r & -> & _).
    now exists r.
Qed.

(** X17. When every frame of the mapping is well-formed and carries the
    percentage changes of its prices as [daily_return], as the download
    leaves it, and the first frame has a row, the price distance
    analysis returns, every cumulative return series starts at exactly
    0, and so does the cumulative market series, the first market
    average being the mean of no value. *)
Theorem cumulative_returns_start_at_zero (pad : bool)
  (first : string * asset_frame) (rest : historical) (threshold : float) :
  is_dict (first :: rest) ->
  (forall item, In item (first :: rest) ->
     wf_asset_frame (snd item) /\ has_daily_returns pad (snd item)) ->
  af_len (snd first) <> 0 ->
  let returns_df := combined_returns first (first :: rest) in
  let market := calculate_market_average returns_df in
  exists res,
    calculate_price_distance returns_df market threshold = Returned res /\
    Forall (fun c => nth 0 (snd c) nan = 0%float)
           (f_cols (res_cum_returns_df res)) /\
    nth 0 (res_market_cum_return res) nan = 0%float /\
    isna (nth 0 (mf_market_avg_return market) 0%float) = true.
Proof.
  intros Hd H N returns_df market.
  pose proof (return_columns_start_missing pad first rest Hd H N) as Hs.
  fold returns_df in Hs.
  destruct (aligned_columns first rest Hd) as (_ & _ & _ & Dr & Wf).
  destruct (Wf (fun item Hi => proj1 (H item Hi))) as [_ W].
  cbv zeta in Dr. fold returns_df in Dr, W.
  assert (Hrows : nrows returns_df <> 0)
    by (unfold nrows; rewrite Dr; exact N).
  destruct (price_distance_returns returns_df threshold W Hrows)
    as (finals & fm & _ & E).
  fold market in E.
  assert (M : exists t, mf_market_avg_return market = nan :: t).
  { unfold market, calculate_market_average. cbn [mf_market_avg_return].
    destruct (nrows returns_df) as [|n] eqn:En; [congruence|].
    cbn [seq map]. eexists. f_equal.
    unfold nanmean. rewrite all_nan_count; [reflexivity|].
    unfold row_values. apply Forall_map.
    apply (Forall_impl _ (P:=fun c => exists t, snd c = nan :: t));
      [|exact Hs].
    intros [name col] (t & Ec). cbn [snd] in *. subst col. reflexivity. }
  destruct M as (t & M).
  eexists. split; [exact E|]. cbn [res_cum_returns_df res_market_cum_return
                                   f_cols].
  split; [|split].
  - apply Forall_map.
    apply (Forall_impl _ (P:=fun c => exists t, snd c = nan :: t));
      [|exact Hs].
    intros [name col] (t' & Ec). cbn [snd] in *. subst col.
    destruct (cumulative_series_head t') as (c' & ->). reflexivity.
  - rewrite M. destruct (cumulative_series_head t) as (c' & ->).
    reflexivity.
  - rewrite M. reflexivity.
Qed.

(** X17 on the basket: the series of A, B and C and of the market all
    start at 0. *)
Lemma cumulative_returns_start_at_zero_witness :
  exists res,
    calculate_price_distance basket_returns
      (calculate_market_average basket_returns) default_threshold
      = Returned res /\
    Forall (fun c => nth 0 (snd c) nan = 0%float)
           (f_cols (res_cum_returns_df res)) /\
    map fst (f_cols (res_cum_returns_df res)) = ["A"; "B"; "C"] /\
    nth 0 (res_market_cum_return res) nan = 0%float.
Proof.
  assert (H : forall item, In item basket ->
            wf_asset_frame (snd item) /\ has_daily_returns true (snd item)).
  { intros item Hi. split; [now apply basket_frames_wf|].
    cbn in Hi.
    destruct Hi as [<-|[<-|[<-|[<-|[]]]]]; reflexivity. }
  destruct (cumulative_returns_start_at_zero true ("A", asset_A)
              (tl basket) default_threshold basket_is_dict H
              ltac:(discriminate))
    as (res & E & A & B & _).
  exists res. split; [exact E|]. split; [exact A|]. split; [|exact B].
  vm_compute in E. injection E as <-. reflexivity.
Defined.
